(** * The consolidated order book of [bookdata.js]

    A shallow embedding of [BookData] (src/ALL_SHARES/bookdata.js): the
    per-side level storage, the cross-venue aggregation, the comparators,
    the market-order checker and the two weighted-price passes (VBBO and
    VWAP), followed by the properties the specification states about them.

    Conventions of the embedding.
    - A JavaScript number is an exact rational ([Qc], whose Leibniz equality is
      numeric equality, the [===] of the [switch] in [checkMarketOrder]);
      quantities, which the code parses with [parseInt] / [Converter.toInt],
      are integers ([Z]).  Rounding of binary floating point is not modelled.
    - A division whose divisor is zero has no finite result in JavaScript
      (NaN or an infinity); [Number_div] returns [None] there, so a computed
      price is an [option Qc].
    - Level records are objects shared by reference between the side
      mappings, the aggregation result and the sorted arrays: they live in a
      store ([list Row]) and are named by their index ([ref]).
    - A JavaScript object used as a map is an association list in insertion
      order, the order in which [for ... in] and [Object.keys] enumerate
      string keys that are not array indices (none of the keys used here is
      one). *)

From Stdlib Require Import ZArith QArith Qcanon Qround Qabs Lia.
From stdpp Require Import base list strings numbers.

Open Scope Z_scope.
Set Warnings "-clear-no-such-hyp".

(** ** Numbers *)

(** [numerator / denominator]: [None] stands for the non-finite results
    (NaN, +Infinity, -Infinity) of a division by zero. *)
Definition Number_div (numerator denominator : Qc) : option Qc :=
  if decide (denominator = 0%Qc) then None else Some (numerator / denominator)%Qc.

(** The text produced by [toFixed(4)]: an optional minus sign and the
    decimal digits of an integer number of ten-thousandths.  Two texts are
    equal exactly when both components are. *)
Record Fixed4 := { f4_minus : bool; f4_digits : Z }.

#[global] Instance Fixed4_eq_dec : EqDecision Fixed4.
Proof. solve_decision. Defined.

(** [Number.prototype.toFixed(4)]: the sign is split off, then the integer
    [n] with [n / 10^4] nearest to the magnitude is taken, the larger one
    on a tie. *)
Definition toFixed4 (x : Qc) : Fixed4 :=
  {| f4_minus := bool_decide (x < 0)%Qc;
     f4_digits := Qfloor (Qabs x * inject_Z 10000 + (1 # 2))%Q |}.

(** [Number(text)] for a text produced by [toFixed(4)]. *)
Definition Number_of_Fixed4 (t : Fixed4) : Qc :=
  let magnitude := Q2Qc (f4_digits t # 10000) in
  if f4_minus t then (- magnitude)%Qc else magnitude.

(** Modelled from the spec: [Converter] is not part of the sources.  The
    level data model gives a decimal price and an integer quantity; on
    values that are already numbers the conversions return their argument. *)
Definition Converter_toFloat (x : Qc) : Qc := x.
Definition Converter_toInt (n : Z) : Z := n.

(** The builtin [parseInt] on an integer. *)
Definition parseInt (n : Z) : Z := n.

(** ** JavaScript objects used as maps *)

Section JsObject.
Context {K V : Type} `{EqDecision K}.

(** [o[k]] *)
Fixpoint obj_get (k : K) (o : list (K * V)) : option V :=
  match o with
  | [] => None
  | (k', v) :: o' => if decide (k' = k) then Some v else obj_get k o'
  end.

(** [o[k] = v]: an existing property keeps its place, a new one goes last. *)
Fixpoint obj_set (k : K) (v : V) (o : list (K * V)) : list (K * V) :=
  match o with
  | [] => [(k, v)]
  | (k', v') :: o' =>
      if decide (k' = k) then (k, v) :: o' else (k', v') :: obj_set k v o'
  end.

(** [delete o[k]] *)
Fixpoint obj_delete (k : K) (o : list (K * V)) : list (K * V) :=
  match o with
  | [] => []
  | (k', v') :: o' =>
      if decide (k' = k) then obj_delete k o' else (k', v') :: obj_delete k o'
  end.

(** [Object.keys(o)] and the values in the same order. *)
Definition obj_keys (o : list (K * V)) : list K := o.*1.
Definition obj_values (o : list (K * V)) : list V := o.*2.
End JsObject.

(** ** Level records and the store *)

(** The composite key [JSON.stringify({venue: level})].  The JSON text is an
    injective encoding of the pair; the pair itself is kept. *)
Abbreviation Key := (string * Z)%type (only parsing).

Definition _createKeyData (venue : string) (level : Z) : Key := (venue, level).

Record Row := mkRow {
  price  : Qc;
  qty    : Z;
  venue  : string;
  vbbo   : option Qc;
  cumQty : Z;
  key    : Key
}.

Definition set_qty (q : Z) (r : Row) : Row :=
  mkRow (price r) q (venue r) (vbbo r) (cumQty r) (key r).
Definition set_venue (v : string) (r : Row) : Row :=
  mkRow (price r) (qty r) v (vbbo r) (cumQty r) (key r).
Definition set_vbbo (v : option Qc) (r : Row) : Row :=
  mkRow (price r) (qty r) (venue r) v (cumQty r) (key r).
Definition set_cumQty (c : Z) (r : Row) : Row :=
  mkRow (price r) (qty r) (venue r) (vbbo r) c (key r).
Definition set_key (k : Key) (r : Row) : Row :=
  mkRow (price r) (qty r) (venue r) (vbbo r) (cumQty r) k.

Definition _createRow (price : Qc) (qty : Z) (venue : string) (level : Z) : Row :=
  let data := _createKeyData venue level in
  mkRow price qty venue (Some 0%Qc) 0 data.

(** A reference to a level record, and the store of all records created so
    far.  A record is never freed while something refers to it. *)
Abbreviation ref := nat (only parsing).
Abbreviation Store := (list Row) (only parsing).

(** The records an array of references points to. *)
Definition rows_of (h : Store) (refs : list ref) : list Row :=
  omap (λ r, h !! r) refs.

(** ** The market-order checker *)

(** [Formatter_MarketPrices]: the reserved prices, constants of the
    surrounding system. *)
Record MarketPrices := {
  BID : Qc;
  OFFER : Qc;
  UNKNOWN_BID : Qc;
  UNKNOWN_OFFER : Qc
}.

Record VBBOMarkerOrderChecker := mkChecker {
  isMarkerOrder    : bool;
  isBidMarkerOrder : bool;
  hasMarkerOrder   : bool
}.

Definition newChecker : VBBOMarkerOrderChecker := mkChecker false false false.

(** The outcome of a comparator: a number, or the boolean that
    [compareCommon] returns from its last branch. *)
Inductive CompareResult :=
| CmpNumber (q : Qc)
| CmpBoolean (b : bool).

(** [ToNumber], as [Array.prototype.sort] applies it to the outcome. *)
Definition ToNumber (c : CompareResult) : Qc :=
  match c with
  | CmpNumber q => q
  | CmpBoolean true => 1%Qc
  | CmpBoolean false => 0%Qc
  end.

(** What the rendering callback and the observers receive. *)
Module Update.
Record t := mk {
  level  : nat;
  side   : Z;
  qty    : Z;
  price  : Fixed4;
  venue  : string;
  cumQty : Z;
  vbbo   : option Fixed4
}.
End Update.

Inductive CallbackEvent :=
| ResetWithCount (rows : nat)
| UpdateBook (u : Update.t)
| OnRedisplay.

(** The result of a VWAP computation: [{qty, price, level}]. *)
Module Vwap.
Record t := mk {
  qty   : Z;
  price : option Qc;
  level : Z
}.
End Vwap.

(** The book: the store of level records, the two side mappings and the
    sorted arrays left by the last [redisplay]. *)
Record BookData := mkBook {
  store      : Store;
  buySide    : list (Key * ref);
  sellSide   : list (Key * ref);
  sortedBuy  : list ref;
  sortedSell : list ref
}.

Definition BUY_SIDE : Z := 1.
Definition SELL_SIDE : Z := 2.

(** [new BookData()] *)
Definition newBookData : BookData := mkBook [] [] [] [] [].

(** ** Comparators *)

(** [BookData.compareCommon] *)
Definition compareCommon (lhs rhs : Row) : CompareResult :=
  let result := qty rhs - qty lhs in
  if decide (0 = result) then
    if decide (venue lhs = "XEQT"%string) then CmpNumber (-1)%Qc
    else if decide (venue rhs = "XEQT"%string) then CmpNumber 1%Qc
    else CmpBoolean (String.ltb (venue lhs) (venue rhs))
  else CmpNumber (Qc_of_Z result).

(** [_compareBuy] *)
Definition _compareBuy (lhs rhs : Row) : CompareResult :=
  if decide (0%Qc = price lhs) then
    if decide (0%Qc = price rhs) then compareCommon lhs rhs
    else CmpNumber (-1)%Qc
  else if decide (0%Qc = price rhs) then CmpNumber 1%Qc
  else
    let result := (price rhs - price lhs)%Qc in
    if decide (0%Qc = result) then compareCommon lhs rhs
    else CmpNumber result.

(** [_compareSell] *)
Definition _compareSell (lhs rhs : Row) : CompareResult :=
  let result := (price lhs - price rhs)%Qc in
  if decide (0%Qc = result) then compareCommon lhs rhs
  else CmpNumber result.

(** ** Storage *)

(** [_setSideData] *)
Definition _setSideData (sideData : list (Key * ref)) (newRow : Row) (r : ref)
  : list (Key * ref) :=
  if decide (qty newRow = 0) then obj_delete (key newRow) sideData
  else obj_set (key newRow) r sideData.

(** [updateBook]: the new record is allocated at the end of the store. *)
Definition updateBook (level side qty : Z) (price : Qc) (venue : string)
    (b : BookData) : BookData :=
  let newRow := _createRow price qty venue level in
  let r := length (store b) in
  let h := store b ++ [newRow] in
  if decide (side = BUY_SIDE)
  then mkBook h (_setSideData (buySide b) newRow r) (sellSide b)
              (sortedBuy b) (sortedSell b)
  else mkBook h (buySide b) (_setSideData (sellSide b) newRow r)
              (sortedBuy b) (sortedSell b).

(** [resetData]: the four fields are replaced; the records stay where they
    are, unreferenced. *)
Definition resetData (b : BookData) : BookData :=
  mkBook (store b) [] [] [] [].

(** ** Aggregation *)

(** The first loop of [_aggregate]: group the records by rounded price,
    merging into the record that was seen first at that price. *)
Fixpoint aggregate_byPrice (side : list (Key * ref))
    (byPriceMap : list (Fixed4 * ref)) (h : Store)
  : list (Fixed4 * ref) * Store :=
  match side with
  | [] => (byPriceMap, h)
  | (_, value) :: rest =>
      match h !! value with
      | None => aggregate_byPrice rest byPriceMap h
      | Some v =>
          let roundedPrice := toFixed4 (Converter_toFloat (price v)) in
          match obj_get roundedPrice byPriceMap with
          | None =>
              let byPriceMap := obj_set roundedPrice value byPriceMap in
              let h := alter (λ b, set_qty (parseInt (qty b)) b) value h in
              aggregate_byPrice rest byPriceMap h
          | Some byPriceValue =>
              let h := alter (λ b, set_qty (qty b + parseInt (qty v)) b)
                         byPriceValue h in
              let h := alter (λ b, set_cumQty (cumQty b + cumQty v) b)
                         byPriceValue h in
              let h := alter (λ b, if decide (venue b = ""%string)
                                   then set_key (key v) b else b)
                         byPriceValue h in
              aggregate_byPrice rest byPriceMap h
          end
      end
  end.

(** The second loop of [_aggregate]: clear the venue and key the result by
    the record's own [key] field. *)
Fixpoint aggregate_transpose (byPriceMap : list (Fixed4 * ref))
    (result : list (Key * ref)) (h : Store) : list (Key * ref) * Store :=
  match byPriceMap with
  | [] => (result, h)
  | (_, byPriceValue) :: rest =>
      let h := alter (set_venue ""%string) byPriceValue h in
      match h !! byPriceValue with
      | None => aggregate_transpose rest result h
      | Some b => aggregate_transpose rest (obj_set (key b) byPriceValue result) h
      end
  end.

(** [_aggregate] *)
Definition _aggregate (side : list (Key * ref)) (h : Store)
  : list (Key * ref) * Store :=
  let '(byPriceMap, h) := aggregate_byPrice side [] h in
  aggregate_transpose byPriceMap [] h.

(** ** The book operations that depend on the surrounding system *)

Section Book.
(** The reserved prices. *)
Variable Formatter_MarketPrices : MarketPrices.

(** [Array.prototype.sort], a builtin of the host. *)
Variable sort : ∀ A : Type, (A → A → CompareResult) → list A → list A.

(** [checkMarketOrder] *)
Definition checkMarketOrder (price : Qc) (c : VBBOMarkerOrderChecker)
  : VBBOMarkerOrderChecker :=
  if decide (price = BID Formatter_MarketPrices) then mkChecker true true true
  else if decide (price = OFFER Formatter_MarketPrices) then mkChecker true false true
  else mkChecker false (isBidMarkerOrder c) (hasMarkerOrder c).

(** [calculateRowPrice] *)
Definition calculateRowPrice (c : VBBOMarkerOrderChecker)
    (price numerator : Qc) (denominator : Z) : option Qc :=
  if hasMarkerOrder c then
    if isMarkerOrder c then Some price
    else Some (if isBidMarkerOrder c
               then UNKNOWN_BID Formatter_MarketPrices
               else UNKNOWN_OFFER Formatter_MarketPrices)
  else
    if 0 <? denominator then Number_div numerator (Qc_of_Z denominator)
    else Some 0%Qc.

(** [calculatePrice] *)
Definition calculatePrice (c : VBBOMarkerOrderChecker)
    (numerator : Qc) (denominator : Z) : option Qc :=
  if hasMarkerOrder c then
    Some (if isBidMarkerOrder c
          then BID Formatter_MarketPrices
          else OFFER Formatter_MarketPrices)
  else
    if 0 <? denominator then Number_div numerator (Qc_of_Z denominator)
    else Some 0%Qc.

(** The [forEach] of [_calculateVBBO]; the running figures are written
    back onto the record the array element refers to. *)
Fixpoint vbbo_loop (sortedArray : list ref) (value : Qc) (cumQty : Z)
    (marketOrderChecker : VBBOMarkerOrderChecker) (h : Store) : Store :=
  match sortedArray with
  | [] => h
  | r :: rest =>
      match h !! r with
      | None => vbbo_loop rest value cumQty marketOrderChecker h
      | Some row =>
          let price := Converter_toFloat (price row) in
          let quantity := Converter_toInt (qty row) in
          let marketOrderChecker := checkMarketOrder price marketOrderChecker in
          let cumQty := cumQty + quantity in
          let value := (value + price * Qc_of_Z quantity)%Qc in
          let h := alter (set_cumQty cumQty) r h in
          let h := alter (set_vbbo (calculateRowPrice marketOrderChecker
                                      price value cumQty)) r h in
          vbbo_loop rest value cumQty marketOrderChecker h
      end
  end.

(** [_calculateVBBO]; its first parameter, the side mapping, is not used. *)
Definition _calculateVBBO (side : list (Key * ref)) (sortedArray : list ref)
    (h : Store) : Store :=
  vbbo_loop sortedArray 0%Qc 0 newChecker h.

(** The [for] loop of [_calculateVwapForQty] and the object it returns.
    The test [rowPrice !== NaN] of the source is true of every value. *)
Fixpoint vwap_loop (index : Z) (sortedArray : list Row)
    (remaining used : Z) (value : Qc) (level : Z)
    (marketOrderChecker : VBBOMarkerOrderChecker) : Vwap.t :=
  match sortedArray with
  | [] => Vwap.mk used (calculatePrice marketOrderChecker value used) level
  | row :: rest =>
      let rowQty := Converter_toInt (qty row) in
      let rowPrice := Converter_toFloat (price row) in
      let marketOrderChecker := checkMarketOrder rowPrice marketOrderChecker in
      if (0 <? remaining) && ((0 <? rowQty) && true) then
        let qtyAdjust := if rowQty <? remaining then rowQty else remaining in
        vwap_loop (index + 1) rest (remaining - qtyAdjust) (used + qtyAdjust)
          (value + Qc_of_Z qtyAdjust * rowPrice)%Qc index marketOrderChecker
      else
        vwap_loop (index + 1) rest remaining used value level marketOrderChecker
  end.

(** [_calculateVwapForQty] *)
Definition _calculateVwapForQty (qty : Z) (sortedArray : list Row) : Vwap.t :=
  vwap_loop 0 sortedArray qty 0 0%Qc (-1) newChecker.

(** [_sortValues]: the array of the values, sorted by the comparator
    applied to the records they refer to. *)
Definition _sortValues (h : Store) (dataObject : list (Key * ref))
    (compare : Row → Row → CompareResult) : list ref :=
  sort ref
    (λ a b, match h !! a, h !! b with
            | Some lhs, Some rhs => compare lhs rhs
            | _, _ => CmpNumber 0%Qc
            end)
    (obj_values dataObject).

(** [BookData.createUpdateObj] *)
Definition createUpdateObj (level : nat) (side qty : Z) (price : Fixed4)
    (venue : string) (cumQty : Z) (vbbo : option Qc) : Update.t :=
  Update.mk level side qty (toFixed4 (Number_of_Fixed4 price)) venue cumQty
    (toFixed4 <$> vbbo).

(** [_redisplaySide]: the calls of [callback.updateBook], in order. *)
Definition _redisplaySide (h : Store) (sortedArray : list ref) (side : Z)
  : list CallbackEvent :=
  imap (λ rowCount row,
          UpdateBook (createUpdateObj rowCount side (qty row)
                        (toFixed4 (price row)) (venue row) (cumQty row)
                        (vbbo row)))
       (rows_of h sortedArray).

(** The assignment to [length] in [redisplay]. *)
Definition truncate (consolidated : bool) (sorted : list ref) : list ref :=
  if consolidated && bool_decide (5 < length sorted)%nat
  then take 5 sorted else sorted.

(** [redisplay]: the new book and what the callback and the observers of
    [OnRedisplay] are sent. *)
Definition redisplay (consolidated : bool) (b : BookData)
  : BookData * list CallbackEvent :=
  let h := store b in
  let '(buy, h) := if consolidated then _aggregate (buySide b) h
                   else (buySide b, h) in
  let sortedBuy := _sortValues h buy _compareBuy in
  let '(sell, h) := if consolidated then _aggregate (sellSide b) h
                    else (sellSide b, h) in
  let sortedSell := _sortValues h sell _compareSell in
  let sortedBuy := truncate consolidated sortedBuy in
  let sortedSell := truncate consolidated sortedSell in
  let h := _calculateVBBO (buySide b) sortedBuy h in
  let h := _calculateVBBO (sellSide b) sortedSell h in
  let rows := if bool_decide (length sortedSell < length sortedBuy)%nat
              then length sortedBuy else length sortedSell in
  (mkBook h (buySide b) (sellSide b) sortedBuy sortedSell,
   ResetWithCount rows
     :: _redisplaySide h sortedBuy BUY_SIDE
     ++ _redisplaySide h sortedSell SELL_SIDE
     ++ [OnRedisplay]).

(** The object returned by [getVwapUpdate]. *)
Record VwapUpdate := mkVwapUpdate {
  vwap      : string;
  vwap_qty  : Z;
  buyQty    : Z;
  buyPrice  : option Qc;
  buyLevel  : Z;
  sellQty   : Z;
  sellPrice : option Qc;
  sellLevel : Z
}.

(** [getVwapUpdate] *)
Definition getVwapUpdate (vwapName : string) (qty : Z) (b : BookData)
  : VwapUpdate :=
  let buyVwap := _calculateVwapForQty qty (rows_of (store b) (sortedBuy b)) in
  let sellVwap := _calculateVwapForQty qty (rows_of (store b) (sortedSell b)) in
  mkVwapUpdate vwapName qty
    (Vwap.qty buyVwap) (Vwap.price buyVwap) (Vwap.level buyVwap)
    (Vwap.qty sellVwap) (Vwap.price sellVwap) (Vwap.level sellVwap).
End Book.

(** ** A concrete host, for running the book *)

(** A stable insertion sort: an element moves in front of the first element
    it does not compare greater than. *)
Fixpoint sort_insert {A : Type} (compare : A → A → CompareResult)
    (x : A) (l : list A) : list A :=
  match l with
  | [] => [x]
  | y :: l' =>
      if bool_decide (ToNumber (compare x y) ≤ 0)%Qc then x :: l
      else y :: sort_insert compare x l'
  end.

Definition insertion_sort (A : Type) (compare : A → A → CompareResult)
    (l : list A) : list A :=
  foldr (sort_insert compare) [] l.

(** A table of reserved prices for running the examples.  The table of the
    surrounding system is not part of the sources; the four values here are
    pairwise distinct, with 999999 and 0 as the market prices the comments
    of the comparators mention. *)
Definition example_prices : MarketPrices :=
  {| BID := Qc_of_Z 999999; OFFER := Qc_of_Z 0;
     UNKNOWN_BID := Qc_of_Z 999998; UNKNOWN_OFFER := Qc_of_Z (-1) |}.

(** ** Vocabulary of the properties *)

(** A price is a market-order marker when it is one of the two reserved
    input prices. *)
Definition is_marker (P : MarketPrices) (p : Qc) : Prop :=
  p = BID P ∨ p = OFFER P.

#[global] Instance is_marker_dec P p : Decision (is_marker P p).
Proof. unfold is_marker. apply _. Defined.

(** The checker after a fresh one has observed the prices in order. *)
Definition observe_prices (P : MarketPrices) (c : VBBOMarkerOrderChecker)
    (prices : list Qc) : VBBOMarkerOrderChecker :=
  foldl (λ c p, checkMarketOrder P p c) c prices.

(** Cumulative quantity and cumulative notional after a sequence of
    levels, from given starting figures. *)
Definition running_qty (start : Z) (rows : list Row) : Z :=
  foldl (λ acc row, acc + qty row) start rows.

Definition running_value (start : Qc) (rows : list Row) : Qc :=
  foldl (λ acc row, (acc + price row * Qc_of_Z (qty row))%Qc) start rows.

(** The side mapping an update is routed to. *)
Definition sideData (side : Z) (b : BookData) : list (Key * ref) :=
  if decide (side = BUY_SIDE) then buySide b else sellSide b.

(** The VWAP walk in the words of the specification: each level of
    positive quantity gives up the smaller of what is still wanted and
    what it holds. *)
Fixpoint spec_fills (remaining : Z) (levels : list Row) : list Z :=
  match levels with
  | [] => []
  | l :: rest =>
      let fill := if 0 <? qty l then Z.min remaining (qty l) else 0 in
      fill :: spec_fills (remaining - fill) rest
  end.

Definition spec_consumed (fills : list Z) : Z := foldr Z.add 0 fills.

Fixpoint spec_notional (fills : list Z) (levels : list Row) : Qc :=
  match fills, levels with
  | f :: fills', l :: levels' =>
      (Qc_of_Z f * price l + spec_notional fills' levels')%Qc
  | _, _ => 0%Qc
  end.

(** The index of the last level that gave a positive fill, counting from
    [index], if there is one. *)
Fixpoint spec_last_contributor (index : Z) (fills : list Z) : option Z :=
  match fills with
  | [] => None
  | f :: fills' =>
      match spec_last_contributor (index + 1) fills' with
      | Some i => Some i
      | None => if 0 <? f then Some index else None
      end
  end.

Definition spec_vwap (requested : Z) (levels : list Row) : Vwap.t :=
  let fills := spec_fills requested levels in
  let consumed := spec_consumed fills in
  Vwap.mk consumed
    (if 0 <? consumed
     then Some (spec_notional fills levels / Qc_of_Z consumed)%Qc
     else Some 0%Qc)
    (default (-1) (spec_last_contributor 0 fills)).

(** The order of JavaScript's [<] on strings: at the first position where
    the two differ, the left one has ended or holds the smaller code. *)
Inductive lex_lt : string → string → Prop :=
| lex_lt_end c t : lex_lt EmptyString (String c t)
| lex_lt_head c d s t :
    (Ascii.N_of_ascii c < Ascii.N_of_ascii d)%N → lex_lt (String c s) (String d t)
| lex_lt_tail c s t : lex_lt s t → lex_lt (String c s) (String c t).

(** One call of [updateBook], as data; and a run of such calls. *)
Record Upsert := mkUpsert {
  up_level : Z; up_side : Z; up_qty : Z; up_price : Qc; up_venue : string
}.

Definition apply_upsert (b : BookData) (u : Upsert) : BookData :=
  updateBook (up_level u) (up_side u) (up_qty u) (up_price u) (up_venue u) b.

Definition apply_upserts (us : list Upsert) (b : BookData) : BookData :=
  foldl apply_upsert b us.

(** Every reference of the list names a record of the store. *)
Definition refs_valid (h : Store) (refs : list ref) : Prop :=
  ∀ r, r ∈ refs → (r < length h)%nat.

(** The book invariant: the side mappings and the sorted arrays refer to
    records of the store, and no record is stored twice. *)
Record book_wf (b : BookData) : Prop := {
  wf_sides  : refs_valid (store b) (obj_values (buySide b) ++ obj_values (sellSide b));
  wf_nodup  : NoDup (obj_values (buySide b) ++ obj_values (sellSide b));
  wf_buy    : refs_valid (store b) (sortedBuy b);
  wf_sell   : refs_valid (store b) (sortedSell b);
  wf_buy_nodup  : NoDup (sortedBuy b);
  wf_sell_nodup : NoDup (sortedSell b)
}.

(** The books the interface can produce. *)
Inductive reachable (P : MarketPrices)
    (sort : ∀ A : Type, (A → A → CompareResult) → list A → list A)
  : BookData → Prop :=
| reach_new : reachable P sort newBookData
| reach_update level side qty price venue b :
    reachable P sort b →
    reachable P sort (updateBook level side qty price venue b)
| reach_reset b :
    reachable P sort b → reachable P sort (resetData b)
| reach_redisplay consolidated b :
    reachable P sort b →
    reachable P sort (redisplay P sort consolidated b).1.

(** The rounded price under which [_aggregate] files a record. *)
Definition roundedPrice (row : Row) : Fixed4 :=
  toFixed4 (Converter_toFloat (price row)).

(** The levels of a sequence that round to a given price. *)
Definition group_of (rp : Fixed4) (rows : list Row) : list Row :=
  filter (λ row, roundedPrice row = rp) rows.

(** What the three assignments of the merging branch of [_aggregate] make
    of the record that seeds a price group when one more level joins. *)
Definition merge_level (byPriceValue value : Row) : Row :=
  let b := set_qty (qty byPriceValue + parseInt (qty value)) byPriceValue in
  let b := set_cumQty (cumQty b + cumQty value) b in
  if decide (venue b = ""%string) then set_key (key value) b else b.

(** The (price, quantity) pairs of the levels a mapping holds. *)
Definition level_pairs (h : Store) (o : list (Key * ref)) : list (Qc * Z) :=
  (λ row, (price row, qty row)) <$> rows_of h (obj_values o).

(** A side mapping is consolidated when it holds one entry per distinct
    price and every entry carries the empty venue. *)
Definition consolidated_side (h : Store) (side : list (Key * ref)) : Prop :=
  refs_valid h (obj_values side)
  ∧ NoDup (price <$> rows_of h (obj_values side))
  ∧ Forall (λ row, venue row = ""%string) (rows_of h (obj_values side)).

(** Aggregating the mapping gives the same set of (price, quantity) pairs. *)
Definition aggregate_keeps_pairs (h : Store) (side : list (Key * ref)) : Prop :=
  ∀ pq, pq ∈ level_pairs (_aggregate side h).2 (_aggregate side h).1
        ↔ pq ∈ level_pairs h side.

(** Every entry of the mapping is filed under the [key] field of its own
    record. *)
Definition filed_under_own_key (h : Store) (o : list (Key * ref)) : Prop :=
  Forall (λ e, ∃ row, h !! e.2 = Some row ∧ key row = e.1) o.

(** [byPriceMap] while the first loop of [_aggregate] runs: every price is
    filed with a record of that rounded price, and that record is not among
    the entries still to come. *)
Definition byPrice_ok (h : Store) (byPriceMap : list (Fixed4 * ref))
    (todo : list (Key * ref)) : Prop :=
  ∀ rp s, obj_get rp byPriceMap = Some s →
    (s ∉ obj_values todo)
    ∧ ∃ srow, h !! s = Some srow ∧ roundedPrice srow = rp.

(** The entries the first loop of [_aggregate] files when every record
    opens a price group of its own, and the entries the second loop then
    returns. *)
Definition seed_entries (h : Store) (side : list (Key * ref))
  : list (Fixed4 * ref) :=
  omap (λ e, (λ row, (roundedPrice row, e.2)) <$> h !! e.2) side.

Definition key_entries (h : Store) (byPriceMap : list (Fixed4 * ref))
  : list (Key * ref) :=
  omap (λ e, (λ row, (key row, e.2)) <$> h !! e.2) byPriceMap.

(** Every record filed in [byPriceMap] is the one found there under its own
    rounded price. *)
Definition byPrice_indexed (h : Store) (byPriceMap : list (Fixed4 * ref))
  : Prop :=
  ∀ s, s ∈ obj_values byPriceMap →
    ∃ srow, h !! s = Some srow
            ∧ obj_get (roundedPrice srow) byPriceMap = Some s.

(** The sticky rule of the VBBO pass read so that any earlier marker
    decides: a row that is no marker carries the UNKNOWN price of whichever
    marker was observed before it, and a marker row carries its own price. *)
Definition vbbo_sticky_by_any_marker (P : MarketPrices) (h : Store)
    (sortedArray : list ref) : Prop :=
  let h' := _calculateVBBO P [] sortedArray h in
  ∀ (i j : nat) (ri rj : ref) (rowi rowj : Row),
    (i < j)%nat →
    sortedArray !! i = Some ri → sortedArray !! j = Some rj →
    h !! ri = Some rowi → h !! rj = Some rowj →
    (is_marker P (price rowj) →
       vbbo <$> h' !! rj = Some (Some (price rowj)))
    ∧ (¬ is_marker P (price rowj) → price rowi = BID P →
       vbbo <$> h' !! rj = Some (Some (UNKNOWN_BID P)))
    ∧ (¬ is_marker P (price rowj) → price rowi = OFFER P →
       vbbo <$> h' !! rj = Some (Some (UNKNOWN_OFFER P))).

(** Three levels in display order: a BID marker, an OFFER marker and a
    priced level. *)
Definition mixed_markers_store : Store :=
  [ mkRow (BID example_prices) 10 "A" (Some 0%Qc) 0 ("A"%string, 0);
    mkRow (OFFER example_prices) 10 "B" (Some 0%Qc) 0 ("B"%string, 0);
    mkRow (Qc_of_Z 100) 10 "C" (Some 0%Qc) 0 ("C"%string, 0) ].

(** The claim of idempotence read on every consolidated mapping. *)
Definition aggregation_idempotent_on (h : Store) (side : list (Key * ref))
  : Prop :=
  consolidated_side h side → aggregate_keeps_pairs h side.

(** ** Example books *)

(** A consolidated redisplay on the concrete host. *)
Definition consolidated_pass (b : BookData) : BookData :=
  (redisplay example_prices insertion_sort true b).1.

(** Two venues bidding 10: 5 at A and 3 at B. *)
Definition two_venue_book : BookData :=
  apply_upserts
    [ mkUpsert 1 BUY_SIDE 5 (Qc_of_Z 10) "A";
      mkUpsert 1 BUY_SIDE 3 (Qc_of_Z 10) "B" ]
    newBookData.

(** The same book displayed consolidated twice, then venue B moving its
    bid to 11, then displayed consolidated again. *)
Definition lost_level_book : BookData :=
  consolidated_pass
    (apply_upsert (consolidated_pass (consolidated_pass two_venue_book))
       (mkUpsert 1 BUY_SIDE 3 (Qc_of_Z 11) "B")).

(** The book one step before [lost_level_book]: after two consolidated
    displays, venue B has moved its bid to 11. *)
Definition colliding_book : BookData :=
  apply_upsert (consolidated_pass (consolidated_pass two_venue_book))
    (mkUpsert 1 BUY_SIDE 3 (Qc_of_Z 11) "B").

(** Six bids at six prices and one offer. *)
Definition six_level_book : BookData :=
  apply_upserts
    [ mkUpsert 1 BUY_SIDE 10 (Qc_of_Z 100) "A";
      mkUpsert 2 BUY_SIDE 10 (Qc_of_Z 99) "A";
      mkUpsert 3 BUY_SIDE 10 (Qc_of_Z 98) "A";
      mkUpsert 4 BUY_SIDE 10 (Qc_of_Z 97) "A";
      mkUpsert 5 BUY_SIDE 10 (Qc_of_Z 96) "A";
      mkUpsert 6 BUY_SIDE 10 (Qc_of_Z 95) "A";
      mkUpsert 1 SELL_SIDE 10 (Qc_of_Z 101) "A" ]
    newBookData.

(** The sign contract of [Array.prototype.sort]: a negative outcome of
    the comparator places its left argument before the right one, a
    positive outcome after it; on 0 the two are of equal rank. *)
Definition sorts_before (c : CompareResult) : Prop := (ToNumber c < 0)%Qc.

Definition sorts_after (c : CompareResult) : Prop := (0 < ToNumber c)%Qc.

(** The venue rule read as an order: of two levels of equal quantity and
    venues other than the preferred one, the one whose venue is
    lexicographically smaller is placed first when it is on the left. *)
Definition venue_rule_alphabetic (lhs rhs : Row) : Prop :=
  qty lhs = qty rhs →
  venue lhs ≠ "XEQT"%string → venue rhs ≠ "XEQT"%string →
  lex_lt (venue lhs) (venue rhs) →
  sorts_before (compareCommon lhs rhs).

(** ** Vocabulary of the further properties *)

(** The quantity a sequence of levels can give: the sum of its positive
    quantities. *)
Definition available_qty (rows : list Row) : Z :=
  foldr (λ row acc, Z.max 0 (qty row) + acc) 0 rows.

(** The book after [n] consolidated redisplays in a row. *)
Definition consolidated_passes (P : MarketPrices)
    (sort : ∀ A : Type, (A → A → CompareResult) → list A → list A)
    (n : nat) (b : BookData) : BookData :=
  Nat.iter n (λ b, (redisplay P sort true b).1) b.

(** The sorted array of the side an update is routed to. *)
Definition sortedSide (side : Z) (b : BookData) : list ref :=
  if decide (side = BUY_SIDE) then sortedBuy b else sortedSell b.

(** An update is addressed to a side and a key when [updateBook] routes it
    to the mapping of that side and files it under that key; and the
    record [updateBook] creates for it. *)
Definition addresses (side : Z) (k : Key) (u : Upsert) : Prop :=
  (up_side u = BUY_SIDE ↔ side = BUY_SIDE)
  ∧ _createKeyData (up_venue u) (up_level u) = k.

#[global] Instance addresses_dec side k u : Decision (addresses side k u).
Proof. unfold addresses. apply _. Defined.

Definition row_of_upsert (u : Upsert) : Row :=
  _createRow (up_price u) (up_qty u) (up_venue u) (up_level u).

(** * Properties *)

(** ** Objects used as maps *)

Section JsObjectFacts.
Context {K V : Type} `{EqDecision K}.
Implicit Types (o : list (K * V)) (k : K) (v : V).

Lemma obj_get_set_eq o k v : obj_get k (obj_set k v o) = Some v.
Proof.
  induction o as [|[k' v'] o IH]; simpl.
  - by rewrite decide_True.
  - destruct (decide (k' = k)) as [->|Hne]; simpl.
    + by rewrite decide_True.
    + by rewrite decide_False.
Qed.

Lemma obj_get_set_ne o k k' v :
  k ≠ k' → obj_get k' (obj_set k v o) = obj_get k' o.
Proof.
  intros Hne. induction o as [|[k0 v0] o IH]; simpl.
  - by rewrite decide_False.
  - destruct (decide (k0 = k)) as [->|Hk]; simpl.
    + by rewrite !decide_False.
    + by rewrite IH.
Qed.

Lemma obj_get_delete_eq o k : obj_get k (obj_delete k o) = None.
Proof.
  induction o as [|[k' v'] o IH]; simpl; [done|].
  destruct (decide (k' = k)); simpl; [done|]. by rewrite decide_False.
Qed.

Lemma obj_get_delete_ne o k k' :
  k ≠ k' → obj_get k' (obj_delete k o) = obj_get k' o.
Proof.
  intros Hne. induction o as [|[k0 v0] o IH]; simpl; [done|].
  destruct (decide (k0 = k)) as [->|Hk]; simpl.
  - rewrite IH. by rewrite decide_False.
  - by rewrite IH.
Qed.

Lemma obj_get_None o k : obj_get k o = None ↔ k ∉ obj_keys o.
Proof.
  unfold obj_keys. induction o as [|[k' v'] o IH]; simpl.
  - split; [intros _; apply not_elem_of_nil | done].
  - rewrite not_elem_of_cons. destruct (decide (k' = k)) as [->|Hk].
    + split; [done | by intros [? _]].
    + rewrite IH. naive_solver.
Qed.

Lemma obj_get_Some_elem o k v : obj_get k o = Some v → (k, v) ∈ o.
Proof.
  induction o as [|[k' v'] o IH]; simpl; [done|].
  destruct (decide (k' = k)) as [->|Hk].
  - intros [= ->]. apply list_elem_of_here.
  - intros Hget. apply list_elem_of_further. by apply IH.
Qed.

(** Setting a property that is not there appends it. *)
Lemma obj_set_fresh o k v : k ∉ obj_keys o → obj_set k v o = o ++ [(k, v)].
Proof.
  unfold obj_keys. induction o as [|[k' v'] o IH]; simpl; [done|].
  rewrite not_elem_of_cons. intros [Hne Hnot].
  rewrite decide_False; [|done]. by rewrite IH.
Qed.

Lemma obj_values_set o k v r :
  r ∈ obj_values (obj_set k v o) → r = v ∨ r ∈ obj_values o.
Proof.
  unfold obj_values. induction o as [|[k' v'] o IH]; simpl.
  - rewrite list_elem_of_singleton. by left.
  - destruct (decide (k' = k)); simpl; rewrite !elem_of_cons; naive_solver.
Qed.

Lemma obj_values_delete o k r :
  r ∈ obj_values (obj_delete k o) → r ∈ obj_values o.
Proof.
  unfold obj_values. induction o as [|[k' v'] o IH]; simpl; [done|].
  destruct (decide (k' = k)); simpl; rewrite !elem_of_cons; naive_solver.
Qed.

Lemma obj_delete_sublist o k : obj_delete k o `sublist_of` o.
Proof.
  induction o as [|[k' v'] o IH]; simpl; [done|].
  destruct (decide (k' = k)); by constructor.
Qed.
End JsObjectFacts.

(** ** The market-order checker *)

Section Checker.
Variable P : MarketPrices.
Implicit Types (c : VBBOMarkerOrderChecker) (p : Qc).

Lemma checkMarketOrder_marker c p :
  is_marker P p →
  checkMarketOrder P p c = mkChecker true (bool_decide (p = BID P)) true.
Proof.
  unfold checkMarketOrder. intros [->| ->].
  - by rewrite decide_True, bool_decide_eq_true_2.
  - destruct (decide (OFFER P = BID P)) as [Heq|Hne].
    + by rewrite bool_decide_eq_true_2.
    + rewrite decide_True by done. by rewrite bool_decide_eq_false_2.
Qed.

Lemma checkMarketOrder_plain c p :
  ¬ is_marker P p →
  checkMarketOrder P p c
  = mkChecker false (isBidMarkerOrder c) (hasMarkerOrder c).
Proof.
  unfold checkMarketOrder, is_marker. intros Hno.
  rewrite !decide_False; [done| |]; intros ->; apply Hno; auto.
Qed.

(** The flag [hasMarkerOrder] is never cleared. *)
Lemma checkMarketOrder_sticky c p :
  hasMarkerOrder c = true → hasMarkerOrder (checkMarketOrder P p c) = true.
Proof.
  intros Hhas. destruct (decide (is_marker P p)) as [Hm|Hm].
  - by rewrite checkMarketOrder_marker.
  - by rewrite checkMarketOrder_plain.
Qed.

Lemma observe_prices_app c ps qs :
  observe_prices P c (ps ++ qs) = observe_prices P (observe_prices P c ps) qs.
Proof. apply foldl_app. Qed.

Lemma observe_prices_sticky c ps :
  hasMarkerOrder c = true → hasMarkerOrder (observe_prices P c ps) = true.
Proof.
  revert c. induction ps as [|p ps IH]; intros c Hc; simpl; [done|].
  apply IH. by apply checkMarketOrder_sticky.
Qed.

(** Prices that are no markers leave the two sticky flags as they were
    and, when there is at least one, clear the current-row flag. *)
Lemma observe_prices_plain c ps :
  Forall (λ p, ¬ is_marker P p) ps →
  hasMarkerOrder (observe_prices P c ps) = hasMarkerOrder c
  ∧ isBidMarkerOrder (observe_prices P c ps) = isBidMarkerOrder c
  ∧ (ps ≠ [] → isMarkerOrder (observe_prices P c ps) = false).
Proof.
  intros Hall. revert c. induction Hall as [|p ps Hp _ IH]; intros c.
  - by repeat split.
  - change (observe_prices P c (p :: ps))
      with (observe_prices P (checkMarketOrder P p c) ps).
    destruct (IH (checkMarketOrder P p c)) as (Hhas & Hbid & Hcur).
    split; [|split].
    + rewrite Hhas. by rewrite checkMarketOrder_plain.
    + rewrite Hbid. by rewrite checkMarketOrder_plain.
    + intros _. destruct ps as [|p' ps']; [|by apply Hcur].
      simpl. by rewrite checkMarketOrder_plain.
Qed.

(** After a marker and then prices that are no markers, the checker
    remembers the marker. *)
Lemma observe_prices_last_marker c pre m post :
  is_marker P m →
  Forall (λ p, ¬ is_marker P p) post →
  observe_prices P c (pre ++ m :: post)
  = mkChecker (bool_decide (post = [])) (bool_decide (m = BID P)) true.
Proof.
  intros Hm Hpost. rewrite observe_prices_app. simpl.
  rewrite checkMarketOrder_marker by done.
  destruct (observe_prices_plain
              (mkChecker true (bool_decide (m = BID P)) true) post Hpost)
    as (Hhas & Hbid & Hcur).
  destruct post as [|p post'].
  - reflexivity.
  - rewrite (bool_decide_eq_false_2 (p :: post' = [])) by done.
    specialize (Hcur ltac:(done)).
    destruct (observe_prices P _ (p :: post')) as [cur bid has].
    simpl in *. by subst.
Qed.

(** Without any marker the checker stays as new. *)
Lemma observe_prices_clean ps :
  Forall (λ p, ¬ is_marker P p) ps →
  hasMarkerOrder (observe_prices P newChecker ps) = false.
Proof.
  intros Hall. by destruct (observe_prices_plain newChecker ps Hall) as (-> & _).
Qed.

(** A marker anywhere is remembered to the end. *)
Lemma observe_prices_has c ps :
  Exists (is_marker P) ps → hasMarkerOrder (observe_prices P c ps) = true.
Proof.
  intros Hex. revert c. induction Hex as [p ps Hp|p ps _ IH]; intros c; simpl.
  - apply observe_prices_sticky. by rewrite checkMarketOrder_marker.
  - apply IH.
Qed.

(** A list of prices with a marker splits at its last marker. *)
Lemma last_marker_split ps :
  Exists (is_marker P) ps →
  ∃ pre m post, ps = pre ++ m :: post ∧ is_marker P m
                ∧ Forall (λ p, ¬ is_marker P p) post.
Proof.
  induction ps as [|p ps IH]; intros Hex; [by apply Exists_nil in Hex|].
  destruct (decide (Exists (is_marker P) ps)) as [Hlater|Hnone].
  - destruct (IH Hlater) as (pre & m & post & -> & Hm & Hpost).
    by exists (p :: pre), m, post.
  - apply Exists_cons in Hex as [Hp|?]; [|done].
    exists [], p, ps. repeat split; [done|].
    by apply not_Exists_Forall; [apply _|].
Qed.
End Checker.

(** ** Division guard *)

Lemma Number_div_pos (numerator : Qc) (denominator : Z) :
  0 < denominator →
  Number_div numerator (Qc_of_Z denominator)
  = Some (numerator / Qc_of_Z denominator)%Qc.
Proof.
  intros Hpos. unfold Number_div. rewrite decide_False; [done|].
  rewrite <- Z2Qc_inj_0. intros Heq%Z2Qc_inj. lia.
Qed.

(** Claim C8.  While no market-order marker has been observed, the price of
    a VBBO row and the VWAP price are the quotient of numerator and
    denominator exactly when the denominator (cumulative, resp. consumed,
    quantity) is strictly positive, and 0 when it is 0: the quotient is
    never taken of a zero denominator, so the price is always a finite
    number. *)
Theorem weighted_price_division_guarded (P : MarketPrices)
    (observed : list Qc) (price numerator : Qc) (denominator : Z) :
  Forall (λ p, ¬ is_marker P p) observed →
  let c := observe_prices P newChecker observed in
  let quotient := (numerator / Qc_of_Z denominator)%Qc in
  (0 < denominator →
     Number_div numerator (Qc_of_Z denominator) = Some quotient
     ∧ calculateRowPrice P c price numerator denominator = Some quotient
     ∧ calculatePrice P c numerator denominator = Some quotient)
  ∧ (denominator = 0 →
     Number_div numerator (Qc_of_Z denominator) = None
     ∧ calculateRowPrice P c price numerator denominator = Some 0%Qc
     ∧ calculatePrice P c numerator denominator = Some 0%Qc)
  ∧ is_Some (calculateRowPrice P c price numerator denominator)
  ∧ is_Some (calculatePrice P c numerator denominator).
Proof.
  intros Hclean c quotient.
  assert (Hhas : hasMarkerOrder c = false) by by apply observe_prices_clean.
  unfold calculateRowPrice, calculatePrice. rewrite Hhas.
  split; [|split].
  - intros Hpos. rewrite (proj2 (Z.ltb_lt 0 denominator) Hpos).
    by rewrite Number_div_pos.
  - intros ->. by cbn.
  - destruct (0 <? denominator) eqn:Hlt; [|by split].
    apply Z.ltb_lt in Hlt. rewrite Number_div_pos by done. by split.
Qed.

(** ** The tie-break comparator *)

Lemma ltb_lex_lt (s t : string) : String.ltb s t = true ↔ lex_lt s t.
Proof.
  unfold String.ltb. revert t.
  induction s as [|c s IH]; intros [|d t]; simpl.
  - split; [done | inversion 1].
  - split; [intros _; constructor | done].
  - split; [done | inversion 1].
  - unfold Ascii.compare.
    destruct (N.compare_spec (Ascii.N_of_ascii c) (Ascii.N_of_ascii d))
      as [Heq|Hlt|Hgt].
    + assert (c = d) as ->.
      { rewrite <- (Ascii.ascii_N_embedding c), <- (Ascii.ascii_N_embedding d).
        by rewrite Heq. }
      rewrite IH. split; [by constructor|].
      inversion 1; subst; [lia | done].
    + split; [intros _; by constructor | done].
    + split; [done|]. inversion 1; subst; lia.
Qed.

(** The outcomes of [compareCommon]: the difference of the quantities when
    they differ; on equal quantities -1 or 1 for the preferred venue
    [XEQT] on the left or on the right; otherwise the boolean
    [lhs.venue < rhs.venue], as a number 1 when the left venue is
    lexicographically smaller and 0 when it is not. *)
Lemma compareCommon_tie_break (lhs rhs : Row) :
  (qty lhs ≠ qty rhs →
     compareCommon lhs rhs = CmpNumber (Qc_of_Z (qty rhs - qty lhs))
     ∧ ((ToNumber (compareCommon lhs rhs) < 0)%Qc ↔ qty rhs < qty lhs)
     ∧ ((0 < ToNumber (compareCommon lhs rhs))%Qc ↔ qty lhs < qty rhs))
  ∧ (qty lhs = qty rhs → venue lhs = "XEQT"%string →
     compareCommon lhs rhs = CmpNumber (-1)%Qc)
  ∧ (qty lhs = qty rhs → venue lhs ≠ "XEQT"%string →
     venue rhs = "XEQT"%string →
     compareCommon lhs rhs = CmpNumber 1%Qc)
  ∧ (qty lhs = qty rhs → venue lhs ≠ "XEQT"%string →
     venue rhs ≠ "XEQT"%string →
     (∃ b : bool, compareCommon lhs rhs = CmpBoolean b
                  ∧ (b = true ↔ lex_lt (venue lhs) (venue rhs)))
     ∧ (ToNumber (compareCommon lhs rhs) = 1%Qc
        ∨ ToNumber (compareCommon lhs rhs) = 0%Qc)
     ∧ ¬ (ToNumber (compareCommon lhs rhs) < 0)%Qc
     ∧ (ToNumber (compareCommon lhs rhs) = 1%Qc
        ↔ lex_lt (venue lhs) (venue rhs))).
Proof.
  unfold compareCommon. repeat split.
  - rewrite decide_False by lia. done.
  - rewrite decide_False by lia. simpl.
    rewrite <- Z2Qc_inj_0, <- Z2Qc_inj_lt. lia.
  - rewrite decide_False by lia. simpl.
    rewrite <- Z2Qc_inj_0, <- Z2Qc_inj_lt. lia.
  - rewrite decide_False by lia. simpl.
    rewrite <- Z2Qc_inj_0, <- Z2Qc_inj_lt. lia.
  - rewrite decide_False by lia. simpl.
    rewrite <- Z2Qc_inj_0, <- Z2Qc_inj_lt. lia.
  - intros Hq Hl. rewrite decide_True by lia. by rewrite decide_True.
  - intros Hq Hl Hr. rewrite decide_True by lia.
    rewrite decide_False by done. by rewrite decide_True.
  - rewrite decide_True by lia. rewrite !decide_False by done.
    eexists. split; [done|]. apply ltb_lex_lt.
  - rewrite decide_True by lia. rewrite !decide_False by done.
    destruct (String.ltb _ _); simpl; auto.
  - rewrite decide_True by lia. rewrite !decide_False by done.
    destruct (String.ltb _ _); simpl; by intros ?.
  - rewrite decide_True by lia. rewrite !decide_False by done.
    rewrite <- ltb_lex_lt. by destruct (String.ltb _ _).
  - rewrite decide_True by lia. rewrite !decide_False by done.
    rewrite <- ltb_lex_lt. by intros ->.
Qed.

(** Claim C3.  [compareCommon] follows the sign contract of the sort in its
    first two rules: the larger quantity on the left and, on equal
    quantities, the preferred venue on the left give a negative outcome,
    left first.  Its venue rule, which the comment in the code calls
    alphabetic, does not: for two levels of equal quantity and venues AAAA
    and BBBB it returns [true], the number 1, which places AAAA after
    BBBB, and [false], 0, in the other order.  On equal quantities and
    venues other than the preferred one the outcome is never negative, and
    it is positive exactly when the left venue is the lexicographically
    smaller one: the smaller venue is never placed first. *)
Theorem compareCommon_venue_rule_reversed :
  let a := mkRow (Qc_of_Z 10) 5 "AAAA" (Some 0%Qc) 0 ("AAAA"%string, 1) in
  let b := mkRow (Qc_of_Z 10) 5 "BBBB" (Some 0%Qc) 0 ("BBBB"%string, 1) in
  lex_lt (venue a) (venue b)
  ∧ compareCommon a b = CmpBoolean true
  ∧ sorts_after (compareCommon a b)
  ∧ compareCommon b a = CmpBoolean false
  ∧ ¬ sorts_before (compareCommon b a)
  ∧ ¬ venue_rule_alphabetic a b
  ∧ (∀ lhs rhs : Row,
       qty rhs < qty lhs → sorts_before (compareCommon lhs rhs))
  ∧ (∀ lhs rhs : Row,
       qty lhs = qty rhs → venue lhs = "XEQT"%string →
       sorts_before (compareCommon lhs rhs))
  ∧ (∀ lhs rhs : Row,
       qty lhs = qty rhs →
       venue lhs ≠ "XEQT"%string → venue rhs ≠ "XEQT"%string →
       ¬ sorts_before (compareCommon lhs rhs)
       ∧ (sorts_after (compareCommon lhs rhs)
          ↔ lex_lt (venue lhs) (venue rhs))).
Proof.
  intros a b.
  assert (Hlt : lex_lt (venue a) (venue b)) by (apply ltb_lex_lt; reflexivity).
  assert (Hab : compareCommon a b = CmpBoolean true) by reflexivity.
  assert (Hba : compareCommon b a = CmpBoolean false) by reflexivity.
  assert (Hafter : sorts_after (compareCommon a b)).
  { rewrite Hab. unfold sorts_after. by cbn. }
  split; [done|]. split; [done|]. split; [done|]. split; [done|].
  split; [|split; [|split; [|split]]].
  - rewrite Hba. unfold sorts_before. by cbn.
  - intros Hrule. unfold venue_rule_alphabetic in Hrule.
    specialize (Hrule eq_refl ltac:(done) ltac:(done) Hlt).
    rewrite Hab in Hrule. unfold sorts_before in Hrule. by cbn in Hrule.
  - intros lhs rhs Hq.
    destruct (compareCommon_tie_break lhs rhs) as (Hdiff & _).
    destruct Hdiff as (_ & Hneg & _); [lia|]. by apply Hneg.
  - intros lhs rhs Hq Hv.
    destruct (compareCommon_tie_break lhs rhs) as (_ & Hpref & _).
    rewrite Hpref by done. unfold sorts_before. by cbn.
  - intros lhs rhs Hq Hl Hr.
    destruct (compareCommon_tie_break lhs rhs) as (_ & _ & _ & Hvenue).
    destruct (Hvenue Hq Hl Hr) as (_ & Hnum & Hnonneg & Hone).
    split; [exact Hnonneg|]. unfold sorts_after. rewrite <- Hone.
    destruct Hnum as [-> | ->]; split; done.
Qed.

(** ** Storage *)

Lemma sideData_updateBook (b : BookData) (level side qty : Z) (price : Qc)
    (venue : string) :
  sideData side (updateBook level side qty price venue b)
  = _setSideData (sideData side b) (_createRow price qty venue level)
      (length (store b)).
Proof. unfold sideData, updateBook. by destruct (decide (side = BUY_SIDE)). Qed.

Lemma store_updateBook (b : BookData) (level side qty : Z) (price : Qc)
    (venue : string) :
  store (updateBook level side qty price venue b)
  = store b ++ [_createRow price qty venue level].
Proof. unfold updateBook. by destruct (decide (side = BUY_SIDE)). Qed.

(** An update with a non-zero quantity stores the new record under the
    composite key. *)
Lemma updateBook_stores (b : BookData) (level side qty : Z) (price : Qc)
    (venue : string) :
  qty ≠ 0 →
  let b' := updateBook level side qty price venue b in
  ∃ r, obj_get (_createKeyData venue level) (sideData side b') = Some r
       ∧ store b' !! r = Some (_createRow price qty venue level).
Proof.
  intros Hqty b'. exists (length (store b)). subst b'.
  rewrite sideData_updateBook, store_updateBook. split.
  - unfold _setSideData. simpl. rewrite decide_False by done.
    apply obj_get_set_eq.
  - by apply list_lookup_middle.
Qed.

(** Claim C7.  An update with quantity 0 removes the entry stored under the
    composite key, whatever the price; an update with positive quantity
    puts the new level under that key, also when its price is 0; and after
    a removal a positive quantity puts the level back.  Entries under other
    keys of the side are not affected. *)
Theorem updateBook_by_quantity (b : BookData) (level side : Z) (price : Qc)
    (venue : string) :
  let k := _createKeyData venue level in
  let stored_as b' row :=
    ∃ r, obj_get k (sideData side b') = Some r ∧ store b' !! r = Some row in
  obj_get k (sideData side (updateBook level side 0 price venue b)) = None
  ∧ (∀ qty, 0 < qty →
       stored_as (updateBook level side qty price venue b)
         (_createRow price qty venue level))
  ∧ (∀ qty, 0 < qty →
       stored_as (updateBook level side qty 0%Qc venue b)
         (_createRow 0%Qc qty venue level))
  ∧ (∀ qty price', 0 < qty →
       stored_as (updateBook level side qty price' venue
                    (updateBook level side 0 price venue b))
         (_createRow price' qty venue level))
  ∧ (∀ qty k', k' ≠ k →
       obj_get k' (sideData side (updateBook level side qty price venue b))
       = obj_get k' (sideData side b)).
Proof.
  intros k stored_as. subst stored_as. cbv beta.
  split; [|split; [|split; [|split]]].
  - rewrite sideData_updateBook. unfold _setSideData. simpl.
    apply obj_get_delete_eq.
  - intros qty Hqty. apply updateBook_stores. lia.
  - intros qty Hqty. apply updateBook_stores. lia.
  - intros qty price' Hqty. apply updateBook_stores. lia.
  - intros qty k' Hne. rewrite sideData_updateBook. unfold _setSideData. simpl.
    destruct (decide (qty = 0)).
    + by apply obj_get_delete_ne.
    + by apply obj_get_set_ne.
Qed.

(** ** The VWAP pass *)

Section VwapPass.
Variable P : MarketPrices.

(** The loop hands every row's price to the checker, whatever the
    quantities are. *)
Lemma vwap_loop_observes rows : ∀ index remaining used value level c,
  ∃ used' value' level',
    vwap_loop P index rows remaining used value level c
    = Vwap.mk used'
        (calculatePrice P (observe_prices P c (price <$> rows)) value' used')
        level'.
Proof.
  induction rows as [|row rows IH]; intros index remaining used value level c.
  - by exists used, value, level.
  - simpl. unfold Converter_toFloat, Converter_toInt.
    destruct ((0 <? remaining) && ((0 <? qty row) && true)); apply IH.
Qed.

Lemma calculatePrice_marker c value used :
  hasMarkerOrder c = true →
  calculatePrice P c value used
  = Some (if isBidMarkerOrder c then BID P else OFFER P).
Proof. unfold calculatePrice. by intros ->. Qed.

Lemma calculatePrice_clean c value used :
  hasMarkerOrder c = false →
  calculatePrice P c value used
  = if 0 <? used then Some (value / Qc_of_Z used)%Qc else Some 0%Qc.
Proof.
  unfold calculatePrice. intros ->.
  destruct (0 <? used) eqn:Hlt; [|done].
  apply Number_div_pos. by apply Z.ltb_lt.
Qed.

(** On levels without a marker the loop is the walk of the
    specification, continued from the figures accumulated so far. *)
Lemma vwap_loop_spec levels : ∀ index remaining used value level c,
  hasMarkerOrder c = false →
  Forall (λ l, ¬ is_marker P (price l)) levels →
  0 ≤ remaining →
  let fills := spec_fills remaining levels in
  let consumed := used + spec_consumed fills in
  vwap_loop P index levels remaining used value level c
  = Vwap.mk consumed
      (if 0 <? consumed
       then Some ((value + spec_notional fills levels) / Qc_of_Z consumed)%Qc
       else Some 0%Qc)
      (default level (spec_last_contributor index fills)).
Proof.
  induction levels as [|l levels IH];
    intros index remaining used value level c Hc Hall Hrem; simpl.
  - rewrite calculatePrice_clean by done.
    by rewrite Z.add_0_r, Qcplus_0_r.
  - apply Forall_cons_1 in Hall as [Hl Hall].
    unfold Converter_toFloat, Converter_toInt.
    assert (Hc' : hasMarkerOrder (checkMarketOrder P (price l) c) = false)
      by by rewrite checkMarketOrder_plain.
    destruct (0 <? qty l) eqn:Hq; destruct (0 <? remaining) eqn:Hr; simpl.
    + apply Z.ltb_lt in Hq, Hr.
      replace (if qty l <? remaining then qty l else remaining)
        with (Z.min remaining (qty l))
        by (destruct (qty l <? remaining) eqn:E;
            [apply Z.ltb_lt in E | apply Z.ltb_ge in E]; lia).
      rewrite IH by (done || lia).
      rewrite (proj2 (Z.ltb_lt 0 (Z.min remaining (qty l)))) by lia.
      rewrite Z.add_assoc, Qcplus_assoc.
      by destruct (spec_last_contributor _ _).
    + apply Z.ltb_ge in Hr. assert (remaining = 0) as -> by lia.
      rewrite Z.min_l by (apply Z.ltb_lt in Hq; lia).
      rewrite Z.sub_0_r, IH by done. simpl.
      rewrite Z2Qc_inj_0, Qcmult_0_l, Qcplus_0_l.
      by destruct (spec_last_contributor _ _).
    + rewrite Z.sub_0_r, IH by done. simpl.
      rewrite Z2Qc_inj_0, Qcmult_0_l, Qcplus_0_l.
      by destruct (spec_last_contributor _ _).
    + rewrite Z.sub_0_r, IH by done. simpl.
      rewrite Z2Qc_inj_0, Qcmult_0_l, Qcplus_0_l.
      by destruct (spec_last_contributor _ _).
Qed.
End VwapPass.

(** A request that is not positive takes nothing from marker-free levels. *)
Lemma vwap_nothing_requested (P : MarketPrices) (requested : Z)
    (levels : list Row) :
  requested ≤ 0 →
  Forall (λ l, ¬ is_marker P (price l)) levels →
  _calculateVwapForQty P requested levels = Vwap.mk 0 (Some 0%Qc) (-1).
Proof.
  intros Hreq Hall. unfold _calculateVwapForQty.
  assert (Hloop : ∀ index c, hasMarkerOrder c = false →
            vwap_loop P index levels requested 0 0%Qc (-1) c
            = Vwap.mk 0 (Some 0%Qc) (-1)).
  { induction Hall as [|l levels Hl _ IH]; intros index c Hc.
    - simpl. by rewrite calculatePrice_clean.
    - cbn [vwap_loop]. rewrite (proj2 (Z.ltb_ge 0 requested)) by lia.
      cbn [andb]. apply IH. unfold Converter_toFloat.
      by rewrite checkMarketOrder_plain. }
  by apply Hloop.
Qed.

(** Claim C2.  Whatever quantity is requested, the VWAP pass shows every
    row's price to the checker, also after the request is filled; and as
    soon as one row of the sequence carries a marker price the returned
    price is the BID or OFFER marker chosen by the sticky polarity, that of
    the last marker in the sequence, and not a computed price. *)
Theorem vwap_marker_forces_sentinel (P : MarketPrices) (qty : Z)
    (rows : list Row) :
  let c := observe_prices P newChecker (price <$> rows) in
  let result := _calculateVwapForQty P qty rows in
  (∃ value, Vwap.price result = calculatePrice P c value (Vwap.qty result))
  ∧ (Exists (λ row, is_marker P (price row)) rows →
     hasMarkerOrder c = true
     ∧ Vwap.price result = Some (if isBidMarkerOrder c then BID P else OFFER P)
     ∧ (∀ pre m post,
          rows = pre ++ m :: post →
          is_marker P (price m) →
          Forall (λ row, ¬ is_marker P (price row)) post →
          isBidMarkerOrder c = bool_decide (price m = BID P)
          ∧ Vwap.price result = Some (price m))).
Proof.
  intros c result.
  assert (Hobs : ∃ value,
            Vwap.price result = calculatePrice P c value (Vwap.qty result)).
  { subst result. unfold _calculateVwapForQty.
    destruct (vwap_loop_observes P rows 0 qty 0 0%Qc (-1) newChecker)
      as (used & value & level & ->).
    by exists value. }
  split; [done|]. intros Hex.
  assert (Hhas : hasMarkerOrder c = true).
  { apply observe_prices_has. by apply Exists_fmap. }
  assert (Hprice : Vwap.price result
                   = Some (if isBidMarkerOrder c then BID P else OFFER P)).
  { destruct Hobs as [value ->]. by apply calculatePrice_marker. }
  split; [done|]. split; [done|].
  intros pre m post -> Hm Hpost.
  assert (Hc : c = mkChecker (bool_decide ((price <$> post) = []))
                     (bool_decide (price m = BID P)) true).
  { subst c. rewrite fmap_app, fmap_cons.
    apply observe_prices_last_marker; [done|]. by apply Forall_fmap. }
  rewrite Hprice, Hc. simpl. split; [done|].
  destruct Hm as [Hb|Ho].
  - by rewrite bool_decide_eq_true_2, Hb.
  - rewrite Ho. by destruct (bool_decide (OFFER P = BID P)) eqn:E;
      [apply bool_decide_eq_true_1 in E; rewrite E|].
Qed.

(** Claim C4.  When no row carries a marker price, the VWAP pass takes
    from each level of positive quantity, best first, the smaller of what
    is still requested and what the level holds; it returns the quantity
    taken in all, the index of the last level that gave something (-1 when
    none did) and the notional taken divided by the quantity taken.  15
    requested of 10 at 100 then 10 at 99 gives quantity 15, price
    (100*10 + 99*5)/15 and level 1. *)
Theorem vwap_without_marker (P : MarketPrices) :
  (∀ (requested : Z) (levels : list Row),
     0 ≤ requested →
     Forall (λ l, ¬ is_marker P (price l)) levels →
     _calculateVwapForQty P requested levels = spec_vwap requested levels)
  ∧ (∀ l1 l2 : Row,
       price l1 = Qc_of_Z 100 → qty l1 = 10 →
       price l2 = Qc_of_Z 99 → qty l2 = 10 →
       ¬ is_marker P (Qc_of_Z 100) → ¬ is_marker P (Qc_of_Z 99) →
       _calculateVwapForQty P 15 [l1; l2]
       = Vwap.mk 15
           (Some ((Qc_of_Z 100 * Qc_of_Z 10 + Qc_of_Z 99 * Qc_of_Z 5)
                  / Qc_of_Z 15)%Qc)
           1).
Proof.
  assert (Hgen : ∀ (requested : Z) (levels : list Row),
     0 ≤ requested →
     Forall (λ l, ¬ is_marker P (price l)) levels →
     _calculateVwapForQty P requested levels = spec_vwap requested levels).
  { intros requested levels Hreq Hall. unfold _calculateVwapForQty, spec_vwap.
    rewrite vwap_loop_spec by done. simpl. by rewrite Qcplus_0_l. }
  split; [done|].
  intros l1 l2 Hp1 Hq1 Hp2 Hq2 Hm1 Hm2.
  rewrite Hgen; [|lia|].
  - unfold spec_vwap. simpl. rewrite Hp1, Hq1, Hp2, Hq2. simpl.
    do 2 f_equal; apply Qc_is_canon; by vm_compute.
  - repeat constructor; by rewrite ?Hp1, ?Hp2.
Qed.

(** ** The VBBO pass *)

Lemma rows_of_cons_Some (h : Store) (r : ref) (refs : list ref) (row : Row) :
  h !! r = Some row → rows_of h (r :: refs) = row :: rows_of h refs.
Proof. unfold rows_of. simpl. by intros ->. Qed.

Lemma rows_of_cons_None (h : Store) (r : ref) (refs : list ref) :
  h !! r = None → rows_of h (r :: refs) = rows_of h refs.
Proof. unfold rows_of. simpl. by intros ->. Qed.

(** The records read through a list of references only depend on the
    store at these references. *)
Lemma rows_of_ext (h h' : Store) (refs : list ref) :
  (∀ r, r ∈ refs → h' !! r = h !! r) → rows_of h' refs = rows_of h refs.
Proof.
  intros Hext. induction refs as [|r refs IH]; [done|].
  assert (IH' : rows_of h' refs = rows_of h refs).
  { apply IH. intros r' Hr'. apply Hext. by apply list_elem_of_further. }
  assert (Hr : h' !! r = h !! r) by apply Hext, list_elem_of_here.
  destruct (h !! r) as [row|] eqn:E.
  - rewrite (rows_of_cons_Some h r refs row), (rows_of_cons_Some h' r refs row);
      congruence.
  - rewrite (rows_of_cons_None h r refs), (rows_of_cons_None h' r refs);
      congruence.
Qed.

Lemma refs_valid_Forall (h : Store) (refs : list ref) :
  Forall (λ r, (r < length h)%nat) refs → refs_valid h refs.
Proof. intros Hall r Hr. rewrite list.Forall_forall in Hall. by apply Hall. Qed.

Lemma rows_of_length_valid (h : Store) (refs : list ref) :
  refs_valid h refs → length (rows_of h refs) = length refs.
Proof.
  unfold refs_valid. induction refs as [|r refs IH]; intros Hv; [done|].
  destruct (lookup_lt_is_Some_2 h r) as [row Hrow].
  { apply Hv, list_elem_of_here. }
  rewrite (rows_of_cons_Some h r refs row) by done. simpl. f_equal. apply IH.
  intros r' Hr'. by apply Hv, list_elem_of_further.
Qed.

Section VbboPass.
Variable P : MarketPrices.

Lemma vbbo_loop_cons_None r rest value cumQty c h :
  h !! r = None →
  vbbo_loop P (r :: rest) value cumQty c h = vbbo_loop P rest value cumQty c h.
Proof. intros Hr. cbn [vbbo_loop]. by rewrite Hr. Qed.

Lemma vbbo_loop_cons_Some r rest value cumQty c h row :
  h !! r = Some row →
  let c' := checkMarketOrder P (price row) c in
  let cumQty' := cumQty + qty row in
  let value' := (value + price row * Qc_of_Z (qty row))%Qc in
  vbbo_loop P (r :: rest) value cumQty c h
  = vbbo_loop P rest value' cumQty' c'
      (alter (set_vbbo (calculateRowPrice P c' (price row) value' cumQty')) r
         (alter (set_cumQty cumQty') r h)).
Proof. intros Hr. cbn [vbbo_loop]. by rewrite Hr. Qed.

(** The pass writes to the records of the array only. *)
Lemma vbbo_loop_frame sortedArray : ∀ value cumQty c h r,
  r ∉ sortedArray →
  vbbo_loop P sortedArray value cumQty c h !! r = h !! r.
Proof.
  induction sortedArray as [|a rest IH]; intros value cumQty c h r Hr; [done|].
  apply not_elem_of_cons in Hr as [Hne Hr].
  destruct (h !! a) as [row|] eqn:Ha.
  - rewrite (vbbo_loop_cons_Some a rest value cumQty c h row) by done.
    cbv zeta. rewrite IH by done. by rewrite !list_lookup_alter_ne.
  - rewrite vbbo_loop_cons_None by done. by apply IH.
Qed.

Lemma vbbo_loop_length sortedArray : ∀ value cumQty c h,
  length (vbbo_loop P sortedArray value cumQty c h) = length h.
Proof.
  induction sortedArray as [|a rest IH]; intros value cumQty c h; [done|].
  destruct (h !! a) as [row|] eqn:Ha.
  - rewrite (vbbo_loop_cons_Some a rest value cumQty c h row) by done.
    cbv zeta. by rewrite IH, !length_alter.
  - rewrite vbbo_loop_cons_None by done. by apply IH.
Qed.

(** The pass changes nothing but [cumQty] and [vbbo]. *)
Lemma vbbo_loop_fields sortedArray : ∀ value cumQty c h r row,
  h !! r = Some row →
  ∃ row', vbbo_loop P sortedArray value cumQty c h !! r = Some row'
          ∧ price row' = price row ∧ qty row' = qty row
          ∧ venue row' = venue row ∧ key row' = key row.
Proof.
  induction sortedArray as [|a rest IH]; intros value cumQty c h r row Hrow.
  - by exists row.
  - destruct (h !! a) as [arow|] eqn:Ha.
    2: { rewrite vbbo_loop_cons_None by done. by apply IH. }
    rewrite (vbbo_loop_cons_Some a rest value cumQty c h arow) by done.
    cbv zeta. destruct (decide (a = r)) as [->|Hne].
    + edestruct IH as (row' & -> & ? & ? & ? & ?).
      { rewrite list_lookup_alter_eq, list_lookup_alter_eq, Ha. done. }
      exists row'. simpl in *. by simplify_eq.
    + apply IH. by rewrite !list_lookup_alter_ne.
Qed.

(** What the pass leaves on the record of a row: the cumulative quantity
    up to and including the row, and the price computed by the checker
    that has seen the rows up to and including it. *)
Lemma vbbo_loop_lookup pre : ∀ r post value cumQty c h row,
  NoDup (pre ++ r :: post) →
  h !! r = Some row →
  let seen := rows_of h pre ++ [row] in
  let cumQty' := running_qty cumQty seen in
  let value' := running_value value seen in
  let c' := observe_prices P c (price <$> seen) in
  vbbo_loop P (pre ++ r :: post) value cumQty c h !! r
  = Some (set_vbbo (calculateRowPrice P c' (price row) value' cumQty')
            (set_cumQty cumQty' row)).
Proof.
  induction pre as [|a pre IH]; intros r post value cumQty c h row Hnd Hrow.
  - cbn [app] in *. apply list.NoDup_cons in Hnd as [Hr _].
    rewrite (vbbo_loop_cons_Some r post value cumQty c h row) by done.
    cbv zeta. rewrite vbbo_loop_frame by done.
    by rewrite !list_lookup_alter_eq, Hrow.
  - cbn [app] in *. apply list.NoDup_cons in Hnd as [Ha Hnd].
    assert (a ≠ r) as Hne.
    { intros ->. apply Ha. apply elem_of_app. right. apply list_elem_of_here. }
    assert (a ∉ pre) as Hpre.
    { intros Hin. apply Ha. apply elem_of_app. by left. }
    destruct (h !! a) as [arow|] eqn:Harow.
    + rewrite (rows_of_cons_Some h a pre arow) by done.
      rewrite (vbbo_loop_cons_Some a _ value cumQty c h arow) by done.
      cbv zeta.
      set (h1 := alter _ a (alter _ a h)).
      assert (Hh1 : ∀ x, x ≠ a → h1 !! x = h !! x).
      { intros x Hx. subst h1. by rewrite !list_lookup_alter_ne. }
      rewrite (IH r post _ _ _ h1 row); [|done|by rewrite Hh1].
      rewrite (rows_of_ext h h1 pre); [done|].
      intros x Hx. apply Hh1. by intros ->.
    + rewrite (rows_of_cons_None h a pre) by done.
      rewrite vbbo_loop_cons_None by done. by apply IH.
Qed.
End VbboPass.

Lemma rows_of_app (h : Store) (refs1 refs2 : list ref) :
  rows_of h (refs1 ++ refs2) = rows_of h refs1 ++ rows_of h refs2.
Proof. apply omap_app. Qed.

Lemma calculateRowPrice_marker_row (P : MarketPrices) c price value cumQty :
  hasMarkerOrder c = true → isMarkerOrder c = true →
  calculateRowPrice P c price value cumQty = Some price.
Proof. unfold calculateRowPrice. by intros -> ->. Qed.

Lemma calculateRowPrice_after_marker (P : MarketPrices) c price value cumQty :
  hasMarkerOrder c = true → isMarkerOrder c = false →
  calculateRowPrice P c price value cumQty
  = Some (if isBidMarkerOrder c then UNKNOWN_BID P else UNKNOWN_OFFER P).
Proof. unfold calculateRowPrice. by intros -> ->. Qed.

(** Claim C1, as amended.  In one VBBO pass over an array without
    repetition, a row whose price is a marker gets its own price as vbbo;
    a row whose price is no marker and that comes after a marker gets the
    UNKNOWN price of the nearest marker before it: UNKNOWN-BID when that
    marker is the BID marker, UNKNOWN-OFFER when it is the OFFER marker.
    The checker never returns to the clean state. *)
Theorem vbbo_after_marker (P : MarketPrices) (side : list (Key * ref))
    (h : Store) (sortedArray : list ref) :
  NoDup sortedArray →
  let h' := _calculateVBBO P side sortedArray h in
  ∀ (pre post : list ref) (r : ref) (row : Row),
    sortedArray = pre ++ r :: post →
    h !! r = Some row →
    (is_marker P (price row) →
       vbbo <$> h' !! r = Some (Some (price row)))
    ∧ (¬ is_marker P (price row) →
       ∀ (pre1 mid : list ref) (m : ref) (mrow : Row),
         pre = pre1 ++ m :: mid →
         h !! m = Some mrow →
         is_marker P (price mrow) →
         Forall (λ x, ¬ is_marker P (price x)) (rows_of h mid) →
         hasMarkerOrder
            (observe_prices P newChecker (price <$> rows_of h pre ++ [row]))
          = true
         ∧ vbbo <$> h' !! r
           = Some (Some (if decide (price mrow = BID P)
                         then UNKNOWN_BID P else UNKNOWN_OFFER P))).
Proof.
  intros Hnd h' pre post r row -> Hrow. subst h'. unfold _calculateVBBO.
  rewrite (vbbo_loop_lookup P pre r post 0%Qc 0 newChecker h row) by done.
  cbv zeta. simpl. rewrite fmap_app. simpl. split.
  - intros Hm.
    rewrite (observe_prices_last_marker P _ _ (price row) []) by done.
    by rewrite calculateRowPrice_marker_row.
  - intros Hplain pre1 mid m mrow -> Hmrow Hm Hmid.
    rewrite rows_of_app, (rows_of_cons_Some h m mid mrow) by done.
    rewrite fmap_app, fmap_cons, <- app_assoc. simpl.
    rewrite (observe_prices_last_marker P _ _ (price mrow)
               ((price <$> rows_of h mid) ++ [price row])); [|done|].
    + split; [done|]. rewrite calculateRowPrice_after_marker; simpl; [|done|].
      * by destruct (decide (price mrow = BID P));
          [rewrite bool_decide_eq_true_2|rewrite bool_decide_eq_false_2].
      * apply bool_decide_eq_false_2. by destruct (price <$> rows_of h mid).
    + apply Forall_app. split; [by apply Forall_fmap|].
      by apply Forall_singleton.
Qed.

(** ** Aggregation *)

Lemma set_qty_same (row : Row) : set_qty (parseInt (qty row)) row = row.
Proof. by destruct row. Qed.

Lemma merge_level_alters (v : Row) (s : ref) (h : Store) :
  alter (λ b, if decide (venue b = ""%string) then set_key (key v) b else b) s
    (alter (λ b, set_cumQty (cumQty b + cumQty v) b) s
       (alter (λ b, set_qty (qty b + parseInt (qty v)) b) s h))
  = alter (λ b, merge_level b v) s h.
Proof. by rewrite !list_alter_alter_eq. Qed.

Lemma aggregate_byPrice_cons_None k value rest bpm (h : Store) :
  h !! value = None →
  aggregate_byPrice ((k, value) :: rest) bpm h = aggregate_byPrice rest bpm h.
Proof. intros Hv. cbn [aggregate_byPrice]. by rewrite Hv. Qed.

Lemma aggregate_byPrice_cons_seed k value rest bpm (h : Store) v :
  h !! value = Some v →
  obj_get (roundedPrice v) bpm = None →
  aggregate_byPrice ((k, value) :: rest) bpm h
  = aggregate_byPrice rest (obj_set (roundedPrice v) value bpm) h.
Proof.
  intros Hv Hget. cbn [aggregate_byPrice]. rewrite Hv.
  unfold roundedPrice in Hget. rewrite Hget. cbv zeta.
  by rewrite (list_alter_id _ h value set_qty_same).
Qed.

Lemma aggregate_byPrice_cons_merge k value rest bpm (h : Store) v s :
  h !! value = Some v →
  obj_get (roundedPrice v) bpm = Some s →
  aggregate_byPrice ((k, value) :: rest) bpm h
  = aggregate_byPrice rest bpm (alter (λ b, merge_level b v) s h).
Proof.
  intros Hv Hget. cbn [aggregate_byPrice]. rewrite Hv.
  unfold roundedPrice in Hget. rewrite Hget. cbv zeta.
  by rewrite merge_level_alters.
Qed.

Lemma aggregate_byPrice_app side1 : ∀ side2 bpm (h : Store),
  aggregate_byPrice (side1 ++ side2) bpm h
  = aggregate_byPrice side2 (aggregate_byPrice side1 bpm h).1
      (aggregate_byPrice side1 bpm h).2.
Proof.
  induction side1 as [|[k value] side1 IH]; intros side2 bpm h; [done|].
  cbn [app]. destruct (h !! value) as [v|] eqn:Hv.
  - destruct (obj_get (roundedPrice v) bpm) as [s|] eqn:Hget.
    + by rewrite !(aggregate_byPrice_cons_merge k value _ bpm h v s).
    + by rewrite !(aggregate_byPrice_cons_seed k value _ bpm h v).
  - by rewrite !aggregate_byPrice_cons_None.
Qed.

Lemma merge_level_price b v : price (merge_level b v) = price b.
Proof. unfold merge_level. simpl. by destruct (decide _). Qed.

Lemma merge_level_venue b v : venue (merge_level b v) = venue b.
Proof. unfold merge_level. simpl. by destruct (decide _). Qed.

Lemma merge_level_qty b v : qty (merge_level b v) = qty b + qty v.
Proof. unfold merge_level. simpl. by destruct (decide _). Qed.

Lemma merge_level_key b v :
  key (merge_level b v) = if decide (venue b = ""%string) then key v else key b.
Proof. unfold merge_level. simpl. by destruct (decide _). Qed.

Lemma merge_level_rounded b v : roundedPrice (merge_level b v) = roundedPrice b.
Proof. unfold roundedPrice. by rewrite merge_level_price. Qed.

Lemma last_cons_any {A : Type} (x : A) (l : list A) (d d' : A) :
  List.last (x :: l) d = List.last (x :: l) d'.
Proof.
  revert x. induction l as [|y l IH]; intros x; [done|].
  change (List.last (y :: l) d = List.last (y :: l) d'). apply IH.
Qed.

(** The fields of a seed after a run of levels has been merged into it. *)
Lemma merged_fields (members : list Row) : ∀ seed : Row,
  let merged := foldl merge_level seed members in
  price merged = price seed
  ∧ venue merged = venue seed
  ∧ qty merged = running_qty (qty seed) members
  ∧ key merged = (if decide (venue seed = ""%string)
                  then List.last (key <$> members) (key seed)
                  else key seed).
Proof.
  induction members as [|v members IH]; intros seed.
  - simpl. repeat split. by destruct (decide _).
  - cbn [foldl]. destruct (IH (merge_level seed v)) as (Hp & Hv & Hq & Hk).
    cbv zeta in *. rewrite Hp, Hv, Hq, Hk.
    rewrite merge_level_price, merge_level_venue, merge_level_qty,
      merge_level_key.
    repeat split. destruct (decide (venue seed = ""%string)); [|done].
    destruct members as [|m members]; [done|].
    rewrite !fmap_cons.
    change (List.last (key v :: key m :: (key <$> members)) (key seed))
      with (List.last (key m :: (key <$> members)) (key seed)).
    apply last_cons_any.
Qed.

Lemma obj_values_cons {K V : Type} (k : K) (v : V) (o : list (K * V)) :
  obj_values ((k, v) :: o) = v :: obj_values o.
Proof. done. Qed.

Lemma obj_values_app {K V : Type} (o1 o2 : list (K * V)) :
  obj_values (o1 ++ o2) = obj_values o1 ++ obj_values o2.
Proof. apply fmap_app. Qed.

Lemma obj_get_Some_value {K V : Type} `{EqDecision K} (o : list (K * V)) k v :
  obj_get k o = Some v → v ∈ obj_values o.
Proof.
  intros Hget%obj_get_Some_elem. unfold obj_values.
  apply list_elem_of_fmap. by exists (k, v).
Qed.

(** A price that is filed stays filed with the same record. *)
Lemma aggregate_byPrice_keeps side : ∀ bpm (h : Store) rp s,
  obj_get rp bpm = Some s →
  obj_get rp (aggregate_byPrice side bpm h).1 = Some s.
Proof.
  induction side as [|[k value] side IH]; intros bpm h rp s Hget; [done|].
  destruct (h !! value) as [v|] eqn:Hv.
  - destruct (obj_get (roundedPrice v) bpm) as [s'|] eqn:Hget'.
    + rewrite (aggregate_byPrice_cons_merge k value _ bpm h v s') by done.
      by apply IH.
    + rewrite (aggregate_byPrice_cons_seed k value _ bpm h v) by done.
      apply IH. rewrite obj_get_set_ne; [done|]. congruence.
  - rewrite aggregate_byPrice_cons_None by done. by apply IH.
Qed.

(** The records filed are records of the mapping. *)
Lemma aggregate_byPrice_values side : ∀ bpm (h : Store) s,
  s ∈ obj_values (aggregate_byPrice side bpm h).1 →
  s ∈ obj_values bpm ∨ s ∈ obj_values side.
Proof.
  induction side as [|[k value] side IH]; intros bpm h s Hs; [by left|].
  rewrite obj_values_cons, elem_of_cons.
  destruct (h !! value) as [v|] eqn:Hv.
  - destruct (obj_get (roundedPrice v) bpm) as [s'|] eqn:Hget'.
    + rewrite (aggregate_byPrice_cons_merge k value _ bpm h v s') in Hs by done.
      apply IH in Hs. tauto.
    + rewrite (aggregate_byPrice_cons_seed k value _ bpm h v) in Hs by done.
      apply IH in Hs as [Hs|Hs]; [|tauto].
      apply obj_values_set in Hs. tauto.
  - rewrite aggregate_byPrice_cons_None in Hs by done. apply IH in Hs. tauto.
Qed.

(** The first loop writes to filed records only. *)
Lemma aggregate_byPrice_frame side : ∀ bpm (h : Store) x,
  x ∉ obj_values (aggregate_byPrice side bpm h).1 →
  (aggregate_byPrice side bpm h).2 !! x = h !! x.
Proof.
  induction side as [|[k value] side IH]; intros bpm h x Hx; [done|].
  destruct (h !! value) as [v|] eqn:Hv.
  - destruct (obj_get (roundedPrice v) bpm) as [s'|] eqn:Hget'.
    + rewrite (aggregate_byPrice_cons_merge k value _ bpm h v s') in * by done.
      rewrite IH by done. apply list_lookup_alter_ne. intros ->. apply Hx.
      eapply obj_get_Some_value. by apply aggregate_byPrice_keeps.
    + rewrite (aggregate_byPrice_cons_seed k value _ bpm h v) in * by done.
      by apply IH.
  - rewrite aggregate_byPrice_cons_None in * by done. by apply IH.
Qed.

Lemma aggregate_byPrice_length side : ∀ bpm (h : Store),
  length (aggregate_byPrice side bpm h).2 = length h.
Proof.
  induction side as [|[k value] side IH]; intros bpm h; [done|].
  destruct (h !! value) as [v|] eqn:Hv.
  - destruct (obj_get (roundedPrice v) bpm) as [s'|] eqn:Hget'.
    + rewrite (aggregate_byPrice_cons_merge k value _ bpm h v s') by done.
      by rewrite IH, length_alter.
    + rewrite (aggregate_byPrice_cons_seed k value _ bpm h v) by done.
      by apply IH.
  - rewrite aggregate_byPrice_cons_None by done. by apply IH.
Qed.

(** The first loop never changes a price. *)
Lemma aggregate_byPrice_rounded side : ∀ bpm (h : Store) x,
  roundedPrice <$> (aggregate_byPrice side bpm h).2 !! x
  = roundedPrice <$> h !! x.
Proof.
  induction side as [|[k value] side IH]; intros bpm h x; [done|].
  destruct (h !! value) as [v|] eqn:Hv.
  - destruct (obj_get (roundedPrice v) bpm) as [s'|] eqn:Hget'.
    + rewrite (aggregate_byPrice_cons_merge k value _ bpm h v s') by done.
      rewrite IH, list_lookup_alter. destruct (decide (s' = x)) as [->|]; [|done].
      destruct (h !! x); [|done]. simpl. by rewrite merge_level_rounded.
    + rewrite (aggregate_byPrice_cons_seed k value _ bpm h v) by done.
      by apply IH.
  - rewrite aggregate_byPrice_cons_None by done. by apply IH.
Qed.

(** A price that no entry rounds to is not filed. *)
Lemma aggregate_byPrice_none side : ∀ bpm (h : Store) rp,
  obj_get rp bpm = None →
  (∀ x, x ∈ obj_values side → roundedPrice <$> h !! x ≠ Some rp) →
  obj_get rp (aggregate_byPrice side bpm h).1 = None.
Proof.
  induction side as [|[k value] side IH]; intros bpm h rp Hget Hno; [done|].
  assert (Hrest : ∀ x, x ∈ obj_values side → roundedPrice <$> h !! x ≠ Some rp).
  { intros x Hx. apply Hno. rewrite obj_values_cons. by apply list_elem_of_further. }
  destruct (h !! value) as [v|] eqn:Hv.
  - destruct (obj_get (roundedPrice v) bpm) as [s'|] eqn:Hget'.
    + rewrite (aggregate_byPrice_cons_merge k value _ bpm h v s') by done.
      apply IH; [done|]. intros x Hx.
      rewrite list_lookup_alter. destruct (decide (s' = x)) as [->|]; [|by apply Hrest].
      specialize (Hrest x Hx). destruct (h !! x); [|done]. simpl in *.
      by rewrite merge_level_rounded.
    + rewrite (aggregate_byPrice_cons_seed k value _ bpm h v) by done.
      apply IH; [|done]. rewrite obj_get_set_ne; [done|].
      intros Heq. apply (Hno value); [apply list_elem_of_here|].
      by rewrite Hv, <- Heq.
  - rewrite aggregate_byPrice_cons_None by done. by apply IH.
Qed.

Lemma group_of_cons_in rp row rows :
  roundedPrice row = rp → group_of rp (row :: rows) = row :: group_of rp rows.
Proof. intros Hrp. unfold group_of. by rewrite filter_cons_True. Qed.

Lemma group_of_cons_out rp row rows :
  roundedPrice row ≠ rp → group_of rp (row :: rows) = group_of rp rows.
Proof. intros Hrp. unfold group_of. by rewrite filter_cons_False. Qed.

(** The record that seeds a price group ends the first loop with every
    later level of the group merged into it. *)
Lemma aggregate_byPrice_seed todo : ∀ bpm (h : Store) r row,
  NoDup (obj_values todo) →
  h !! r = Some row →
  obj_get (roundedPrice row) bpm = Some r →
  byPrice_ok h bpm todo →
  (aggregate_byPrice todo bpm h).2 !! r
  = Some (foldl merge_level row
            (group_of (roundedPrice row) (rows_of h (obj_values todo)))).
Proof.
  induction todo as [|[k value] todo IH]; intros bpm h r row Hnd Hrow Hget Hok;
    [done|].
  rewrite obj_values_cons in Hnd. apply list.NoDup_cons in Hnd as [Hvalue Hnd].
  assert (Hok' : byPrice_ok h bpm todo).
  { intros rp s Hs. destruct (Hok rp s Hs) as [Hnot Hsrow]. split; [|done].
    intros Hin. apply Hnot. rewrite obj_values_cons. by apply list_elem_of_further. }
  rewrite obj_values_cons.
  destruct (h !! value) as [v|] eqn:Hv.
  2: { rewrite aggregate_byPrice_cons_None, rows_of_cons_None by done.
       by apply IH. }
  rewrite (rows_of_cons_Some h value _ v) by done.
  destruct (obj_get (roundedPrice v) bpm) as [s|] eqn:Hgetv.
  - rewrite (aggregate_byPrice_cons_merge k value _ bpm h v s) by done.
    destruct (Hok _ _ Hgetv) as [Hs (srow & Hsrow & Hsrp)].
    rewrite obj_values_cons, not_elem_of_cons in Hs. destruct Hs as [Hsv Hs].
    set (h1 := alter (λ b, merge_level b v) s h).
    assert (Hrows : rows_of h1 (obj_values todo) = rows_of h (obj_values todo)).
    { apply rows_of_ext. intros x Hx. subst h1.
      apply list_lookup_alter_ne. by intros ->. }
    assert (Hok1 : byPrice_ok h1 bpm todo).
    { intros rp s' Hs'. destruct (Hok' rp s' Hs') as [Hnot (srow' & Hsrow' & Hrp')].
      split; [done|]. subst h1. rewrite list_lookup_alter.
      destruct (decide (s = s')) as [->|]; [|by exists srow'].
      rewrite Hsrow'. eexists. split; [done|]. by rewrite merge_level_rounded. }
    destruct (decide (s = r)) as [->|Hne].
    + assert (srow = row) as -> by congruence.
      rewrite group_of_cons_in by done. cbn [foldl].
      rewrite <- Hrows, <- (merge_level_rounded row v).
      apply IH; [done| |by rewrite merge_level_rounded|done].
      subst h1. by rewrite list_lookup_alter_eq, Hrow.
    + rewrite group_of_cons_out by congruence.
      rewrite <- Hrows. apply IH; [done| |done|done].
      subst h1. by rewrite list_lookup_alter_ne.
  - rewrite (aggregate_byPrice_cons_seed k value _ bpm h v) by done.
    rewrite group_of_cons_out by congruence.
    apply IH; [done|done| |].
    + rewrite obj_get_set_ne; [done|congruence].
    + intros rp s Hs. destruct (decide (roundedPrice v = rp)) as [<-|Hrp].
      * rewrite obj_get_set_eq in Hs. injection Hs as <-.
        split; [done|]. by exists v.
      * rewrite obj_get_set_ne in Hs by done. by apply Hok'.
Qed.

(** The second loop clears the venue of the filed records and changes
    nothing else. *)
Lemma aggregate_transpose_lookup bpm : ∀ result (h : Store) x,
  (aggregate_transpose bpm result h).2 !! x
  = (if decide (x ∈ obj_values bpm) then set_venue ""%string <$> h !! x
     else h !! x).
Proof.
  induction bpm as [|[rp s] bpm IH]; intros result h x.
  - cbn [aggregate_transpose snd].
    destruct (decide (x ∈ obj_values (@nil (Fixed4 * nat)))) as [Hin|]; [|done].
    by apply elem_of_nil in Hin.
  - cbn [aggregate_transpose].
    assert (Hrest : ∀ result',
      (aggregate_transpose bpm result' (alter (set_venue ""%string) s h)).2 !! x
      = (if decide (x ∈ obj_values ((rp, s) :: bpm))
         then set_venue ""%string <$> h !! x else h !! x)).
    { intros result'. rewrite IH, obj_values_cons, list_lookup_alter.
      destruct (decide (s = x)) as [->|Hne].
      - rewrite (decide_True (P := x ∈ x :: obj_values bpm))
          by apply list_elem_of_here.
        destruct (decide (x ∈ obj_values bpm)); [|done].
        by destruct (h !! x).
      - destruct (decide (x ∈ obj_values bpm)) as [Hin|Hnin].
        + by rewrite decide_True by by apply list_elem_of_further.
        + rewrite decide_False; [done|]. rewrite not_elem_of_cons. by split. }
    destruct (alter (set_venue ""%string) s h !! s); apply Hrest.
Qed.

Lemma aggregate_transpose_length bpm : ∀ result (h : Store),
  length (aggregate_transpose bpm result h).2 = length h.
Proof.
  induction bpm as [|[rp s] bpm IH]; intros result h; [done|].
  cbn [aggregate_transpose].
  destruct (alter (set_venue ""%string) s h !! s); by rewrite IH, length_alter.
Qed.

(** The result of the second loop refers to filed records only. *)
Lemma aggregate_transpose_values bpm : ∀ result (h : Store) r,
  r ∈ obj_values (aggregate_transpose bpm result h).1 →
  r ∈ obj_values result ∨ r ∈ obj_values bpm.
Proof.
  induction bpm as [|[rp s] bpm IH]; intros result h r Hr; [by left|].
  cbn [aggregate_transpose] in Hr. rewrite obj_values_cons, elem_of_cons.
  destruct (alter (set_venue ""%string) s h !! s).
  - apply IH in Hr as [Hr|Hr]; [|tauto].
    apply obj_values_set in Hr. tauto.
  - apply IH in Hr. tauto.
Qed.

Lemma _aggregate_unfold side (h : Store) :
  _aggregate side h
  = aggregate_transpose (aggregate_byPrice side [] h).1 []
      (aggregate_byPrice side [] h).2.
Proof. unfold _aggregate. by destruct (aggregate_byPrice side [] h). Qed.

Lemma byPrice_ok_weaken (h : Store) bpm e todo :
  byPrice_ok h bpm (e :: todo) → byPrice_ok h bpm todo.
Proof.
  intros Hok rp s Hs. destruct (Hok rp s Hs) as [Hnot Hsrow]. split; [|done].
  intros Hin. apply Hnot. destruct e. rewrite obj_values_cons.
  by apply list_elem_of_further.
Qed.

(** The first loop keeps [byPriceMap] well formed. *)
Lemma aggregate_byPrice_ok side1 : ∀ side2 bpm (h : Store),
  NoDup (obj_values (side1 ++ side2)) →
  byPrice_ok h bpm (side1 ++ side2) →
  byPrice_ok (aggregate_byPrice side1 bpm h).2
    (aggregate_byPrice side1 bpm h).1 side2.
Proof.
  induction side1 as [|[k value] side1 IH]; intros side2 bpm h Hnd Hok; [done|].
  cbn [app] in *. rewrite obj_values_cons in Hnd.
  apply list.NoDup_cons in Hnd as [Hvalue Hnd].
  pose proof (byPrice_ok_weaken _ _ _ _ Hok) as Hok'.
  destruct (h !! value) as [v|] eqn:Hv.
  2: { rewrite aggregate_byPrice_cons_None by done. by apply IH. }
  destruct (obj_get (roundedPrice v) bpm) as [s|] eqn:Hgetv.
  - rewrite (aggregate_byPrice_cons_merge k value _ bpm h v s) by done.
    apply IH; [done|]. intros rp s' Hs'.
    destruct (Hok' rp s' Hs') as [Hnot (srow' & Hsrow' & Hrp')].
    split; [done|]. rewrite list_lookup_alter.
    destruct (decide (s = s')) as [->|]; [|by exists srow'].
    rewrite Hsrow'. eexists. split; [done|]. by rewrite merge_level_rounded.
  - rewrite (aggregate_byPrice_cons_seed k value _ bpm h v) by done.
    apply IH; [done|]. intros rp s Hs.
    destruct (decide (roundedPrice v = rp)) as [<-|Hrp].
    + rewrite obj_get_set_eq in Hs. injection Hs as <-.
      split; [done|]. by exists v.
    + rewrite obj_get_set_ne in Hs by done. by apply Hok'.
Qed.

(** After [_aggregate], the record that seeds a price group holds the
    merge of the later levels of the group, with the venue cleared. *)
Lemma _aggregate_seed before after k r (h : Store) row :
  NoDup (obj_values (before ++ (k, r) :: after)) →
  h !! r = Some row →
  (∀ x, x ∈ obj_values before →
        roundedPrice <$> h !! x ≠ Some (roundedPrice row)) →
  (_aggregate (before ++ (k, r) :: after) h).2 !! r
  = Some (set_venue ""%string
            (foldl merge_level row
               (group_of (roundedPrice row) (rows_of h (obj_values after))))).
Proof.
  intros Hnd Hrow Hfirst.
  rewrite _aggregate_unfold, aggregate_byPrice_app.
  pose proof (aggregate_byPrice_ok before ((k, r) :: after) [] h Hnd) as Hok0.
  pose proof (aggregate_byPrice_none before [] h (roundedPrice row) eq_refl Hfirst)
    as Hnone.
  assert (Hframe : ∀ x, x ∈ r :: obj_values after →
            (aggregate_byPrice before [] h).2 !! x = h !! x).
  { intros x Hx. apply aggregate_byPrice_frame. intros Hin.
    apply aggregate_byPrice_values in Hin as [Hin|Hin];
      [by apply elem_of_nil in Hin|].
    rewrite obj_values_app, obj_values_cons in Hnd.
    apply list.NoDup_app in Hnd as (_ & Hdisj & _). by apply (Hdisj x). }
  destruct (aggregate_byPrice before [] h) as [bpm0 h0]. cbn [fst snd] in *.
  specialize (Hok0 ltac:(done)).
  assert (Hrow0 : h0 !! r = Some row).
  { rewrite Hframe; [done|]. apply list_elem_of_here. }
  rewrite obj_values_app, obj_values_cons in Hnd.
  apply list.NoDup_app in Hnd as (_ & _ & Hnd).
  apply list.NoDup_cons in Hnd as [Hr Hnd].
  rewrite (aggregate_byPrice_cons_seed k r after bpm0 h0 row) by done.
  assert (Hseed : (aggregate_byPrice after
                     (obj_set (roundedPrice row) r bpm0) h0).2 !! r
                  = Some (foldl merge_level row
                            (group_of (roundedPrice row)
                               (rows_of h (obj_values after))))).
  { rewrite <- (rows_of_ext h h0 (obj_values after)).
    - apply aggregate_byPrice_seed; [done|done|apply obj_get_set_eq|].
      intros rp s Hs. destruct (decide (roundedPrice row = rp)) as [<-|Hrp].
      + rewrite obj_get_set_eq in Hs. injection Hs as <-.
        split; [done|]. by exists row.
      + rewrite obj_get_set_ne in Hs by done.
        destruct (Hok0 rp s Hs) as [Hnot Hsrow]. split; [|done].
        intros Hin. apply Hnot. rewrite obj_values_cons.
        by apply list_elem_of_further.
    - intros x Hx. apply Hframe. by apply list_elem_of_further. }
  rewrite aggregate_transpose_lookup, Hseed. rewrite decide_True; [done|].
  eapply obj_get_Some_value. apply aggregate_byPrice_keeps, obj_get_set_eq.
Qed.

(** [_aggregate] writes to records of the mapping only, keeps the size of
    the store, and returns a mapping of records of the given one. *)
Lemma _aggregate_values side (h : Store) r :
  r ∈ obj_values (_aggregate side h).1 → r ∈ obj_values side.
Proof.
  rewrite _aggregate_unfold. intros Hr.
  apply aggregate_transpose_values in Hr as [Hr|Hr];
    [by apply elem_of_nil in Hr|].
  apply aggregate_byPrice_values in Hr as [Hr|Hr]; [|done].
  by apply elem_of_nil in Hr.
Qed.

Lemma _aggregate_frame side (h : Store) x :
  x ∉ obj_values side → (_aggregate side h).2 !! x = h !! x.
Proof.
  intros Hx. rewrite _aggregate_unfold, aggregate_transpose_lookup.
  assert (Hnot : x ∉ obj_values (aggregate_byPrice side [] h).1).
  { intros Hin. apply aggregate_byPrice_values in Hin as [Hin|Hin]; [|done].
    by apply elem_of_nil in Hin. }
  rewrite decide_False by done. by apply aggregate_byPrice_frame.
Qed.

Lemma _aggregate_length side (h : Store) :
  length (_aggregate side h).2 = length h.
Proof.
  by rewrite _aggregate_unfold, aggregate_transpose_length,
    aggregate_byPrice_length.
Qed.

(** ** The redisplay pass *)

Section Redisplay.
Variable P : MarketPrices.
Variable sort : ∀ A : Type, (A → A → CompareResult) → list A → list A.

(** The pass, step by step. *)
Lemma redisplay_unfold (consolidated : bool) (b : BookData) :
  let buy := if consolidated then _aggregate (buySide b) (store b)
             else (buySide b, store b) in
  let sell := if consolidated then _aggregate (sellSide b) buy.2
              else (sellSide b, buy.2) in
  let sortedBuy :=
    truncate consolidated (_sortValues sort buy.2 buy.1 _compareBuy) in
  let sortedSell :=
    truncate consolidated (_sortValues sort sell.2 sell.1 _compareSell) in
  (redisplay P sort consolidated b).1
  = mkBook
      (_calculateVBBO P (sellSide b) sortedSell
         (_calculateVBBO P (buySide b) sortedBuy sell.2))
      (buySide b) (sellSide b) sortedBuy sortedSell.
Proof.
  unfold redisplay. destruct consolidated; cbv zeta.
  - destruct (_aggregate (buySide b) (store b)) as [buy h1]. cbn [fst snd].
    by destruct (_aggregate (sellSide b) h1) as [sell h2].
  - done.
Qed.

(** What the pass sends: the row count, the rows of the buy side, the rows
    of the sell side, the notification. *)
Lemma redisplay_events (consolidated : bool) (b : BookData) :
  let b' := (redisplay P sort consolidated b).1 in
  (redisplay P sort consolidated b).2
  = ResetWithCount
      (if bool_decide (length (sortedSell b') < length (sortedBuy b'))%nat
       then length (sortedBuy b') else length (sortedSell b'))
    :: _redisplaySide (store b') (sortedBuy b') BUY_SIDE
    ++ _redisplaySide (store b') (sortedSell b') SELL_SIDE
    ++ [OnRedisplay].
Proof.
  unfold redisplay. destruct consolidated; cbv zeta.
  - destruct (_aggregate (buySide b) (store b)) as [buy h1].
    by destruct (_aggregate (sellSide b) h1) as [sell h2].
  - done.
Qed.

Lemma _redisplaySide_length (h : Store) (sortedArray : list ref) (side : Z) :
  refs_valid h sortedArray →
  length (_redisplaySide h sortedArray side) = length sortedArray.
Proof.
  intros Hvalid. unfold _redisplaySide.
  by rewrite length_imap, rows_of_length_valid.
Qed.

Lemma truncate_consolidated (sorted : list ref) :
  truncate true sorted = take 5 sorted.
Proof.
  unfold truncate. cbn [andb]. case_bool_decide; [done|].
  rewrite take_ge; [done|lia].
Qed.

Lemma truncate_sublist consolidated (sorted : list ref) :
  truncate consolidated sorted `sublist_of` sorted.
Proof.
  unfold truncate. destruct (_ && _); [apply sublist_take | done].
Qed.

Lemma _calculateVBBO_fields side sortedArray (h : Store) r row :
  h !! r = Some row →
  ∃ row', _calculateVBBO P side sortedArray h !! r = Some row'
          ∧ price row' = price row ∧ qty row' = qty row
          ∧ venue row' = venue row ∧ key row' = key row.
Proof. apply vbbo_loop_fields. Qed.

Lemma redisplay_sides consolidated (b : BookData) :
  buySide (redisplay P sort consolidated b).1 = buySide b
  ∧ sellSide (redisplay P sort consolidated b).1 = sellSide b.
Proof. by rewrite redisplay_unfold. Qed.

(** What a consolidated pass leaves on the stored record that seeds a
    price group of a side. *)
Lemma redisplay_seed (b : BookData) before after k r row :
  NoDup (obj_values (buySide b) ++ obj_values (sellSide b)) →
  buySide b = before ++ (k, r) :: after
  ∨ sellSide b = before ++ (k, r) :: after →
  store b !! r = Some row →
  (∀ x, x ∈ obj_values before →
        roundedPrice <$> store b !! x ≠ Some (roundedPrice row)) →
  ∃ row',
    store (redisplay P sort true b).1 !! r = Some row'
    ∧ price row' = price row
    ∧ qty row' = qty (foldl merge_level row
                        (group_of (roundedPrice row)
                           (rows_of (store b) (obj_values after))))
    ∧ venue row' = ""%string
    ∧ key row' = key (foldl merge_level row
                        (group_of (roundedPrice row)
                           (rows_of (store b) (obj_values after)))).
Proof.
  intros Hnd Hside Hrow Hfirst. rewrite redisplay_unfold. cbv zeta. cbn [store].
  set (merged := foldl merge_level row _).
  assert (Hagg : (_aggregate (sellSide b)
                    (_aggregate (buySide b) (store b)).2).2 !! r
                 = Some (set_venue ""%string merged)).
  { apply list.NoDup_app in Hnd as (Hbuy & Hdisj & Hsell).
    destruct Hside as [Hside|Hside].
    - assert (Hr : r ∈ obj_values (buySide b)).
      { rewrite Hside, obj_values_app, obj_values_cons.
        apply elem_of_app. right. apply list_elem_of_here. }
      rewrite _aggregate_frame by by apply Hdisj.
      rewrite Hside. apply _aggregate_seed; [by rewrite <- Hside|done|done].
    - assert (Hin : ∀ x, x ∈ obj_values (sellSide b) →
                (_aggregate (buySide b) (store b)).2 !! x = store b !! x).
      { intros x Hx. apply _aggregate_frame. intros Hb. by apply (Hdisj x). }
      assert (Hsub : ∀ x, x ∈ obj_values before ++ r :: obj_values after →
                x ∈ obj_values (sellSide b)).
      { intros x Hx. by rewrite Hside, obj_values_app, obj_values_cons. }
      rewrite Hside. subst merged.
      rewrite <- (rows_of_ext (store b) (_aggregate (buySide b) (store b)).2
                    (obj_values after)).
      + apply _aggregate_seed; [by rewrite <- Hside| |].
        * rewrite Hin; [done|]. apply Hsub, elem_of_app. right.
          apply list_elem_of_here.
        * intros x Hx. rewrite Hin; [by apply Hfirst|].
          apply Hsub, elem_of_app. by left.
      + intros x Hx. apply Hin, Hsub, elem_of_app. right.
        by apply list_elem_of_further. }
  edestruct (_calculateVBBO_fields (buySide b)) as (row1 & Hrow1 & ? & ? & ? & ?);
    [exact Hagg|].
  edestruct (_calculateVBBO_fields (sellSide b)) as (row2 & Hrow2 & ? & ? & ? & ?);
    [exact Hrow1|].
  exists row2. split; [exact Hrow2|].
  destruct (merged_fields
              (group_of (roundedPrice row) (rows_of (store b) (obj_values after)))
              row) as (Hp & _).
  fold merged in Hp. simpl in *. repeat split; congruence.
Qed.
End Redisplay.

(** Claim C9.  A consolidated redisplay leaves the side mappings referring
    to the same records, and writes to the record that seeds each
    rounded-price group of a side: its quantity becomes the sum over the
    group, its venue the empty string, and, when its venue was already
    empty, its key the key of the last level of the group.  The per-venue
    storage is altered by the display pass. *)
Theorem aggregation_mutates_storage (P : MarketPrices)
    (sort : ∀ A : Type, (A → A → CompareResult) → list A → list A)
    (b : BookData) :
  NoDup (obj_values (buySide b) ++ obj_values (sellSide b)) →
  let b' := (redisplay P sort true b).1 in
  buySide b' = buySide b
  ∧ sellSide b' = sellSide b
  ∧ ∀ before after k r row,
      buySide b = before ++ (k, r) :: after
      ∨ sellSide b = before ++ (k, r) :: after →
      store b !! r = Some row →
      (∀ x, x ∈ obj_values before →
            roundedPrice <$> store b !! x ≠ Some (roundedPrice row)) →
      let members :=
        group_of (roundedPrice row) (rows_of (store b) (obj_values after)) in
      ∃ row',
        store b' !! r = Some row'
        ∧ price row' = price row
        ∧ qty row' = running_qty (parseInt (qty row)) members
        ∧ venue row' = ""%string
        ∧ key row' = (if decide (venue row = ""%string)
                      then List.last (key <$> members) (key row)
                      else key row).
Proof.
  intros Hnd b'. subst b'.
  destruct (redisplay_sides P sort true b) as [-> ->].
  split; [done|]. split; [done|].
  intros before after k r row Hside Hrow Hfirst members.
  destruct (redisplay_seed P sort b before after k r row Hnd Hside Hrow Hfirst)
    as (row' & Hrow' & Hp & Hq & Hv & Hk).
  destruct (merged_fields members row) as (_ & _ & Hmq & Hmk).
  exists row'. subst members. unfold parseInt. by rewrite Hq, Hk, Hmq, Hmk.
Qed.

(** ** References held by the mappings *)

Lemma obj_values_set_NoDup {K V : Type} `{EqDecision K} (o : list (K * V)) k v :
  NoDup (obj_values o) → v ∉ obj_values o → NoDup (obj_values (obj_set k v o)).
Proof.
  unfold obj_values. induction o as [|[k' v'] o IH]; simpl; intros Hnd Hv.
  - apply NoDup_singleton.
  - apply list.NoDup_cons in Hnd as [Hv' Hnd].
    apply not_elem_of_cons in Hv as [Hne Hv].
    destruct (decide (k' = k)); simpl; apply list.NoDup_cons.
    + by split.
    + split; [|by apply IH]. intros Hin.
      apply (obj_values_set o k v v') in Hin as [Hin|Hin]; [by subst|done].
Qed.

Lemma obj_values_delete_NoDup {K V : Type} `{EqDecision K} (o : list (K * V)) k :
  NoDup (obj_values o) → NoDup (obj_values (obj_delete k o)).
Proof.
  intros Hnd. eapply sublist_NoDup; [exact Hnd|].
  unfold obj_values. apply fmap_sublist, obj_delete_sublist.
Qed.

(** What [_setSideData] with a record that is not yet referred to leaves
    in the mapping. *)
Lemma _setSideData_values side newRow (r x : ref) :
  x ∈ obj_values (_setSideData side newRow r) → x = r ∨ x ∈ obj_values side.
Proof.
  unfold _setSideData. destruct (decide (qty newRow = 0)); intros Hx.
  - right. by eapply obj_values_delete.
  - by eapply obj_values_set.
Qed.

Lemma _setSideData_NoDup side newRow (r : ref) :
  NoDup (obj_values side) → r ∉ obj_values side →
  NoDup (obj_values (_setSideData side newRow r)).
Proof.
  unfold _setSideData. destruct (decide (qty newRow = 0)); intros Hnd Hr.
  - by apply obj_values_delete_NoDup.
  - by apply obj_values_set_NoDup.
Qed.

(** The records filed by the first loop are pairwise distinct. *)
Lemma aggregate_byPrice_NoDup side : ∀ bpm (h : Store),
  NoDup (obj_values side) →
  NoDup (obj_values bpm) →
  (∀ s, s ∈ obj_values bpm → s ∉ obj_values side) →
  NoDup (obj_values (aggregate_byPrice side bpm h).1).
Proof.
  induction side as [|[k value] side IH]; intros bpm h Hside Hbpm Hdisj; [done|].
  rewrite obj_values_cons in Hside, Hdisj.
  apply list.NoDup_cons in Hside as [Hvalue Hside].
  assert (Hdisj' : ∀ s, s ∈ obj_values bpm → s ∉ obj_values side).
  { intros s Hs Hin. apply (Hdisj s Hs). by apply list_elem_of_further. }
  destruct (h !! value) as [v|] eqn:Hv.
  - destruct (obj_get (roundedPrice v) bpm) as [s'|] eqn:Hget'.
    + rewrite (aggregate_byPrice_cons_merge k value _ bpm h v s') by done.
      by apply IH.
    + rewrite (aggregate_byPrice_cons_seed k value _ bpm h v) by done.
      assert (Hfresh : value ∉ obj_values bpm).
      { intros Hin. apply (Hdisj value Hin), list_elem_of_here. }
      apply IH; [done|by apply obj_values_set_NoDup|].
      intros s Hs. apply obj_values_set in Hs as [->|Hs]; [done|by apply Hdisj'].
  - rewrite aggregate_byPrice_cons_None by done. by apply IH.
Qed.

Lemma aggregate_transpose_NoDup bpm : ∀ result (h : Store),
  NoDup (obj_values bpm) →
  NoDup (obj_values result) →
  (∀ s, s ∈ obj_values result → s ∉ obj_values bpm) →
  NoDup (obj_values (aggregate_transpose bpm result h).1).
Proof.
  induction bpm as [|[rp s] bpm IH]; intros result h Hbpm Hres Hdisj; [done|].
  rewrite obj_values_cons in Hbpm, Hdisj.
  apply list.NoDup_cons in Hbpm as [Hs Hbpm].
  assert (Hdisj' : ∀ x, x ∈ obj_values result → x ∉ obj_values bpm).
  { intros x Hx Hin. apply (Hdisj x Hx). by apply list_elem_of_further. }
  cbn [aggregate_transpose].
  destruct (alter (set_venue ""%string) s h !! s); [|by apply IH].
  apply IH; [done| |].
  - apply obj_values_set_NoDup; [done|]. intros Hin.
    apply (Hdisj s Hin), list_elem_of_here.
  - intros x Hx. apply obj_values_set in Hx as [->|Hx]; [done|by apply Hdisj'].
Qed.

Lemma _aggregate_NoDup side (h : Store) :
  NoDup (obj_values side) → NoDup (obj_values (_aggregate side h).1).
Proof.
  intros Hside. rewrite _aggregate_unfold.
  apply aggregate_transpose_NoDup; [|apply NoDup_nil_2|by intros s Hs%elem_of_nil].
  apply aggregate_byPrice_NoDup; [done|apply NoDup_nil_2|].
  by intros s Hs%elem_of_nil.
Qed.

(** ** Aggregating a consolidated mapping *)

Lemma seed_entries_cons_Some (h : Store) k r side row :
  h !! r = Some row →
  seed_entries h ((k, r) :: side) = (roundedPrice row, r) :: seed_entries h side.
Proof. unfold seed_entries. cbn [omap list_omap snd]. by intros ->. Qed.

Lemma seed_entries_cons_None (h : Store) k r side :
  h !! r = None → seed_entries h ((k, r) :: side) = seed_entries h side.
Proof. unfold seed_entries. cbn [omap list_omap snd]. by intros ->. Qed.

Lemma key_entries_cons_Some (h : Store) rp r bpm row :
  h !! r = Some row →
  key_entries h ((rp, r) :: bpm) = (key row, r) :: key_entries h bpm.
Proof. unfold key_entries. cbn [omap list_omap snd]. by intros ->. Qed.

Lemma key_entries_cons_None (h : Store) rp r bpm :
  h !! r = None → key_entries h ((rp, r) :: bpm) = key_entries h bpm.
Proof. unfold key_entries. cbn [omap list_omap snd]. by intros ->. Qed.

Lemma key_entries_ext (h h' : Store) bpm :
  (∀ x, key <$> h' !! x = key <$> h !! x) →
  key_entries h' bpm = key_entries h bpm.
Proof.
  intros Hext. induction bpm as [|[rp r] bpm IH]; [done|].
  specialize (Hext r).
  destruct (h !! r) as [row|] eqn:Hr; destruct (h' !! r) as [row'|] eqn:Hr';
    try done.
  - rewrite (key_entries_cons_Some h rp r bpm row),
      (key_entries_cons_Some h' rp r bpm row') by done.
    injection Hext as ->. by rewrite IH.
  - by rewrite (key_entries_cons_None h), (key_entries_cons_None h'), IH.
Qed.

(** When every entry rounds to a price of its own, the first loop files
    each record under its price and leaves the store alone. *)
Lemma aggregate_byPrice_distinct side : ∀ bpm (h : Store),
  NoDup (roundedPrice <$> rows_of h (obj_values side)) →
  (∀ rp, rp ∈ roundedPrice <$> rows_of h (obj_values side) →
         obj_get rp bpm = None) →
  aggregate_byPrice side bpm h = (bpm ++ seed_entries h side, h).
Proof.
  induction side as [|[k r] side IH]; intros bpm h Hnd Hfree.
  - by rewrite app_nil_r.
  - rewrite obj_values_cons in *. destruct (h !! r) as [row|] eqn:Hr.
    + rewrite (rows_of_cons_Some h r _ row) in * by done.
      rewrite fmap_cons in *. apply list.NoDup_cons in Hnd as [Hrow Hnd].
      rewrite (aggregate_byPrice_cons_seed k r side bpm h row);
        [|done|apply Hfree, list_elem_of_here].
      rewrite (seed_entries_cons_Some h k r side row) by done.
      rewrite IH; [|done|].
      * rewrite obj_set_fresh; [by rewrite <- app_assoc|].
        apply obj_get_None, Hfree, list_elem_of_here.
      * intros rp Hrp. rewrite obj_get_set_ne by (by intros <-).
        by apply Hfree, list_elem_of_further.
    + rewrite (rows_of_cons_None h r) in * by done.
      rewrite aggregate_byPrice_cons_None, seed_entries_cons_None by done.
      by apply IH.
Qed.

(** When the filed records carry keys that are pairwise distinct and new
    to the result, the second loop appends them in order. *)
Lemma aggregate_transpose_distinct bpm : ∀ result (h : Store),
  NoDup (obj_keys (key_entries h bpm)) →
  (∀ k, k ∈ obj_keys (key_entries h bpm) → obj_get k result = None) →
  (aggregate_transpose bpm result h).1 = result ++ key_entries h bpm.
Proof.
  induction bpm as [|[rp r] bpm IH]; intros result h Hnd Hfree.
  - cbn. by rewrite app_nil_r.
  - cbn [aggregate_transpose].
    set (h1 := alter (set_venue ""%string) r h).
    assert (Hkeys : key_entries h1 bpm = key_entries h bpm).
    { apply key_entries_ext. intros x. subst h1. rewrite list_lookup_alter.
      destruct (decide (r = x)) as [->|]; [|done]. by destruct (h !! x). }
    assert (Hr1 : h1 !! r = set_venue ""%string <$> h !! r)
      by apply list_lookup_alter_eq.
    destruct (h !! r) as [row|] eqn:Hr.
    + rewrite (key_entries_cons_Some h rp r bpm row) in * by done.
      unfold obj_keys in Hnd, Hfree. rewrite fmap_cons in Hnd, Hfree.
      apply list.NoDup_cons in Hnd as [Hrow Hnd].
      rewrite Hr1. cbn [fmap option_fmap option_map set_venue key].
      rewrite IH; rewrite Hkeys.
      * rewrite obj_set_fresh; [by rewrite <- app_assoc|].
        apply obj_get_None, Hfree, list_elem_of_here.
      * done.
      * intros k Hk. rewrite obj_get_set_ne by (by intros <-).
        by apply Hfree, list_elem_of_further.
    + rewrite (key_entries_cons_None h rp r bpm) in * by done.
      rewrite Hr1. cbn [fmap option_fmap option_map].
      rewrite IH; by rewrite Hkeys.
Qed.

Lemma key_entries_seed_entries (h : Store) side :
  filed_under_own_key h side → key_entries h (seed_entries h side) = side.
Proof.
  unfold filed_under_own_key. induction 1 as [|[k r] side (row & Hr & Hk) _ IH];
    [done|].
  cbn [fst snd] in *.
  rewrite (seed_entries_cons_Some h k r side row) by done.
  rewrite (key_entries_cons_Some h _ r _ row) by done. by rewrite IH, Hk.
Qed.

Lemma level_pairs_ext (h h' : Store) o :
  (∀ x, (λ row, (price row, qty row)) <$> h' !! x
        = (λ row, (price row, qty row)) <$> h !! x) →
  level_pairs h' o = level_pairs h o.
Proof.
  intros Hext. unfold level_pairs. induction (obj_values o) as [|r refs IH]; [done|].
  specialize (Hext r).
  destruct (h !! r) as [row|] eqn:Hr; destruct (h' !! r) as [row'|] eqn:Hr';
    try done.
  - rewrite (rows_of_cons_Some h r refs row), (rows_of_cons_Some h' r refs row')
      by done.
    rewrite !fmap_cons, IH. by injection Hext as -> ->.
  - by rewrite (rows_of_cons_None h), (rows_of_cons_None h').
Qed.

(** *** The mappings returned by [_aggregate] *)

Lemma obj_keys_set {K V : Type} `{EqDecision K} (o : list (K * V)) k v :
  obj_keys (obj_set k v o)
  = if decide (k ∈ obj_keys o) then obj_keys o else obj_keys o ++ [k].
Proof.
  unfold obj_keys. induction o as [|[k' v'] o IH].
  - destruct (decide (k ∈ (@nil (K * V)).*1)) as [Hin%elem_of_nil|]; done.
  - cbn [obj_set]. destruct (decide (k' = k)) as [->|Hne]; rewrite !fmap_cons;
      cbn [fst].
    + rewrite decide_True; [done|]. apply list_elem_of_here.
    + rewrite IH. destruct (decide (k ∈ o.*1)) as [Hin|Hnin].
      * rewrite decide_True; [done|]. by apply list_elem_of_further.
      * rewrite decide_False; [done|]. rewrite not_elem_of_cons. by split.
Qed.

Lemma obj_set_keys_NoDup {K V : Type} `{EqDecision K} (o : list (K * V)) k v :
  NoDup (obj_keys o) → NoDup (obj_keys (obj_set k v o)).
Proof.
  intros Hnd. rewrite obj_keys_set. destruct (decide (k ∈ obj_keys o)); [done|].
  apply list.NoDup_app. split; [done|]. split; [|apply NoDup_singleton].
  intros x Hx ->%list_elem_of_singleton. done.
Qed.

Lemma obj_set_Forall {K V : Type} `{EqDecision K} (Q : K * V → Prop)
    (o : list (K * V)) k v :
  Forall Q o → Q (k, v) → Forall Q (obj_set k v o).
Proof.
  intros Hall Hkv. induction Hall as [|[k' v'] o Hq Hall IH]; simpl.
  - by constructor.
  - destruct (decide (k' = k)); by constructor.
Qed.

Lemma NoDup_omap_inj {A B : Type} (f : A → option B) (l : list A) :
  NoDup l →
  (∀ x y b, x ∈ l → y ∈ l → f x = Some b → f y = Some b → x = y) →
  NoDup (omap f l).
Proof.
  induction l as [|x l IH]; intros Hnd Hinj; [apply NoDup_nil_2|].
  apply list.NoDup_cons in Hnd as [Hx Hnd].
  assert (Hrest : NoDup (omap f l)).
  { apply IH; [done|]. intros y z b Hy Hz. apply Hinj; by apply list_elem_of_further. }
  cbn [omap list_omap]. destruct (f x) as [b|] eqn:Hfx; [|done].
  apply list.NoDup_cons. split; [|done].
  intros (y & Hy & Hfy)%list_elem_of_omap. apply Hx.
  rewrite (Hinj x y b); [done|apply list_elem_of_here| | |];
    by try apply list_elem_of_further.
Qed.

(** The first loop keeps [byPriceMap] indexed by rounded price. *)
Lemma aggregate_byPrice_indexed side : ∀ bpm (h : Store),
  byPrice_indexed h bpm →
  byPrice_indexed (aggregate_byPrice side bpm h).2
    (aggregate_byPrice side bpm h).1.
Proof.
  induction side as [|[k value] side IH]; intros bpm h Hidx; [done|].
  destruct (h !! value) as [v|] eqn:Hv.
  - destruct (obj_get (roundedPrice v) bpm) as [s'|] eqn:Hget'.
    + rewrite (aggregate_byPrice_cons_merge k value _ bpm h v s') by done.
      apply IH. intros s Hs. destruct (Hidx s Hs) as (srow & Hsrow & Hget).
      rewrite list_lookup_alter. destruct (decide (s' = s)) as [->|].
      * rewrite Hsrow. eexists. split; [done|]. by rewrite merge_level_rounded.
      * by exists srow.
    + rewrite (aggregate_byPrice_cons_seed k value _ bpm h v) by done.
      apply IH. intros s Hs. apply obj_values_set in Hs as [->|Hs].
      * exists v. split; [done|]. apply obj_get_set_eq.
      * destruct (Hidx s Hs) as (srow & Hsrow & Hget). exists srow.
        split; [done|]. rewrite obj_get_set_ne; [done|]. congruence.
  - rewrite aggregate_byPrice_cons_None by done. by apply IH.
Qed.

Lemma aggregate_transpose_keys_NoDup bpm : ∀ result (h : Store),
  NoDup (obj_keys result) →
  NoDup (obj_keys (aggregate_transpose bpm result h).1).
Proof.
  induction bpm as [|[rp s] bpm IH]; intros result h Hnd; [done|].
  cbn [aggregate_transpose].
  destruct (alter (set_venue ""%string) s h !! s); apply IH; [|done].
  by apply obj_set_keys_NoDup.
Qed.

Lemma aggregate_transpose_filed bpm : ∀ result (h : Store),
  Forall (λ e, key <$> h !! e.2 = Some e.1) result →
  Forall (λ e, key <$> (aggregate_transpose bpm result h).2 !! e.2 = Some e.1)
    (aggregate_transpose bpm result h).1.
Proof.
  induction bpm as [|[rp s] bpm IH]; intros result h Hall; [done|].
  cbn [aggregate_transpose].
  set (h1 := alter (set_venue ""%string) s h).
  assert (Hkey : ∀ x, key <$> h1 !! x = key <$> h !! x).
  { intros x. subst h1. rewrite list_lookup_alter.
    destruct (decide (s = x)) as [->|]; [|done]. by destruct (h !! x). }
  assert (Hall1 : Forall (λ e, key <$> h1 !! e.2 = Some e.1) result).
  { eapply list.Forall_impl; [exact Hall|]. intros e He. by rewrite Hkey. }
  destruct (h1 !! s) as [b|] eqn:Hs; apply IH; [|done].
  apply obj_set_Forall; [done|]. cbn [fst snd]. by rewrite Hs.
Qed.

(** A mapping returned by [_aggregate] has distinct keys, files every
    record under its own key, and holds one record per rounded price. *)
Lemma _aggregate_output side (h : Store) :
  NoDup (obj_values side) →
  let result := (_aggregate side h).1 in
  let h' := (_aggregate side h).2 in
  NoDup (obj_keys result)
  ∧ filed_under_own_key h' result
  ∧ NoDup (roundedPrice <$> rows_of h' (obj_values result)).
Proof.
  intros Hnd result h'. split; [|split].
  - subst result. rewrite _aggregate_unfold.
    apply aggregate_transpose_keys_NoDup, NoDup_nil_2.
  - subst result h'. rewrite _aggregate_unfold. unfold filed_under_own_key.
    eapply list.Forall_impl; [apply aggregate_transpose_filed; constructor|].
    intros e He. cbv beta in He. destruct (_ !! e.2) as [row|]; [|done].
    exists row. split; [done|]. by injection He.
  - unfold rows_of. rewrite list_fmap_omap. apply NoDup_omap_inj.
    { by apply _aggregate_NoDup. }
    intros x y rp Hx Hy Hfx Hfy. subst result h'.
    rewrite _aggregate_unfold in *.
    set (first := aggregate_byPrice side [] h) in *.
    assert (Hidx : byPrice_indexed first.2 first.1).
    { apply aggregate_byPrice_indexed. by intros s Hs%elem_of_nil. }
    assert (Hfiled : ∀ z, z ∈ obj_values (aggregate_transpose first.1 [] first.2).1
              → z ∈ obj_values first.1).
    { intros z Hz. apply aggregate_transpose_values in Hz as [Hz|Hz]; [|done].
      by apply elem_of_nil in Hz. }
    assert (Hrp : ∀ z, roundedPrice
                         <$> (aggregate_transpose first.1 [] first.2).2 !! z
                       = roundedPrice <$> first.2 !! z).
    { intros z. rewrite aggregate_transpose_lookup.
      destruct (decide _); [|done]. by destruct (first.2 !! z). }
    rewrite Hrp in Hfx, Hfy.
    destruct (Hidx x (Hfiled x Hx)) as (xrow & Hxrow & Hgetx).
    destruct (Hidx y (Hfiled y Hy)) as (yrow & Hyrow & Hgety).
    rewrite Hxrow in Hfx. rewrite Hyrow in Hfy. simpl in *. congruence.
Qed.

(** X22.  Aggregating a mapping that holds one entry per
    price rounded to four decimals, each filed under the key of its own
    record, returns the same mapping, holding the same (price, quantity)
    pairs.  Every mapping returned by the aggregation of a side that holds
    no record twice is of this kind, so aggregating it again returns it. *)
Theorem aggregate_consolidated_idempotent (h : Store) (side : list (Key * ref)) :
  (NoDup (obj_keys side) →
   filed_under_own_key h side →
   NoDup (roundedPrice <$> rows_of h (obj_values side)) →
   (_aggregate side h).1 = side
   ∧ level_pairs (_aggregate side h).2 (_aggregate side h).1
     = level_pairs h side
   ∧ aggregate_keeps_pairs h side)
  ∧ (NoDup (obj_values side) →
     let out := _aggregate side h in
     (_aggregate out.1 out.2).1 = out.1
     ∧ aggregate_keeps_pairs out.2 out.1).
Proof.
  assert (Hidem : ∀ (h : Store) (side : list (Key * ref)),
    NoDup (obj_keys side) →
    filed_under_own_key h side →
    NoDup (roundedPrice <$> rows_of h (obj_values side)) →
    (_aggregate side h).1 = side
    ∧ level_pairs (_aggregate side h).2 (_aggregate side h).1
      = level_pairs h side
    ∧ aggregate_keeps_pairs h side).
  { clear h side. intros h side Hkeys Hfiled Hprices.
    assert (Hresult : (_aggregate side h).1 = side).
    { rewrite _aggregate_unfold, aggregate_byPrice_distinct by done.
      cbn [fst snd app].
      rewrite aggregate_transpose_distinct; rewrite key_entries_seed_entries;
        done. }
    assert (Hpairs : level_pairs (_aggregate side h).2 side = level_pairs h side).
    { rewrite _aggregate_unfold, aggregate_byPrice_distinct by done.
      cbn [fst snd app]. apply level_pairs_ext. intros x.
      rewrite aggregate_transpose_lookup.
      destruct (decide _); [|done]. by destruct (h !! x). }
    unfold aggregate_keeps_pairs. rewrite Hresult, Hpairs. by repeat split. }
  split; [apply Hidem|].
  intros Hnd out. subst out.
  destruct (_aggregate_output side h Hnd) as (Hkeys & Hfiled & Hprices).
  destruct (Hidem _ _ Hkeys Hfiled Hprices) as (Hresult & _ & Hkeep).
  by split.
Qed.

(** ** Display depth *)

Lemma sort_insert_perm {A : Type} (compare : A → A → CompareResult) x l :
  sort_insert compare x l ≡ₚ x :: l.
Proof.
  induction l as [|y l IH]; [done|]. simpl.
  case_bool_decide; [done|]. rewrite IH. apply Permutation_swap.
Qed.

Lemma insertion_sort_perm (A : Type) (compare : A → A → CompareResult) l :
  insertion_sort A compare l ≡ₚ l.
Proof.
  unfold insertion_sort. induction l as [|x l IH]; [done|]. simpl.
  by rewrite sort_insert_perm, IH.
Qed.

(** Claim C6.  After a consolidated redisplay each sorted array is the
    first five entries, at most, of the sorted aggregated side; after an
    unconsolidated redisplay each sorted array holds every record of its
    side, and one row per stored level is sent to the callback. *)
Theorem redisplay_depth (P : MarketPrices)
    (sort : ∀ A : Type, (A → A → CompareResult) → list A → list A)
    (b : BookData) :
  (∀ (A : Type) (compare : A → A → CompareResult) (l : list A),
      sort A compare l ≡ₚ l) →
  let consolidated := (redisplay P sort true b).1 in
  let raw := (redisplay P sort false b).1 in
  let buy := _aggregate (buySide b) (store b) in
  let sell := _aggregate (sellSide b) buy.2 in
  ((length (sortedBuy consolidated) ≤ 5)%nat
   ∧ (length (sortedSell consolidated) ≤ 5)%nat
   ∧ (∃ full, full ≡ₚ obj_values buy.1
              ∧ sortedBuy consolidated = take 5 full)
   ∧ (∃ full, full ≡ₚ obj_values sell.1
              ∧ sortedSell consolidated = take 5 full))
  ∧ (sortedBuy raw ≡ₚ obj_values (buySide b)
     ∧ sortedSell raw ≡ₚ obj_values (sellSide b)
     ∧ length (sortedBuy raw) = length (buySide b)
     ∧ length (sortedSell raw) = length (sellSide b))
  ∧ (refs_valid (store b) (obj_values (buySide b) ++ obj_values (sellSide b)) →
     ∃ buyRows sellRows,
       (redisplay P sort false b).2
       = ResetWithCount (length (buySide b) `max` length (sellSide b))
         :: buyRows ++ sellRows ++ [OnRedisplay]
       ∧ length buyRows = length (buySide b)
       ∧ length sellRows = length (sellSide b)).
Proof.
  intros Hsort consolidated raw buy sell.
  assert (Hraw : sortedBuy raw ≡ₚ obj_values (buySide b)
                 ∧ sortedSell raw ≡ₚ obj_values (sellSide b)
                 ∧ length (sortedBuy raw) = length (buySide b)
                 ∧ length (sortedSell raw) = length (sellSide b)).
  { subst raw. rewrite redisplay_unfold. cbv zeta.
    cbn [sortedBuy sortedSell fst snd]. unfold truncate, _sortValues.
    cbn [andb]. rewrite !Hsort. unfold obj_values. by rewrite !length_fmap. }
  split; [|split; [done|]].
  - subst consolidated. rewrite redisplay_unfold. cbv zeta.
    cbn [sortedBuy sortedSell fst snd]. rewrite !truncate_consolidated.
    split; [|split; [|split]].
    + rewrite length_take. lia.
    + rewrite length_take. lia.
    + eexists. split; [|done]. apply Hsort.
    + eexists. split; [|done]. apply Hsort.
  - intros Hvalid. destruct Hraw as (Hpb & Hps & Hlb & Hls).
    assert (Hstore : length (store raw) = length (store b)).
    { subst raw. rewrite redisplay_unfold. cbv zeta. cbn [store fst snd].
      unfold _calculateVBBO. by rewrite !vbbo_loop_length. }
    assert (Hvb : refs_valid (store raw) (sortedBuy raw)).
    { intros r Hr. rewrite Hstore. apply Hvalid, elem_of_app. left.
      by rewrite <- Hpb. }
    assert (Hvs : refs_valid (store raw) (sortedSell raw)).
    { intros r Hr. rewrite Hstore. apply Hvalid, elem_of_app. right.
      by rewrite <- Hps. }
    exists (_redisplaySide (store raw) (sortedBuy raw) BUY_SIDE),
      (_redisplaySide (store raw) (sortedSell raw) SELL_SIDE).
    rewrite redisplay_events. cbv zeta. fold raw.
    rewrite !_redisplaySide_length by done. rewrite Hlb, Hls.
    split; [|done]. do 2 f_equal. case_bool_decide; lia.
Qed.

(** ** The VWAP quote *)

Lemma rows_of_grow (h extra : Store) (refs : list ref) :
  refs_valid h refs → rows_of (h ++ extra) refs = rows_of h refs.
Proof.
  intros Hvalid. apply rows_of_ext. intros r Hr.
  apply lookup_app_l. by apply Hvalid.
Qed.

Lemma refs_valid_grow (h extra : Store) (refs : list ref) :
  refs_valid h refs → refs_valid (h ++ extra) refs.
Proof.
  intros Hvalid r Hr. rewrite length_app. specialize (Hvalid r Hr). lia.
Qed.

Lemma sorted_updateBook level side qty price venue (b : BookData) :
  sortedBuy (updateBook level side qty price venue b) = sortedBuy b
  ∧ sortedSell (updateBook level side qty price venue b) = sortedSell b.
Proof. unfold updateBook. by destruct (decide (side = BUY_SIDE)). Qed.

(** Updates leave the sorted arrays and the records they refer to alone. *)
Lemma apply_upserts_snapshot (us : list Upsert) : ∀ b : BookData,
  refs_valid (store b) (sortedBuy b) →
  refs_valid (store b) (sortedSell b) →
  sortedBuy (apply_upserts us b) = sortedBuy b
  ∧ sortedSell (apply_upserts us b) = sortedSell b
  ∧ rows_of (store (apply_upserts us b)) (sortedBuy b)
    = rows_of (store b) (sortedBuy b)
  ∧ rows_of (store (apply_upserts us b)) (sortedSell b)
    = rows_of (store b) (sortedSell b).
Proof.
  induction us as [|u us IH]; intros b Hbuy Hsell; [done|].
  change (apply_upserts (u :: us) b) with (apply_upserts us (apply_upsert b u)).
  assert (Hsb : sortedBuy (apply_upsert b u) = sortedBuy b)
    by apply sorted_updateBook.
  assert (Hss : sortedSell (apply_upsert b u) = sortedSell b)
    by apply sorted_updateBook.
  assert (Hst : store (apply_upsert b u)
                = store b ++ [_createRow (up_price u) (up_qty u) (up_venue u)
                                (up_level u)])
    by apply store_updateBook.
  destruct (IH (apply_upsert b u)) as (H1 & H2 & H3 & H4).
  - rewrite Hsb, Hst. by apply refs_valid_grow.
  - rewrite Hss, Hst. by apply refs_valid_grow.
  - rewrite Hsb in H1, H3. rewrite Hss in H2, H4.
    rewrite H1, H2, H3, H4, Hst. by rewrite !rows_of_grow.
Qed.

(** ** The book invariant *)

Section Invariant.
Variable P : MarketPrices.
Variable sort : ∀ A : Type, (A → A → CompareResult) → list A → list A.
Hypothesis sort_perm :
  ∀ (A : Type) (compare : A → A → CompareResult) (l : list A),
    sort A compare l ≡ₚ l.

Lemma book_wf_new : book_wf newBookData.
Proof.
  split; simpl; try apply NoDup_nil_2; by intros r Hr%elem_of_nil.
Qed.

Lemma book_wf_reset (b : BookData) : book_wf (resetData b).
Proof.
  split; simpl; try apply NoDup_nil_2; by intros r Hr%elem_of_nil.
Qed.

Lemma book_wf_updateBook level side qty price venue (b : BookData) :
  book_wf b → book_wf (updateBook level side qty price venue b).
Proof.
  intros [Hsides Hnd Hbuy Hsell Hbn Hsn].
  set (newRow := _createRow price qty venue level).
  assert (Hfresh : length (store b) ∉ obj_values (buySide b)
                                      ++ obj_values (sellSide b)).
  { intros Hin. specialize (Hsides _ Hin). lia. }
  rewrite not_elem_of_app in Hfresh. destruct Hfresh as [Hfb Hfs].
  apply list.NoDup_app in Hnd as (Hndb & Hdisj & Hnds).
  assert (Hgrow : ∀ refs, refs_valid (store b) refs →
                          refs_valid (store b ++ [newRow]) refs)
    by (intros refs; apply refs_valid_grow).
  assert (Hnew : (length (store b) < length (store b ++ [newRow]))%nat)
    by (rewrite length_app; simpl; lia).
  unfold updateBook. fold newRow.
  destruct (decide (side = BUY_SIDE)); split; cbn [store buySide sellSide
    sortedBuy sortedSell]; try (by apply Hgrow); try done.
  - intros x [Hx|Hx]%elem_of_app.
    + apply _setSideData_values in Hx as [->|Hx]; [done|].
      apply Hgrow in Hsides. apply Hsides, elem_of_app. by left.
    + apply Hgrow in Hsides. apply Hsides, elem_of_app. by right.
  - apply list.NoDup_app. split; [by apply _setSideData_NoDup|]. split; [|done].
    intros x Hx. apply _setSideData_values in Hx as [->|Hx]; [done|by apply Hdisj].
  - intros x [Hx|Hx]%elem_of_app.
    + apply Hgrow in Hsides. apply Hsides, elem_of_app. by left.
    + apply _setSideData_values in Hx as [->|Hx]; [done|].
      apply Hgrow in Hsides. apply Hsides, elem_of_app. by right.
  - apply list.NoDup_app. split; [done|]. split; [|by apply _setSideData_NoDup].
    intros x Hx Hin. apply _setSideData_values in Hin as [->|Hin]; [done|].
    by apply (Hdisj x).
Qed.

(** A sorted, truncated array of the values of a mapping refers to values
    of the mapping, each once. *)
Lemma truncate_sortValues consolidated (h : Store) o compare :
  NoDup (obj_values o) →
  NoDup (truncate consolidated (_sortValues sort h o compare))
  ∧ ∀ r, r ∈ truncate consolidated (_sortValues sort h o compare) →
         r ∈ obj_values o.
Proof.
  intros Hnd. split.
  - eapply sublist_NoDup; [|apply truncate_sublist].
    unfold _sortValues. by rewrite sort_perm.
  - intros r Hr. eapply elem_of_sublist in Hr; [|apply truncate_sublist].
    unfold _sortValues in Hr. by rewrite sort_perm in Hr.
Qed.

Lemma book_wf_redisplay consolidated (b : BookData) :
  book_wf b → book_wf (redisplay P sort consolidated b).1.
Proof.
  intros [Hsides Hnd Hbuy Hsell Hbn Hsn]. rewrite redisplay_unfold. cbv zeta.
  set (buy := if consolidated then _aggregate (buySide b) (store b)
              else (buySide b, store b)).
  set (sell := if consolidated then _aggregate (sellSide b) buy.2
               else (sellSide b, buy.2)).
  pose proof Hnd as Hnd'. apply list.NoDup_app in Hnd' as (Hndb & _ & Hnds).
  assert (Hbuyv : NoDup (obj_values buy.1)
                  ∧ ∀ r, r ∈ obj_values buy.1 → r ∈ obj_values (buySide b)).
  { subst buy. destruct consolidated; cbn [fst]; [|by split]. split.
    - by apply _aggregate_NoDup.
    - apply _aggregate_values. }
  assert (Hsellv : NoDup (obj_values sell.1)
                   ∧ ∀ r, r ∈ obj_values sell.1 → r ∈ obj_values (sellSide b)).
  { subst sell. destruct consolidated; cbn [fst]; [|by split]. split.
    - by apply _aggregate_NoDup.
    - apply _aggregate_values. }
  assert (Hlen : length (_calculateVBBO P (sellSide b)
                   (truncate consolidated
                      (_sortValues sort sell.2 sell.1 _compareSell))
                   (_calculateVBBO P (buySide b)
                      (truncate consolidated
                         (_sortValues sort buy.2 buy.1 _compareBuy))
                      sell.2))
                 = length (store b)).
  { unfold _calculateVBBO. rewrite !vbbo_loop_length. subst sell buy.
    destruct consolidated; [|done]. cbn [snd]. by rewrite !_aggregate_length. }
  destruct Hbuyv as [Hbuynd Hbuysub]. destruct Hsellv as [Hsellnd Hsellsub].
  destruct (truncate_sortValues consolidated buy.2 buy.1 _compareBuy Hbuynd)
    as [Hsbnd Hsbsub].
  destruct (truncate_sortValues consolidated sell.2 sell.1 _compareSell Hsellnd)
    as [Hssnd Hsssub].
  split; cbn [store buySide sellSide sortedBuy sortedSell]; try done.
  - intros r Hr. rewrite Hlen. by apply Hsides.
  - intros r Hr. rewrite Hlen. apply Hsides, elem_of_app. left.
    by apply Hbuysub, Hsbsub.
  - intros r Hr. rewrite Hlen. apply Hsides, elem_of_app. right.
    by apply Hsellsub, Hsssub.
Qed.

(** Every book the interface can produce satisfies the invariant. *)
Lemma reachable_wf (b : BookData) : reachable P sort b → book_wf b.
Proof.
  induction 1 as [|level side qty price venue b _ IH|b _ _|consolidated b _ IH].
  - apply book_wf_new.
  - by apply book_wf_updateBook.
  - apply book_wf_reset.
  - by apply book_wf_redisplay.
Qed.
End Invariant.

(** ** The quote and the display *)

(** Claim C10.  The VWAP quote walks the sorted arrays left by the last
    redisplay, not the side storage.  On a new book and after a reset it is
    quantity 0, price 0 and level -1 on both sides, whatever updates
    follow.  After a redisplay, and whatever updates follow it, the quote is
    the walk over the rows that redisplay sent to the callback, in the
    order it sent them: the records of the side, aggregated when the
    display is consolidated, sorted and cut to the display depth, read as
    the VBBO pass left them.  On such rows without a marker price and for a
    non-negative quantity the walk is the fill-from-the-best-level
    computation. *)
Theorem vwap_quote_uses_snapshot (P : MarketPrices)
    (sort : ∀ A : Type, (A → A → CompareResult) → list A → list A)
    (b : BookData) (consolidated : bool) (vwapName : string) (requested : Z) :
  (∀ (A : Type) (compare : A → A → CompareResult) (l : list A),
      sort A compare l ≡ₚ l) →
  book_wf b →
  let empty :=
    mkVwapUpdate vwapName requested 0 (Some 0%Qc) (-1) 0 (Some 0%Qc) (-1) in
  let shown := redisplay P sort consolidated b in
  let buy := if consolidated then _aggregate (buySide b) (store b)
             else (buySide b, store b) in
  let sell := if consolidated then _aggregate (sellSide b) buy.2
              else (sellSide b, buy.2) in
  let buyRows :=
    rows_of (store shown.1)
      (truncate consolidated (_sortValues sort buy.2 buy.1 _compareBuy)) in
  let sellRows :=
    rows_of (store shown.1)
      (truncate consolidated (_sortValues sort sell.2 sell.1 _compareSell)) in
  let row_event (side : Z) (i : nat) (row : Row) :=
    UpdateBook
      (Update.mk i side (qty row)
         (toFixed4 (Number_of_Fixed4 (toFixed4 (price row))))
         (venue row) (cumQty row) (toFixed4 <$> vbbo row)) in
  (∀ us, getVwapUpdate P vwapName requested (apply_upserts us newBookData)
         = empty)
  ∧ (∀ us, getVwapUpdate P vwapName requested
             (apply_upserts us (resetData b)) = empty)
  ∧ shown.2
    = ResetWithCount (length buyRows `max` length sellRows)
      :: imap (row_event BUY_SIDE) buyRows
      ++ imap (row_event SELL_SIDE) sellRows
      ++ [OnRedisplay]
  ∧ (∀ us,
       getVwapUpdate P vwapName requested (apply_upserts us shown.1)
       = mkVwapUpdate vwapName requested
           (Vwap.qty (_calculateVwapForQty P requested buyRows))
           (Vwap.price (_calculateVwapForQty P requested buyRows))
           (Vwap.level (_calculateVwapForQty P requested buyRows))
           (Vwap.qty (_calculateVwapForQty P requested sellRows))
           (Vwap.price (_calculateVwapForQty P requested sellRows))
           (Vwap.level (_calculateVwapForQty P requested sellRows)))
  ∧ (0 ≤ requested →
     Forall (λ row, ¬ is_marker P (price row)) buyRows →
     Forall (λ row, ¬ is_marker P (price row)) sellRows →
     ∀ us,
       getVwapUpdate P vwapName requested (apply_upserts us shown.1)
       = mkVwapUpdate vwapName requested
           (Vwap.qty (spec_vwap requested buyRows))
           (Vwap.price (spec_vwap requested buyRows))
           (Vwap.level (spec_vwap requested buyRows))
           (Vwap.qty (spec_vwap requested sellRows))
           (Vwap.price (spec_vwap requested sellRows))
           (Vwap.level (spec_vwap requested sellRows))).
Proof.
  intros Hsort Hwf. cbv zeta.
  assert (Hkeep : ∀ us b0,
            refs_valid (store b0) (sortedBuy b0) →
            refs_valid (store b0) (sortedSell b0) →
            getVwapUpdate P vwapName requested (apply_upserts us b0)
            = getVwapUpdate P vwapName requested b0).
  { intros us b0 Hb Hs. unfold getVwapUpdate.
    destruct (apply_upserts_snapshot us b0 Hb Hs) as (-> & -> & -> & ->). done. }
  destruct (book_wf_redisplay P sort Hsort consolidated b Hwf)
    as [_ _ Hvb Hvs _ _].
  pose proof (redisplay_events P sort consolidated b) as Hevents.
  cbv zeta in Hevents.
  rewrite redisplay_unfold in *. cbv zeta in *.
  cbn [store sortedBuy sortedSell] in *.
  split; [|split; [|split; [|split]]].
  - intros us. rewrite Hkeep; [done| |]; by intros r Hr%elem_of_nil.
  - intros us. rewrite Hkeep; [done| |]; by intros r Hr%elem_of_nil.
  - rewrite Hevents, !rows_of_length_valid by done.
    unfold _redisplaySide, createUpdateObj.
    do 2 f_equal. case_bool_decide; lia.
  - intros us. rewrite Hkeep by done. reflexivity.
  - intros Hreq Hbuy Hsell us. rewrite Hkeep by done.
    unfold getVwapUpdate. cbn [store sortedBuy sortedSell].
    assert (Hwalk : ∀ rows,
              Forall (λ row, ¬ is_marker P (price row)) rows →
              _calculateVwapForQty P requested rows = spec_vwap requested rows).
    { intros rows Hall. unfold _calculateVwapForQty, spec_vwap.
      rewrite vwap_loop_spec by done. simpl. by rewrite Qcplus_0_l. }
    by rewrite !Hwalk.
Qed.

(** * Further properties of the code *)

(** ** The VWAP pass: quantity and level *)

(** Whatever the prices are, the loop takes the fills of the walk. *)
Lemma vwap_loop_fill (P : MarketPrices) (levels : list Row) :
  ∀ index remaining used value level c,
    0 ≤ remaining →
    let fills := spec_fills remaining levels in
    Vwap.qty (vwap_loop P index levels remaining used value level c)
    = used + spec_consumed fills
    ∧ Vwap.level (vwap_loop P index levels remaining used value level c)
      = default level (spec_last_contributor index fills).
Proof.
  induction levels as [|l levels IH];
    intros index remaining used value level c Hrem; simpl.
  - split; [lia|done].
  - unfold Converter_toInt.
    destruct (0 <? qty l) eqn:Hq; destruct (0 <? remaining) eqn:Hr; simpl.
    + apply Z.ltb_lt in Hq, Hr.
      replace (if qty l <? remaining then qty l else remaining)
        with (Z.min remaining (qty l))
        by (destruct (qty l <? remaining) eqn:E;
            [apply Z.ltb_lt in E | apply Z.ltb_ge in E]; lia).
      destruct (IH (index + 1) (remaining - Z.min remaining (qty l))
                  (used + Z.min remaining (qty l))
                  (value + Qc_of_Z (Z.min remaining (qty l))
                           * Converter_toFloat (price l))%Qc
                  index (checkMarketOrder P (Converter_toFloat (price l)) c))
        as [-> ->]; [lia|].
      rewrite (proj2 (Z.ltb_lt 0 (Z.min remaining (qty l)))) by lia.
      split; [lia|]. by destruct (spec_last_contributor _ _).
    + apply Z.ltb_ge in Hr. assert (remaining = 0) as -> by lia.
      rewrite Z.min_l by (apply Z.ltb_lt in Hq; lia). rewrite Z.sub_0_r.
      destruct (IH (index + 1) 0 used value level
                  (checkMarketOrder P (Converter_toFloat (price l)) c))
        as [-> ->]; [lia|].
      simpl. split; [lia|]. by destruct (spec_last_contributor _ _).
    + rewrite Z.sub_0_r.
      destruct (IH (index + 1) remaining used value level
                  (checkMarketOrder P (Converter_toFloat (price l)) c))
        as [-> ->]; [lia|].
      simpl. split; [lia|]. by destruct (spec_last_contributor _ _).
    + rewrite Z.sub_0_r.
      destruct (IH (index + 1) remaining used value level
                  (checkMarketOrder P (Converter_toFloat (price l)) c))
        as [-> ->]; [lia|].
      simpl. split; [lia|]. by destruct (spec_last_contributor _ _).
Qed.

Lemma spec_fills_nonneg (levels : list Row) : ∀ remaining,
  0 ≤ remaining → Forall (λ f, 0 ≤ f) (spec_fills remaining levels).
Proof.
  induction levels as [|l levels IH]; intros remaining Hrem; simpl;
    constructor.
  - destruct (0 <? qty l) eqn:Hq; [apply Z.ltb_lt in Hq|]; lia.
  - apply IH. destruct (0 <? qty l) eqn:Hq; [apply Z.ltb_lt in Hq|]; lia.
Qed.

Lemma spec_consumed_min (levels : list Row) : ∀ remaining,
  0 ≤ remaining →
  spec_consumed (spec_fills remaining levels)
  = Z.min remaining (available_qty levels).
Proof.
  induction levels as [|l levels IH]; intros remaining Hrem; simpl; [lia|].
  destruct (0 <? qty l) eqn:Hq; [apply Z.ltb_lt in Hq|apply Z.ltb_ge in Hq].
  - rewrite IH by lia.
    assert (0 ≤ available_qty levels).
    { clear. induction levels as [|x levels IHl]; simpl; lia. }
    lia.
  - rewrite Z.sub_0_r, IH by lia. lia.
Qed.

Lemma spec_last_contributor_range (fills : list Z) : ∀ index i,
  spec_last_contributor index fills = Some i →
  index ≤ i < index + Z.of_nat (length fills).
Proof.
  induction fills as [|f fills IH]; intros index i; simpl; [done|].
  destruct (spec_last_contributor (index + 1) fills) as [j|] eqn:Hj.
  - intros [= <-]. specialize (IH _ _ Hj). lia.
  - destruct (0 <? f); [|done]. intros [= <-]. lia.
Qed.

Lemma spec_last_contributor_None (fills : list Z) : ∀ index,
  Forall (λ f, 0 ≤ f) fills →
  spec_last_contributor index fills = None ↔ spec_consumed fills = 0.
Proof.
  induction fills as [|f fills IH]; intros index Hall; simpl; [done|].
  apply Forall_cons_1 in Hall as [Hf Hall].
  assert (Hsum : 0 ≤ spec_consumed fills).
  { clear -Hall. induction Hall; simpl; lia. }
  specialize (IH (index + 1) Hall).
  destruct (spec_last_contributor (index + 1) fills) as [j|].
  - split; [done|]. intros Hz. assert (spec_consumed fills = 0) as Hz' by lia.
    by apply IH in Hz'.
  - destruct (0 <? f) eqn:Hq; [apply Z.ltb_lt in Hq|apply Z.ltb_ge in Hq].
    + split; [done|lia].
    + split; [|done]. intros _. assert (spec_consumed fills = 0) by by apply IH.
      lia.
Qed.

Lemma spec_fills_length (levels : list Row) : ∀ remaining,
  length (spec_fills remaining levels) = length levels.
Proof. induction levels as [|l levels IH]; intros remaining; simpl; auto. Qed.

(** X1.  For a non-negative request the VWAP pass reports as quantity the
    smaller of the request and the sum of the positive level quantities;
    the level it reports is -1 exactly when that quantity is 0 and
    otherwise an index into the sequence; and neither figure depends on
    the reserved prices, which only decide the price. *)
Theorem vwap_fill_bounds (P : MarketPrices) (requested : Z) (rows : list Row) :
  0 ≤ requested →
  let result := _calculateVwapForQty P requested rows in
  Vwap.qty result = Z.min requested (available_qty rows)
  ∧ (Vwap.level result = -1 ↔ Vwap.qty result = 0)
  ∧ -1 ≤ Vwap.level result < Z.of_nat (length rows)
  ∧ ∀ P' : MarketPrices,
      Vwap.qty (_calculateVwapForQty P' requested rows) = Vwap.qty result
      ∧ Vwap.level (_calculateVwapForQty P' requested rows)
        = Vwap.level result.
Proof.
  intros Hreq result. subst result. unfold _calculateVwapForQty.
  assert (Hfill : ∀ Q : MarketPrices,
    Vwap.qty (vwap_loop Q 0 rows requested 0 0%Qc (-1) newChecker)
    = spec_consumed (spec_fills requested rows)
    ∧ Vwap.level (vwap_loop Q 0 rows requested 0 0%Qc (-1) newChecker)
      = default (-1) (spec_last_contributor 0 (spec_fills requested rows))).
  { intros Q.
    by destruct (vwap_loop_fill Q rows 0 requested 0 0%Qc (-1) newChecker Hreq)
      as [-> ->]. }
  destruct (Hfill P) as [Hq Hl]. rewrite Hq, Hl.
  pose proof (spec_fills_nonneg rows requested Hreq) as Hnn.
  pose proof (spec_last_contributor_None (spec_fills requested rows) 0 Hnn)
    as Hnone.
  split; [by apply spec_consumed_min|]. split; [|split].
  - destruct (spec_last_contributor 0 (spec_fills requested rows)) as [i|] eqn:Hi;
      simpl.
    + apply spec_last_contributor_range in Hi.
      split; [lia|]. intros Hz. by apply Hnone in Hz.
    + split; [intros _; by apply Hnone|done].
  - destruct (spec_last_contributor 0 (spec_fills requested rows)) as [i|] eqn:Hi;
      simpl.
    + apply spec_last_contributor_range in Hi.
      rewrite spec_fills_length in Hi. lia.
    + lia.
  - intros P'. by destruct (Hfill P') as [-> ->].
Qed.

(** ** The VBBO pass: figures and frame *)

(** X2.  In a VBBO pass over an array without repetition every row gets as
    cumQty the sum of the quantities of the rows up to and including it;
    while no marker price has been met its vbbo is the cumulative notional
    divided by that cumulative quantity, or 0 when the cumulative quantity
    is not positive. *)
Theorem vbbo_without_marker (P : MarketPrices) (side : list (Key * ref))
    (h : Store) (pre post : list ref) (r : ref) (row : Row) :
  NoDup (pre ++ r :: post) →
  h !! r = Some row →
  let h' := _calculateVBBO P side (pre ++ r :: post) h in
  let seen := rows_of h pre ++ [row] in
  let cum := running_qty 0 seen in
  cumQty <$> h' !! r = Some cum
  ∧ (Forall (λ x, ¬ is_marker P (price x)) seen →
     vbbo <$> h' !! r
     = Some (if 0 <? cum
             then Some (running_value 0%Qc seen / Qc_of_Z cum)%Qc
             else Some 0%Qc)).
Proof.
  intros Hnd Hrow h' seen cum. subst h'. unfold _calculateVBBO.
  rewrite (vbbo_loop_lookup P pre r post 0%Qc 0 newChecker h row) by done.
  cbv zeta. fold seen. fold cum. simpl. split; [done|].
  intros Hclean. f_equal. unfold calculateRowPrice.
  rewrite observe_prices_clean by by apply Forall_fmap.
  destruct (0 <? cum) eqn:Hc; [|done].
  apply Number_div_pos. by apply Z.ltb_lt.
Qed.

(** X3.  The VBBO pass keeps the number of records, leaves every record
    that is not in the array as it is, and on the records of the array
    changes nothing but cumQty and vbbo. *)
Theorem vbbo_pass_frame (P : MarketPrices) (side : list (Key * ref))
    (h : Store) (sortedArray : list ref) :
  let h' := _calculateVBBO P side sortedArray h in
  length h' = length h
  ∧ (∀ r, r ∉ sortedArray → h' !! r = h !! r)
  ∧ (∀ r, h !! r = None → h' !! r = None)
  ∧ (∀ r row, h !! r = Some row →
       ∃ row', h' !! r = Some row'
               ∧ price row' = price row ∧ qty row' = qty row
               ∧ venue row' = venue row ∧ key row' = key row).
Proof.
  intros h'. subst h'. unfold _calculateVBBO. split; [|split; [|split]].
  - apply vbbo_loop_length.
  - intros r Hr. by apply vbbo_loop_frame.
  - intros r Hr. apply lookup_ge_None. rewrite vbbo_loop_length.
    by apply lookup_ge_None.
  - intros r row Hr. by apply vbbo_loop_fields.
Qed.

(** ** The comparators *)

Lemma Qcminus_neg_iff (a b : Qc) : (a - b < 0)%Qc ↔ (a < b)%Qc.
Proof.
  rewrite (Qcplus_lt_mono_r (a - b) 0 b).
  replace (a - b + b)%Qc with a by ring. by replace (0 + b)%Qc with b by ring.
Qed.

Lemma Qcminus_zero_iff (a b : Qc) : (a - b)%Qc = 0%Qc ↔ a = b.
Proof.
  split.
  - intros Hz. replace a with (a - b + b)%Qc by ring. rewrite Hz. ring.
  - intros ->. ring.
Qed.

(** X4.  On the sell side the lower price comes first and two levels of
    different prices compare in opposite ways in the two orders; on the buy
    side a level of price 0 comes before every level of another price,
    whatever that price is, and between two other levels the higher price
    comes first.  Levels of equal price are left to [compareCommon]. *)
Theorem compare_by_price (lhs rhs : Row) :
  (price lhs ≠ price rhs →
     _compareSell lhs rhs = CmpNumber (price lhs - price rhs)%Qc
     ∧ ((ToNumber (_compareSell lhs rhs) < 0)%Qc ↔ (price lhs < price rhs)%Qc)
     ∧ ToNumber (_compareSell rhs lhs) = (- ToNumber (_compareSell lhs rhs))%Qc)
  ∧ (price lhs = price rhs →
     _compareSell lhs rhs = compareCommon lhs rhs
     ∧ _compareBuy lhs rhs = compareCommon lhs rhs)
  ∧ (price lhs = 0%Qc → price rhs ≠ 0%Qc →
     _compareBuy lhs rhs = CmpNumber (-1)%Qc
     ∧ _compareBuy rhs lhs = CmpNumber 1%Qc)
  ∧ (price lhs ≠ 0%Qc → price rhs ≠ 0%Qc → price lhs ≠ price rhs →
     _compareBuy lhs rhs = CmpNumber (price rhs - price lhs)%Qc
     ∧ ((ToNumber (_compareBuy lhs rhs) < 0)%Qc ↔ (price rhs < price lhs)%Qc)
     ∧ ToNumber (_compareBuy rhs lhs) = (- ToNumber (_compareBuy lhs rhs))%Qc).
Proof.
  unfold _compareSell, _compareBuy. cbv zeta. split; [|split; [|split]].
  - intros Hne.
    rewrite (decide_False (P := 0%Qc = (price lhs - price rhs)%Qc))
      by (intros Hz; symmetry in Hz; apply (proj1 (Qcminus_zero_iff _ _)) in Hz;
          congruence).
    rewrite (decide_False (P := 0%Qc = (price rhs - price lhs)%Qc))
      by (intros Hz; symmetry in Hz; apply (proj1 (Qcminus_zero_iff _ _)) in Hz;
          congruence).
    simpl. split; [done|]. split; [apply Qcminus_neg_iff|ring].
  - intros Heq. rewrite Heq.
    rewrite (decide_True (P := 0%Qc = (price rhs - price rhs)%Qc))
      by (symmetry; by apply Qcminus_zero_iff).
    split; [done|]. by destruct (decide (0%Qc = price rhs)).
  - intros Hl Hr. rewrite Hl.
    rewrite (decide_True (P := 0%Qc = 0%Qc)) by done.
    by rewrite !decide_False by congruence.
  - intros Hl Hr Hne.
    rewrite !(decide_False (P := 0%Qc = price lhs)) by congruence.
    rewrite !(decide_False (P := 0%Qc = price rhs)) by congruence.
    rewrite (decide_False (P := 0%Qc = (price lhs - price rhs)%Qc))
      by (intros Hz; symmetry in Hz; apply (proj1 (Qcminus_zero_iff _ _)) in Hz;
          congruence).
    rewrite (decide_False (P := 0%Qc = (price rhs - price lhs)%Qc))
      by (intros Hz; symmetry in Hz; apply (proj1 (Qcminus_zero_iff _ _)) in Hz;
          congruence).
    simpl. split; [done|]. split; [apply Qcminus_neg_iff|ring].
Qed.

Lemma ltb_total (s t : string) :
  s ≠ t → String.ltb s t = negb (String.ltb t s).
Proof.
  intros Hne. unfold String.ltb. rewrite (String.compare_antisym t s).
  destruct (s ?= t)%string eqn:Hc; simpl; try done.
  by apply String.compare_eq_iff in Hc.
Qed.

Lemma ltb_irrefl (s : string) : String.ltb s s = false.
Proof.
  unfold String.ltb. pose proof (String.compare_antisym s s) as Ha.
  by destruct (s ?= s)%string.
Qed.

(** X5.  On levels of equal quantity [compareCommon] is not a consistent
    comparator: two levels of the preferred venue each come before the
    other; two levels of different other venues give 1 in one order and 0,
    not -1, in the other; two levels of the same other venue give 0 both
    ways. *)
Theorem compareCommon_both_orders (lhs rhs : Row) :
  qty lhs = qty rhs →
  (venue lhs = "XEQT"%string → venue rhs = "XEQT"%string →
     compareCommon lhs rhs = CmpNumber (-1)%Qc
     ∧ compareCommon rhs lhs = CmpNumber (-1)%Qc)
  ∧ (venue lhs ≠ "XEQT"%string → venue rhs ≠ "XEQT"%string →
     venue lhs ≠ venue rhs →
     (ToNumber (compareCommon lhs rhs) = 1%Qc
      ∧ ToNumber (compareCommon rhs lhs) = 0%Qc)
     ∨ (ToNumber (compareCommon lhs rhs) = 0%Qc
        ∧ ToNumber (compareCommon rhs lhs) = 1%Qc))
  ∧ (venue lhs ≠ "XEQT"%string → venue lhs = venue rhs →
     ToNumber (compareCommon lhs rhs) = 0%Qc
     ∧ ToNumber (compareCommon rhs lhs) = 0%Qc).
Proof.
  intros Hq. unfold compareCommon. cbv zeta. rewrite Hq.
  rewrite !(decide_True (P := 0 = qty rhs - qty rhs)) by lia.
  split; [|split].
  - intros Hl Hr.
    by rewrite (decide_True (P := venue lhs = "XEQT"%string)),
      (decide_True (P := venue rhs = "XEQT"%string)).
  - intros Hl Hr Hne.
    rewrite !(decide_False (P := venue lhs = "XEQT"%string)) by done.
    rewrite !(decide_False (P := venue rhs = "XEQT"%string)) by done.
    rewrite (ltb_total (venue lhs) (venue rhs)) by done.
    destruct (String.ltb (venue rhs) (venue lhs)); simpl; auto.
  - intros Hl Heq. rewrite <- Heq.
    rewrite !(decide_False (P := venue lhs = "XEQT"%string)) by done.
    by rewrite ltb_irrefl.
Qed.

(** ** Updates of the storage *)

Lemma obj_delete_absent {K V : Type} `{EqDecision K} (o : list (K * V)) k :
  obj_get k o = None → obj_delete k o = o.
Proof.
  induction o as [|[k' v'] o IH]; simpl; [done|].
  destruct (decide (k' = k)); [done|]. intros Hget. by rewrite IH.
Qed.

Lemma obj_delete_length {K V : Type} `{EqDecision K} (o : list (K * V)) k :
  NoDup (obj_keys o) → is_Some (obj_get k o) →
  S (length (obj_delete k o)) = length o.
Proof.
  unfold obj_keys. induction o as [|[k' v'] o IH]; simpl; intros Hnd Hget.
  - by destruct Hget.
  - apply list.NoDup_cons in Hnd as [Hk' Hnd].
    destruct (decide (k' = k)) as [->|Hne]; simpl.
    + rewrite obj_delete_absent; [done|]. by apply obj_get_None.
    + by rewrite IH.
Qed.

Lemma obj_delete_keys_NoDup {K V : Type} `{EqDecision K} (o : list (K * V)) k :
  NoDup (obj_keys o) → NoDup (obj_keys (obj_delete k o)).
Proof.
  intros Hnd. eapply sublist_NoDup; [exact Hnd|].
  unfold obj_keys. apply fmap_sublist, obj_delete_sublist.
Qed.

Lemma store_apply_upserts (us : list Upsert) : ∀ b : BookData,
  store (apply_upserts us b) = store b ++ (row_of_upsert <$> us).
Proof.
  induction us as [|u us IH]; intros b.
  - by rewrite app_nil_r.
  - change (apply_upserts (u :: us) b) with (apply_upserts us (apply_upsert b u)).
    rewrite IH. unfold apply_upsert. rewrite store_updateBook.
    by rewrite <- app_assoc.
Qed.

(** An update addressed elsewhere leaves the entry of the key alone. *)
Lemma apply_upsert_elsewhere (b : BookData) (side : Z) (k : Key) (u : Upsert) :
  ¬ addresses side k u →
  obj_get k (sideData side (apply_upsert b u)) = obj_get k (sideData side b).
Proof.
  unfold addresses, apply_upsert, updateBook, sideData, _setSideData.
  cbv zeta. cbn [qty key _createRow]. intros Hno.
  destruct (decide (up_side u = BUY_SIDE)) as [Hu|Hu],
    (decide (side = BUY_SIDE)) as [Hs|Hs]; cbn [buySide sellSide];
    try done;
    (assert (Hk : _createKeyData (up_venue u) (up_level u) ≠ k)
       by (intros Heq; apply Hno; split; [by split|done]));
    destruct (decide (up_qty u = 0));
    by rewrite ?obj_get_delete_ne, ?obj_get_set_ne.
Qed.

(** An update addressed to the key decides its entry. *)
Lemma apply_upsert_here (b : BookData) (side : Z) (k : Key) (u : Upsert) :
  addresses side k u →
  obj_get k (sideData side (apply_upsert b u))
  = if decide (up_qty u = 0) then None else Some (length (store b)).
Proof.
  unfold addresses, apply_upsert, updateBook, sideData, _setSideData.
  cbv zeta. cbn [qty key _createRow]. intros [Hside <-].
  destruct (decide (up_side u = BUY_SIDE)) as [Hu|Hu],
    (decide (side = BUY_SIDE)) as [Hs|Hs]; cbn [buySide sellSide];
    try (exfalso; tauto);
    destruct (decide (up_qty u = 0));
    by rewrite ?obj_get_delete_eq, ?obj_get_set_eq.
Qed.

Lemma apply_upserts_elsewhere (side : Z) (k : Key) (us : list Upsert) :
  ∀ b : BookData,
    Forall (λ u, ¬ addresses side k u) us →
    obj_get k (sideData side (apply_upserts us b)) = obj_get k (sideData side b).
Proof.
  induction us as [|u us IH]; intros b Hall; [done|].
  apply Forall_cons_1 in Hall as [Hu Hall].
  change (apply_upserts (u :: us) b) with (apply_upserts us (apply_upsert b u)).
  rewrite IH by done. by apply apply_upsert_elsewhere.
Qed.

(** X6.  In a run of updates the last one addressed to a side and key
    decides the entry of that key: with quantity 0 the key is absent, with
    another quantity it refers to the record created for that update, which
    holds the update's price, quantity and venue.  Updates addressed to the
    other side or to other keys leave the entry as it was.  Every update
    creates one record, and no update changes or removes a record. *)
Theorem updates_last_writer_wins (b : BookData) (side : Z) (k : Key)
    (us : list Upsert) :
  let b' := apply_upserts us b in
  (Forall (λ u, ¬ addresses side k u) us →
   obj_get k (sideData side b') = obj_get k (sideData side b))
  ∧ (∀ pre u post,
       us = pre ++ u :: post →
       addresses side k u →
       Forall (λ u', ¬ addresses side k u') post →
       let r := (length (store b) + length pre)%nat in
       (up_qty u = 0 → obj_get k (sideData side b') = None)
       ∧ (up_qty u ≠ 0 →
          obj_get k (sideData side b') = Some r
          ∧ store b' !! r = Some (row_of_upsert u)))
  ∧ length (store b') = (length (store b) + length us)%nat
  ∧ (∀ r row, store b !! r = Some row → store b' !! r = Some row).
Proof.
  intros b'. subst b'. split; [apply apply_upserts_elsewhere|].
  split; [|split].
  - intros pre u post -> Hu Hpost. cbv zeta.
    unfold apply_upserts at 1 2. rewrite foldl_app. cbn [foldl].
    fold (apply_upserts pre b).
    fold (apply_upserts post (apply_upsert (apply_upserts pre b) u)).
    rewrite (apply_upserts_elsewhere side k post) by done.
    rewrite apply_upsert_here by done.
    rewrite store_apply_upserts, length_app, length_fmap.
    split.
    + intros Hq. by rewrite decide_True.
    + intros Hq. rewrite decide_False by done. split; [done|].
      rewrite store_apply_upserts.
      rewrite lookup_app_r by lia.
      replace (length (store b) + length pre - length (store b))%nat
        with (length pre) by lia.
      rewrite list_lookup_fmap, list_lookup_middle; done.
  - by rewrite store_apply_upserts, length_app, length_fmap.
  - intros r row Hr. rewrite store_apply_upserts.
    rewrite lookup_app_l; [done|]. by eapply lookup_lt_Some.
Qed.

(** X7.  On a side whose keys are distinct, an update with quantity 0 for
    a key that is not stored changes nothing and for a stored key removes
    exactly one entry; an update with another quantity for a new key adds
    the entry at the end and for a stored key keeps the keys and their
    order.  The keys stay distinct. *)
Theorem updateBook_level_count (b : BookData) (level side q : Z)
    (price : Qc) (venue : string) :
  NoDup (obj_keys (sideData side b)) →
  let k := _createKeyData venue level in
  let old := sideData side b in
  let new := sideData side (updateBook level side q price venue b) in
  NoDup (obj_keys new)
  ∧ (q = 0 → obj_get k old = None → new = old)
  ∧ (q = 0 → is_Some (obj_get k old) → S (length new) = length old)
  ∧ (q ≠ 0 → obj_get k old = None → new = old ++ [(k, length (store b))])
  ∧ (q ≠ 0 → is_Some (obj_get k old) →
     obj_keys new = obj_keys old
     ∧ obj_get k new = Some (length (store b))).
Proof.
  intros Hnd k old new. subst new old. rewrite sideData_updateBook.
  unfold _setSideData. cbn [key qty _createRow]. fold k.
  split; [|split; [|split; [|split]]].
  - destruct (decide (q = 0));
      [by apply obj_delete_keys_NoDup | by apply obj_set_keys_NoDup].
  - intros -> Hget. cbn. by apply obj_delete_absent.
  - intros -> Hget. cbn. by apply obj_delete_length.
  - intros Hq Hget. rewrite decide_False by done.
    apply obj_set_fresh. by apply obj_get_None.
  - intros Hq Hget. rewrite decide_False by done.
    split; [|apply obj_get_set_eq].
    rewrite obj_keys_set. rewrite decide_True; [done|].
    destruct (decide (k ∈ obj_keys (sideData side b))) as [|Hnin]; [done|].
    apply obj_get_None in Hnin. rewrite Hnin in Hget. by destruct Hget.
Qed.

(** ** What a redisplay leaves in the book *)

(** [_aggregate] never changes a price, nor the number of records. *)
Lemma aggregate_byPrice_price side : ∀ bpm (h : Store) x,
  price <$> (aggregate_byPrice side bpm h).2 !! x = price <$> h !! x.
Proof.
  induction side as [|[k value] side IH]; intros bpm h x; [done|].
  destruct (h !! value) as [v|] eqn:Hv.
  - destruct (obj_get (roundedPrice v) bpm) as [s'|] eqn:Hget'.
    + rewrite (aggregate_byPrice_cons_merge k value _ bpm h v s') by done.
      rewrite IH, list_lookup_alter. destruct (decide (s' = x)) as [->|]; [|done].
      destruct (h !! x); [|done]. simpl. by rewrite merge_level_price.
    + rewrite (aggregate_byPrice_cons_seed k value _ bpm h v) by done.
      by apply IH.
  - rewrite aggregate_byPrice_cons_None by done. by apply IH.
Qed.

Lemma _aggregate_price side (h : Store) x :
  price <$> (_aggregate side h).2 !! x = price <$> h !! x.
Proof.
  rewrite _aggregate_unfold, aggregate_transpose_lookup.
  destruct (decide _).
  - rewrite <- (aggregate_byPrice_price side [] h x).
    by destruct (_ !! x).
  - apply aggregate_byPrice_price.
Qed.

Lemma _calculateVBBO_price (P : MarketPrices) side sortedArray (h : Store) x :
  price <$> _calculateVBBO P side sortedArray h !! x = price <$> h !! x.
Proof.
  destruct (h !! x) as [row|] eqn:Hx.
  - destruct (_calculateVBBO_fields P side sortedArray h x row Hx)
      as (row' & -> & Hp & _). simpl. by rewrite Hp.
  - assert (Hnone : _calculateVBBO P side sortedArray h !! x = None).
    { apply lookup_ge_None. unfold _calculateVBBO. rewrite vbbo_loop_length.
      by apply lookup_ge_None. }
    by rewrite Hnone.
Qed.

(** X8.  A redisplay, consolidated or not, leaves both side mappings, the
    number of records and every price as they are; an unconsolidated one
    also leaves every quantity, venue and key: it writes cumQty and vbbo
    only. *)
Theorem redisplay_preserves (P : MarketPrices)
    (sort : ∀ A : Type, (A → A → CompareResult) → list A → list A)
    (b : BookData) :
  (∀ consolidated,
     let b' := (redisplay P sort consolidated b).1 in
     buySide b' = buySide b
     ∧ sellSide b' = sellSide b
     ∧ length (store b') = length (store b)
     ∧ ∀ r, price <$> store b' !! r = price <$> store b !! r)
  ∧ (∀ r row,
       store b !! r = Some row →
       ∃ row', store (redisplay P sort false b).1 !! r = Some row'
               ∧ price row' = price row ∧ qty row' = qty row
               ∧ venue row' = venue row ∧ key row' = key row).
Proof.
  split.
  - intros consolidated b'. subst b'.
    destruct (redisplay_sides P sort consolidated b) as [-> ->].
    split; [done|]. split; [done|].
    rewrite redisplay_unfold. cbv zeta. cbn [store]. split.
    + unfold _calculateVBBO. rewrite !vbbo_loop_length.
      destruct consolidated; [|done]. cbn [snd]. by rewrite !_aggregate_length.
    + intros r. rewrite !_calculateVBBO_price.
      destruct consolidated; [|done]. cbn [snd]. by rewrite !_aggregate_price.
  - intros r row Hr. rewrite redisplay_unfold. cbv zeta. cbn [store fst snd].
    destruct (_calculateVBBO_fields P (buySide b)
                (truncate false (_sortValues sort (store b) (buySide b)
                                   _compareBuy))
                (store b) r row Hr) as (row1 & Hr1 & ? & ? & ? & ?).
    destruct (_calculateVBBO_fields P (sellSide b)
                (truncate false (_sortValues sort (store b) (sellSide b)
                                   _compareSell))
                _ r row1 Hr1) as (row2 & Hr2 & ? & ? & ? & ?).
    exists row2. split; [done|]. repeat split; congruence.
Qed.

(** X9.  A redisplay of a book that was just reset, or never filled, sends
    a row count of 0, no row and the notification, and leaves both sorted
    arrays empty and the records untouched. *)
Theorem redisplay_after_reset (P : MarketPrices)
    (sort : ∀ A : Type, (A → A → CompareResult) → list A → list A)
    (b : BookData) (consolidated : bool) :
  (∀ (A : Type) (compare : A → A → CompareResult) (l : list A),
      sort A compare l ≡ₚ l) →
  redisplay P sort consolidated (resetData b)
  = (resetData b, [ResetWithCount 0; OnRedisplay])
  ∧ redisplay P sort consolidated newBookData
    = (newBookData, [ResetWithCount 0; OnRedisplay]).
Proof.
  intros Hsort.
  assert (Hnil : ∀ (h : Store) compare, _sortValues sort h [] compare = []).
  { intros h compare. unfold _sortValues. apply Permutation_nil_r.
    apply Hsort. }
  split; unfold redisplay; destruct consolidated; cbn [resetData newBookData
    store buySide sellSide _aggregate aggregate_byPrice aggregate_transpose];
    cbv zeta; rewrite !Hnil; reflexivity.
Qed.

(** ** What a redisplay sends *)

Lemma rows_of_lookup (h : Store) (refs : list ref) : ∀ (i : nat) (r : ref),
  refs_valid h refs → refs !! i = Some r → rows_of h refs !! i = h !! r.
Proof.
  induction refs as [|a refs IH]; intros i r Hvalid Hi; [done|].
  destruct (lookup_lt_is_Some_2 h a) as [row Hrow].
  { apply Hvalid, list_elem_of_here. }
  rewrite (rows_of_cons_Some h a refs row) by done.
  destruct i as [|i]; simpl in *.
  - by injection Hi as <-.
  - apply IH; [|done]. intros x Hx. by apply Hvalid, list_elem_of_further.
Qed.

Lemma _redisplaySide_lookup (h : Store) (sortedArray : list ref) (side : Z)
    (i : nat) (r : ref) (row : Row) :
  refs_valid h sortedArray →
  sortedArray !! i = Some r → h !! r = Some row →
  _redisplaySide h sortedArray side !! i
  = Some (UpdateBook
            (Update.mk i side (qty row)
               (toFixed4 (Number_of_Fixed4 (toFixed4 (price row))))
               (venue row) (cumQty row) (toFixed4 <$> vbbo row))).
Proof.
  intros Hvalid Hi Hr. unfold _redisplaySide.
  by rewrite list_lookup_imap, (rows_of_lookup h sortedArray i r), Hr.
Qed.

(** X10.  On a book that satisfies the invariant, a redisplay sends first
    the row count, the larger of the two array lengths, then one row per
    entry of the sorted buy array and one per entry of the sorted sell
    array, each side numbered from 0 and carrying the record's quantity,
    venue and cumulative quantity with price and vbbo as four-decimal
    texts, and last the notification. *)
Theorem redisplay_rows (P : MarketPrices)
    (sort : ∀ A : Type, (A → A → CompareResult) → list A → list A)
    (consolidated : bool) (b : BookData) :
  (∀ (A : Type) (compare : A → A → CompareResult) (l : list A),
      sort A compare l ≡ₚ l) →
  book_wf b →
  let b' := (redisplay P sort consolidated b).1 in
  let events := (redisplay P sort consolidated b).2 in
  let row_event (side : Z) (i : nat) (row : Row) :=
    UpdateBook
      (Update.mk i side (qty row)
         (toFixed4 (Number_of_Fixed4 (toFixed4 (price row))))
         (venue row) (cumQty row) (toFixed4 <$> vbbo row)) in
  length events = (2 + length (sortedBuy b') + length (sortedSell b'))%nat
  ∧ events !! 0%nat
    = Some (ResetWithCount
              (length (sortedBuy b') `max` length (sortedSell b')))
  ∧ (∀ i r row,
       sortedBuy b' !! i = Some r → store b' !! r = Some row →
       events !! (1 + i)%nat = Some (row_event BUY_SIDE i row))
  ∧ (∀ i r row,
       sortedSell b' !! i = Some r → store b' !! r = Some row →
       events !! (1 + length (sortedBuy b') + i)%nat
       = Some (row_event SELL_SIDE i row))
  ∧ events !! (1 + length (sortedBuy b') + length (sortedSell b'))%nat
    = Some OnRedisplay.
Proof.
  intros Hsort Hwf b' events row_event. subst events row_event.
  rewrite redisplay_events. cbv zeta. fold b'.
  destruct (book_wf_redisplay P sort Hsort consolidated b Hwf)
    as [_ _ Hvb Hvs _ _]. fold b' in Hvb, Hvs.
  pose proof (_redisplaySide_length (store b') (sortedBuy b') BUY_SIDE Hvb)
    as Hlb.
  pose proof (_redisplaySide_length (store b') (sortedSell b') SELL_SIDE Hvs)
    as Hls.
  split; [|split; [|split; [|split]]].
  - cbn [length]. rewrite !length_app, Hlb, Hls. simpl. lia.
  - cbn. do 2 f_equal. case_bool_decide; lia.
  - intros i r row Hi Hr. change (1 + i)%nat with (S i). rewrite lookup_cons.
    rewrite lookup_app_l by (rewrite Hlb; by eapply lookup_lt_Some).
    by eapply _redisplaySide_lookup.
  - intros i r row Hi Hr.
    change (1 + length (sortedBuy b') + i)%nat
      with (S (length (sortedBuy b') + i)).
    rewrite lookup_cons.
    rewrite lookup_app_r by (rewrite Hlb; lia).
    rewrite Hlb. replace (length (sortedBuy b') + i - length (sortedBuy b'))%nat
      with i by lia.
    rewrite lookup_app_l by (rewrite Hls; by eapply lookup_lt_Some).
    by eapply _redisplaySide_lookup.
  - change (1 + length (sortedBuy b') + length (sortedSell b'))%nat
      with (S (length (sortedBuy b') + length (sortedSell b'))).
    rewrite lookup_cons.
    rewrite lookup_app_r by (rewrite Hlb; lia).
    rewrite Hlb.
    replace (length (sortedBuy b') + length (sortedSell b')
             - length (sortedBuy b'))%nat
      with (length (sortedSell b')) by lia.
    rewrite lookup_app_r by (rewrite Hls; lia).
    rewrite Hls. by rewrite Nat.sub_diag.
Qed.

(** ** The price text sent to the callback *)

Lemma Qfloor_half (n : Z) : Qfloor (inject_Z n + (1 # 2))%Q = n.
Proof.
  pose proof (Qfloor_le (inject_Z n + (1 # 2))) as Hle.
  pose proof (Qlt_floor (inject_Z n + (1 # 2))) as Hlt.
  set (f := Qfloor (inject_Z n + (1 # 2))%Q) in *.
  unfold Qle, Qlt in *. simpl in *. lia.
Qed.

Lemma scaled_digits (n : Z) :
  ((n # 10000) * inject_Z 10000 == inject_Z n)%Q.
Proof. unfold Qeq. simpl. lia. Qed.

Lemma toFixed4_of_digits (n : Z) :
  0 ≤ n → toFixed4 (Q2Qc (n # 10000)) = {| f4_minus := false; f4_digits := n |}.
Proof.
  intros Hn. unfold toFixed4. f_equal.
  - apply bool_decide_eq_false_2. unfold Qclt.
    change (this (Q2Qc (n # 10000))) with (Qred (n # 10000)).
    rewrite Qred_correct. unfold Qlt. simpl. lia.
  - transitivity (Qfloor (inject_Z n + (1 # 2))%Q); [|apply Qfloor_half].
    apply Qfloor_comp.
    change (this (Q2Qc (n # 10000))) with (Qred (n # 10000)).
    rewrite Qred_correct, Qabs_pos by (unfold Qle; simpl; lia).
    by rewrite scaled_digits.
Qed.

Lemma toFixed4_of_minus_digits (n : Z) :
  0 < n →
  toFixed4 (- Q2Qc (n # 10000))%Qc = {| f4_minus := true; f4_digits := n |}.
Proof.
  intros Hn. unfold toFixed4. f_equal.
  - apply bool_decide_eq_true_2. unfold Qclt.
    change (this (- Q2Qc (n # 10000))%Qc) with (Qred (- Qred (n # 10000))).
    rewrite !Qred_correct. unfold Qlt. simpl. lia.
  - transitivity (Qfloor (inject_Z n + (1 # 2))%Q); [|apply Qfloor_half].
    apply Qfloor_comp.
    change (this (- Q2Qc (n # 10000))%Qc) with (Qred (- Qred (n # 10000))).
    rewrite !Qred_correct, Qabs_opp, Qabs_pos by (unfold Qle; simpl; lia).
    by rewrite scaled_digits.
Qed.

Lemma toFixed4_digits_nonneg (x : Qc) : 0 ≤ f4_digits (toFixed4 x).
Proof.
  unfold toFixed4. cbn [f4_digits].
  change 0 with (Qfloor (inject_Z 0)). apply Qfloor_resp_le.
  pose proof (Qabs_nonneg x) as Habs.
  assert (0 <= Qabs x * inject_Z 10000)%Q.
  { apply Qmult_le_0_compat; [done|]. unfold Qle. simpl. lia. }
  assert (0 <= 1 # 2)%Q by (unfold Qle; simpl; lia).
  change (inject_Z 0) with (0 + 0)%Q. by apply Qplus_le_compat.
Qed.

(** X11.  The price text of a row is formatted, parsed back and formatted
    again before it is sent; the second text has the digits of the first
    and its sign unless all digits are 0, so for a price that is not
    negative the callback receives the four-decimal rounding of the price
    unchanged. *)
Theorem displayed_price_text (x : Qc) :
  let t := toFixed4 x in
  0 ≤ f4_digits t
  ∧ toFixed4 (Number_of_Fixed4 t)
    = {| f4_minus := f4_minus t && bool_decide (f4_digits t ≠ 0);
         f4_digits := f4_digits t |}
  ∧ ((0 ≤ x)%Qc →
     ∀ level side qty venue cumQty vbbo,
       Update.price (createUpdateObj level side qty t venue cumQty vbbo) = t).
Proof.
  intros t. pose proof (toFixed4_digits_nonneg x) as Hnn. fold t in Hnn.
  assert (Hround : toFixed4 (Number_of_Fixed4 t)
                   = {| f4_minus := f4_minus t && bool_decide (f4_digits t ≠ 0);
                        f4_digits := f4_digits t |}).
  { unfold Number_of_Fixed4. cbv zeta. destruct (f4_minus t); cbn [andb].
    - destruct (decide (f4_digits t = 0)) as [Hz|Hnz].
      + rewrite Hz. by vm_compute.
      + rewrite toFixed4_of_minus_digits by lia.
        by rewrite bool_decide_eq_true_2.
    - by apply toFixed4_of_digits. }
  split; [done|]. split; [done|].
  intros Hx level side qty venue cumQty vbbo.
  unfold createUpdateObj. cbn [Update.price]. rewrite Hround.
  assert (Hplus : f4_minus t = false).
  { subst t. unfold toFixed4. cbn [f4_minus]. apply bool_decide_eq_false_2.
    intros Hlt. by apply Qclt_not_le in Hlt. }
  clearbody t. destruct t as [m d]. cbn [f4_minus f4_digits] in *.
  by subst m.
Qed.

(** ** What the aggregation returns and what it leaves alone *)

(** The first loop files the rounded price of every record it meets. *)
Lemma aggregate_byPrice_files side : ∀ bpm (h : Store) x rp,
  x ∈ obj_values side →
  roundedPrice <$> h !! x = Some rp →
  is_Some (obj_get rp (aggregate_byPrice side bpm h).1).
Proof.
  induction side as [|[k value] side IH]; intros bpm h x rp Hx Hrp.
  { by apply elem_of_nil in Hx. }
  rewrite obj_values_cons in Hx. apply elem_of_cons in Hx as [->|Hx].
  - destruct (h !! value) as [v|] eqn:Hv; [|done].
    injection Hrp as <-.
    destruct (obj_get (roundedPrice v) bpm) as [s|] eqn:Hget.
    + rewrite (aggregate_byPrice_cons_merge k value _ bpm h v s) by done.
      exists s. by apply aggregate_byPrice_keeps.
    + rewrite (aggregate_byPrice_cons_seed k value _ bpm h v) by done.
      exists value. apply aggregate_byPrice_keeps, obj_get_set_eq.
  - destruct (h !! value) as [v|] eqn:Hv.
    + destruct (obj_get (roundedPrice v) bpm) as [s|] eqn:Hget.
      * rewrite (aggregate_byPrice_cons_merge k value _ bpm h v s) by done.
        apply (IH _ _ x); [done|].
        rewrite list_lookup_alter. destruct (decide (s = x)) as [->|]; [|done].
        destruct (h !! x); [|done]. simpl in *.
        by rewrite merge_level_rounded.
      * rewrite (aggregate_byPrice_cons_seed k value _ bpm h v) by done.
        by apply (IH _ _ x).
    + rewrite aggregate_byPrice_cons_None by done. by apply (IH _ _ x).
Qed.

(** A record that comes after another of the same rounded price is never
    filed, and so never written to. *)
Lemma _aggregate_later before k x after (h : Store) xrow y :
  NoDup (obj_values (before ++ (k, x) :: after)) →
  h !! x = Some xrow →
  y ∈ obj_values before →
  roundedPrice <$> h !! y = Some (roundedPrice xrow) →
  (_aggregate (before ++ (k, x) :: after) h).2 !! x = Some xrow.
Proof.
  intros Hnd Hx Hy Hrp.
  rewrite obj_values_app, obj_values_cons in Hnd.
  apply list.NoDup_app in Hnd as (_ & Hdisj & Hnd).
  apply list.NoDup_cons in Hnd as [Hafter _].
  assert (Hnot : x ∉ obj_values
            (aggregate_byPrice (before ++ (k, x) :: after) [] h).1).
  { rewrite aggregate_byPrice_app.
    destruct (aggregate_byPrice_files before [] h y _ Hy Hrp) as [s Hs].
    pose proof (aggregate_byPrice_rounded before [] h x) as Hrx.
    rewrite Hx in Hrx.
    destruct ((aggregate_byPrice before [] h).2 !! x) as [xrow1|] eqn:Hx1;
      [|done].
    change (Some (roundedPrice xrow1) = Some (roundedPrice xrow)) in Hrx.
    assert (Hsame : roundedPrice xrow1 = roundedPrice xrow) by congruence.
    rewrite (aggregate_byPrice_cons_merge k x _ _ _ xrow1 s)
      by (by rewrite ?Hsame).
    intros Hin. apply aggregate_byPrice_values in Hin as [Hin|Hin]; [|done].
    apply aggregate_byPrice_values in Hin as [Hin|Hin].
    - by apply elem_of_nil in Hin.
    - apply (Hdisj x Hin), list_elem_of_here. }
  rewrite _aggregate_unfold, aggregate_transpose_lookup.
  rewrite decide_False by done.
  by rewrite aggregate_byPrice_frame.
Qed.

(** X12.  The aggregation of a side that holds no record twice returns at
    most as many levels as the side has, one per rounded price, each a
    record of the side whose venue is now the empty string.  It changes no
    record outside the side, and none that comes after a record of the same
    rounded price: only the first record of each price group is written
    to. *)
Theorem aggregate_levels (h : Store) (side : list (Key * ref)) :
  NoDup (obj_values side) →
  let result := (_aggregate side h).1 in
  let h' := (_aggregate side h).2 in
  (length result ≤ length side)%nat
  ∧ NoDup (roundedPrice <$> rows_of h' (obj_values result))
  ∧ (∀ r, r ∈ obj_values result →
       r ∈ obj_values side ∧ venue <$> h' !! r = Some ""%string)
  ∧ length h' = length h
  ∧ (∀ x, x ∉ obj_values side → h' !! x = h !! x)
  ∧ (∀ before k x after xrow y,
       side = before ++ (k, x) :: after →
       h !! x = Some xrow →
       y ∈ obj_values before →
       roundedPrice <$> h !! y = Some (roundedPrice xrow) →
       h' !! x = Some xrow).
Proof.
  intros Hnd result h'. subst result h'.
  split; [|split; [|split; [|split; [|split]]]].
  - rewrite <- (length_fmap snd (_aggregate side h).1).
    rewrite <- (length_fmap snd side).
    apply submseteq_length, NoDup_submseteq.
    + by apply _aggregate_NoDup.
    + intros r. apply _aggregate_values.
  - by apply _aggregate_output.
  - intros r Hr. split; [by apply _aggregate_values in Hr|].
    rewrite _aggregate_unfold in *.
    apply aggregate_transpose_values in Hr as [Hr|Hr];
      [by apply elem_of_nil in Hr|].
    rewrite aggregate_transpose_lookup, decide_True by done.
    assert (Hidx : byPrice_indexed (aggregate_byPrice side [] h).2
                     (aggregate_byPrice side [] h).1).
    { apply aggregate_byPrice_indexed. by intros s Hs%elem_of_nil. }
    by destruct (Hidx r Hr) as (srow & -> & _).
  - apply _aggregate_length.
  - intros x. apply _aggregate_frame.
  - intros before k x after xrow y -> Hx Hy Hrp.
    by eapply _aggregate_later.
Qed.

(** ** Consolidated redisplays in a row *)

Lemma running_qty_start (rows : list Row) : ∀ start,
  running_qty start rows = start + running_qty 0 rows.
Proof.
  unfold running_qty. induction rows as [|row rows IH]; intros start.
  - simpl. lia.
  - cbn [foldl]. rewrite (IH (start + qty row)), (IH (0 + qty row)). lia.
Qed.

Lemma rounded_of_price (a b : option Row) :
  price <$> a = price <$> b → roundedPrice <$> a = roundedPrice <$> b.
Proof.
  destruct a as [ra|], b as [rb|]; simpl; try done.
  intros [= Hp]. unfold roundedPrice. by rewrite Hp.
Qed.

(** The total quantity of a price group only depends on the prices of the
    records read and on the quantities of the members. *)
Lemma group_qty_ext (rp : Fixed4) (h h' : Store) (refs : list ref) :
  (∀ x, x ∈ refs → price <$> h' !! x = price <$> h !! x) →
  (∀ x xrow, x ∈ refs → h !! x = Some xrow → roundedPrice xrow = rp →
             qty <$> h' !! x = Some (qty xrow)) →
  running_qty 0 (group_of rp (rows_of h' refs))
  = running_qty 0 (group_of rp (rows_of h refs)).
Proof.
  induction refs as [|r refs IH]; intros Hprice Hqty; [done|].
  assert (IH' : running_qty 0 (group_of rp (rows_of h' refs))
                = running_qty 0 (group_of rp (rows_of h refs))).
  { apply IH.
    - intros x Hx. by apply Hprice, list_elem_of_further.
    - intros x xrow Hx. by apply Hqty, list_elem_of_further. }
  pose proof (rounded_of_price _ _ (Hprice r (list_elem_of_here _ _))) as Hr.
  destruct (h !! r) as [row|] eqn:Hrow.
  - destruct (h' !! r) as [row'|] eqn:Hrow'; [|done].
    rewrite (rows_of_cons_Some h r refs row), (rows_of_cons_Some h' r refs row')
      by done.
    assert (Hrp : roundedPrice row' = roundedPrice row) by (simpl in Hr; congruence).
    destruct (decide (roundedPrice row = rp)) as [Heq|Hne].
    + rewrite !group_of_cons_in by congruence.
      unfold running_qty in *. cbn [foldl].
      fold (running_qty (0 + qty row') (group_of rp (rows_of h' refs))).
      fold (running_qty (0 + qty row) (group_of rp (rows_of h refs))).
      rewrite (running_qty_start _ (0 + qty row')),
        (running_qty_start _ (0 + qty row)).
      unfold running_qty. rewrite IH'.
      pose proof (Hqty r row (list_elem_of_here _ _) Hrow Heq) as Hq.
      rewrite Hrow' in Hq. simpl in Hq. injection Hq as ->. done.
    + rewrite !group_of_cons_out by congruence. done.
  - destruct (h' !! r) as [row'|] eqn:Hrow'; [done|].
    by rewrite (rows_of_cons_None h r refs), (rows_of_cons_None h' r refs).
Qed.

Lemma redisplay_price (P : MarketPrices)
    (sort : ∀ A : Type, (A → A → CompareResult) → list A → list A)
    (consolidated : bool) (b : BookData) (z : ref) :
  price <$> store (redisplay P sort consolidated b).1 !! z
  = price <$> store b !! z.
Proof.
  rewrite redisplay_unfold. cbv zeta. cbn [store].
  rewrite !_calculateVBBO_price.
  destruct consolidated; [|done]. cbn [snd]. by rewrite !_aggregate_price.
Qed.

(** A consolidated pass keeps the price, quantity, venue and key of a
    record that comes after another of the same rounded price. *)
Lemma redisplay_later (P : MarketPrices)
    (sort : ∀ A : Type, (A → A → CompareResult) → list A → list A)
    (b : BookData) before k x after xrow y :
  NoDup (obj_values (buySide b) ++ obj_values (sellSide b)) →
  buySide b = before ++ (k, x) :: after
  ∨ sellSide b = before ++ (k, x) :: after →
  store b !! x = Some xrow →
  y ∈ obj_values before →
  roundedPrice <$> store b !! y = Some (roundedPrice xrow) →
  ∃ row', store (redisplay P sort true b).1 !! x = Some row'
          ∧ price row' = price xrow ∧ qty row' = qty xrow
          ∧ venue row' = venue xrow ∧ key row' = key xrow.
Proof.
  intros Hnd Hside Hx Hy Hrp. rewrite redisplay_unfold. cbv zeta. cbn [store].
  assert (Hagg : (_aggregate (sellSide b)
                    (_aggregate (buySide b) (store b)).2).2 !! x = Some xrow).
  { apply list.NoDup_app in Hnd as (Hbuy & Hdisj & Hsell).
    destruct Hside as [Hside|Hside].
    - assert (Hin : x ∈ obj_values (buySide b)).
      { rewrite Hside, obj_values_app, obj_values_cons.
        apply elem_of_app. right. apply list_elem_of_here. }
      rewrite _aggregate_frame by by apply Hdisj.
      rewrite Hside. eapply _aggregate_later; [by rewrite <- Hside|done..].
    - assert (Hin : ∀ z, z ∈ obj_values (sellSide b) →
                (_aggregate (buySide b) (store b)).2 !! z = store b !! z).
      { intros z Hz. apply _aggregate_frame. intros Hb. by apply (Hdisj z). }
      assert (Hsub : ∀ z, z ∈ obj_values before ++ x :: obj_values after →
                z ∈ obj_values (sellSide b)).
      { intros z Hz. by rewrite Hside, obj_values_app, obj_values_cons. }
      rewrite Hside. eapply _aggregate_later; [by rewrite <- Hside| |exact Hy|].
      + rewrite Hin; [done|]. apply Hsub, elem_of_app. right.
        apply list_elem_of_here.
      + rewrite Hin; [done|]. apply Hsub, elem_of_app. by left. }
  edestruct (_calculateVBBO_fields P (buySide b)) as (row1 & Hrow1 & ? & ? & ? & ?);
    [exact Hagg|].
  edestruct (_calculateVBBO_fields P (sellSide b)) as (row2 & Hrow2 & ? & ? & ? & ?);
    [exact Hrow1|].
  exists row2. split; [exact Hrow2|]. repeat split; congruence.
Qed.

(** X13.  Consolidated redisplays accumulate: the side mappings keep the
    records of every venue, and each consolidated pass adds the quantities
    of the other levels of a price group to the record that seeds the
    group once more.  After [n] passes in a row that record holds its
    original quantity plus [n] times the total of the other levels of its
    group. *)
Theorem consolidated_passes_accumulate (P : MarketPrices)
    (sort : ∀ A : Type, (A → A → CompareResult) → list A → list A)
    (b : BookData) before after k r row (n : nat) :
  NoDup (obj_values (buySide b) ++ obj_values (sellSide b)) →
  buySide b = before ++ (k, r) :: after
  ∨ sellSide b = before ++ (k, r) :: after →
  store b !! r = Some row →
  (∀ x, x ∈ obj_values before →
        roundedPrice <$> store b !! x ≠ Some (roundedPrice row)) →
  let members :=
    group_of (roundedPrice row) (rows_of (store b) (obj_values after)) in
  ∃ row',
    store (consolidated_passes P sort n b) !! r = Some row'
    ∧ price row' = price row
    ∧ qty row' = qty row + Z.of_nat n * running_qty 0 members.
Proof.
  intros Hnd Hside Hrow Hfirst members.
  assert (Hinv :
    buySide (consolidated_passes P sort n b) = buySide b
    ∧ sellSide (consolidated_passes P sort n b) = sellSide b
    ∧ (∀ z, price <$> store (consolidated_passes P sort n b) !! z
            = price <$> store b !! z)
    ∧ (∀ x xrow, x ∈ obj_values after → store b !! x = Some xrow →
         roundedPrice xrow = roundedPrice row →
         qty <$> store (consolidated_passes P sort n b) !! x = Some (qty xrow))
    ∧ ∃ row', store (consolidated_passes P sort n b) !! r = Some row'
              ∧ qty row' = qty row + Z.of_nat n * running_qty 0 members).
  { induction n as [|n IH].
    - change (consolidated_passes P sort 0 b) with b. split; [done|]. split; [done|].
      split; [done|]. split.
      + intros x xrow _ Hx _. by rewrite Hx.
      + exists row. split; [done|]. lia.
    - destruct IH as (Hbuy & Hsell & Hprice & Hlater & rown & Hrown & Hqn).
      change (consolidated_passes P sort (S n) b)
        with (redisplay P sort true (consolidated_passes P sort n b)).1.
      set (bn := consolidated_passes P sort n b) in *.
      destruct (redisplay_sides P sort true bn) as [Hb Hs].
      assert (Hndn : NoDup (obj_values (buySide bn) ++ obj_values (sellSide bn)))
        by (by rewrite Hbuy, Hsell).
      assert (Hsiden : buySide bn = before ++ (k, r) :: after
                       ∨ sellSide bn = before ++ (k, r) :: after)
        by (by rewrite Hbuy, Hsell).
      assert (Hpn : price rown = price row).
      { specialize (Hprice r). rewrite Hrown, Hrow in Hprice. by injection Hprice. }
      assert (Hrpn : roundedPrice rown = roundedPrice row)
        by (unfold roundedPrice; by rewrite Hpn).
      split; [by rewrite Hb|]. split; [by rewrite Hs|]. split; [|split].
      + intros z. by rewrite redisplay_price.
      + intros x xrow Hx Hxrow Hxrp.
        pose proof (Hlater x xrow Hx Hxrow Hxrp) as Hqx.
        pose proof (Hprice x) as Hpx. rewrite Hxrow in Hpx.
        destruct (store bn !! x) as [xrown|] eqn:Hxn; [|done].
        simpl in Hqx, Hpx. injection Hqx as Hqx. injection Hpx as Hpx.
        unfold obj_values in Hx.
        apply list_elem_of_fmap in Hx as ([k' x'] & Heq & Hin).
        simpl in Heq. subst x'.
        apply list_elem_of_split in Hin as (l1 & l2 & Hafter).
        destruct (redisplay_later P sort bn (before ++ (k, r) :: l1) k' x l2
                    xrown r) as (row' & Hrow' & _ & Hq' & _).
        * done.
        * rewrite <- app_assoc, <- app_comm_cons, <- Hafter. done.
        * done.
        * rewrite obj_values_app, obj_values_cons. apply elem_of_app. right.
          apply list_elem_of_here.
        * rewrite Hrown. simpl. f_equal. unfold roundedPrice in *.
          rewrite Hpx. congruence.
        * rewrite Hrow'. simpl. congruence.
      + destruct (redisplay_seed P sort bn before after k r rown Hndn Hsiden
                    Hrown) as (row' & Hrow' & _ & Hq' & _).
        { intros x Hx. rewrite (rounded_of_price _ _ (Hprice x)), Hrpn.
          by apply Hfirst. }
        exists row'. split; [done|]. rewrite Hq'.
        destruct (merged_fields
                    (group_of (roundedPrice rown)
                       (rows_of (store bn) (obj_values after))) rown)
          as (_ & _ & -> & _).
        rewrite running_qty_start, Hrpn.
        rewrite (group_qty_ext (roundedPrice row) (store b) (store bn)).
        * fold members. lia.
        * intros x _. apply Hprice.
        * intros x xrow Hx Hxrow Hxrp. by apply Hlater. }
  destruct Hinv as (_ & _ & Hprice & _ & row' & Hrow' & Hq).
  exists row'. split; [done|]. split; [|done].
  specialize (Hprice r). rewrite Hrow', Hrow in Hprice. by injection Hprice.
Qed.

(** ** Every book the interface can produce *)

(** X14.  Whatever calls of [updateBook], [resetData] and [redisplay] led
    to a book, its side mappings and sorted arrays refer to records of the
    store, no record is referred to twice by the mappings or twice by a
    sorted array, and the keys of each side are distinct. *)
Theorem reachable_book_invariant (P : MarketPrices)
    (sort : ∀ A : Type, (A → A → CompareResult) → list A → list A)
    (b : BookData) :
  (∀ (A : Type) (compare : A → A → CompareResult) (l : list A),
      sort A compare l ≡ₚ l) →
  reachable P sort b →
  book_wf b
  ∧ NoDup (obj_keys (buySide b))
  ∧ NoDup (obj_keys (sellSide b)).
Proof.
  intros Hsort Hreach. split; [by eapply reachable_wf|].
  induction Hreach
    as [|level side qty price venue b _ [IHb IHs]|b _ _|consolidated b _ IH].
  - split; apply NoDup_nil_2.
  - unfold updateBook, _setSideData. cbv zeta.
    destruct (decide (side = BUY_SIDE)); cbn [buySide sellSide]; split;
      try done; destruct (decide _);
      by (apply obj_delete_keys_NoDup || apply obj_set_keys_NoDup).
  - split; apply NoDup_nil_2.
  - by destruct (redisplay_sides P sort consolidated b) as [-> ->].
Qed.

(** ** The quote after a full-depth redisplay *)

Lemma _calculateVBBO_qty (P : MarketPrices) side sortedArray (h : Store) x :
  qty <$> _calculateVBBO P side sortedArray h !! x = qty <$> h !! x.
Proof.
  destruct (h !! x) as [row|] eqn:Hx.
  - destruct (_calculateVBBO_fields P side sortedArray h x row Hx)
      as (row' & -> & _ & Hq & _). simpl. by rewrite Hq.
  - assert (Hnone : _calculateVBBO P side sortedArray h !! x = None).
    { apply lookup_ge_None. unfold _calculateVBBO. rewrite vbbo_loop_length.
      by apply lookup_ge_None. }
    by rewrite Hnone.
Qed.

(** The quantity a list of references can give is the sum over the
    references, in any order. *)
Lemma available_qty_rows_of (h : Store) (refs : list ref) :
  available_qty (rows_of h refs)
  = foldr (λ r acc, default 0 (Z.max 0 ∘ qty <$> h !! r) + acc) 0 refs.
Proof.
  induction refs as [|r refs IH]; [done|]. cbn [foldr].
  destruct (h !! r) as [row|] eqn:Hr.
  - rewrite (rows_of_cons_Some h r refs row) by done. simpl. by rewrite IH.
  - rewrite rows_of_cons_None by done. simpl. by rewrite IH.
Qed.

Lemma available_qty_perm (h h' : Store) (refs refs' : list ref) :
  (∀ r, qty <$> h' !! r = qty <$> h !! r) →
  refs' ≡ₚ refs →
  available_qty (rows_of h' refs') = available_qty (rows_of h refs).
Proof.
  intros Hq Hperm. rewrite !available_qty_rows_of.
  assert (Hg : ∀ r, default 0 (Z.max 0 ∘ qty <$> h' !! r)
                    = default 0 (Z.max 0 ∘ qty <$> h !! r)).
  { intros r. specialize (Hq r).
    destruct (h' !! r), (h !! r); simpl in *; congruence. }
  induction Hperm as [|x l l' _ IH|x y l|l l' l'' _ IH1 _ IH2].
  - done.
  - cbn [foldr]. by rewrite IH, Hg.
  - cbn [foldr]. rewrite !Hg.
    assert (Hl : foldr (λ r acc, default 0 (Z.max 0 ∘ qty <$> h' !! r) + acc) 0 l
                 = foldr (λ r acc, default 0 (Z.max 0 ∘ qty <$> h !! r) + acc) 0 l).
    { clear -Hg. induction l as [|z l IHl]; [done|]. cbn [foldr].
      by rewrite IHl, Hg. }
    rewrite Hl. lia.
  - rewrite IH1. rewrite <- IH2. clear -Hg.
    induction l' as [|z l' IHl]; [done|]. cbn [foldr]. by rewrite IHl, Hg.
Qed.

Lemma vwap_qty_min (P : MarketPrices) (requested : Z) (rows : list Row) :
  0 ≤ requested →
  Vwap.qty (_calculateVwapForQty P requested rows)
  = Z.min requested (available_qty rows).
Proof.
  intros Hreq. unfold _calculateVwapForQty.
  destruct (vwap_loop_fill P rows 0 requested 0 0%Qc (-1) newChecker Hreq)
    as [-> _].
  by apply spec_consumed_min.
Qed.

(** X15.  After a redisplay that is not consolidated, the quote for a
    non-negative quantity fills, on each side, the smaller of the request
    and the total of the positive quantities the side mapping holds: the
    sorted arrays hold every level of the side, in whatever order the
    host sorts them. *)
Theorem quote_after_full_redisplay (P : MarketPrices)
    (sort : ∀ A : Type, (A → A → CompareResult) → list A → list A)
    (b : BookData) (vwapName : string) (requested : Z) :
  (∀ (A : Type) (compare : A → A → CompareResult) (l : list A),
      sort A compare l ≡ₚ l) →
  0 ≤ requested →
  let quote :=
    getVwapUpdate P vwapName requested (redisplay P sort false b).1 in
  buyQty quote
  = Z.min requested
      (available_qty (rows_of (store b) (obj_values (buySide b))))
  ∧ sellQty quote
    = Z.min requested
        (available_qty (rows_of (store b) (obj_values (sellSide b)))).
Proof.
  intros Hsort Hreq quote. subst quote. unfold getVwapUpdate.
  cbn [buyQty sellQty]. rewrite !vwap_qty_min by done.
  rewrite redisplay_unfold. cbv zeta. cbn [store sortedBuy sortedSell fst snd].
  unfold truncate. cbn [andb].
  split; f_equal; apply available_qty_perm; try apply Hsort;
    intros r; by rewrite !_calculateVBBO_qty.
Qed.

(** ** The flags of the checker *)

(** X16.  After a new checker has been shown a sequence of prices, it
    reports a marker exactly when one of the prices is [BID] or [OFFER],
    it reports the current row as a marker exactly when the last price is
    one, and its polarity is bid exactly when the last marker of the
    sequence is [BID]; a price equal to both reserved prices counts as
    [BID]. *)
Theorem checker_flags (P : MarketPrices) (prices : list Qc) :
  let c := observe_prices P newChecker prices in
  (hasMarkerOrder c = true ↔ Exists (is_marker P) prices)
  ∧ (isMarkerOrder c = true ↔
     ∃ pre m, prices = pre ++ [m] ∧ is_marker P m)
  ∧ (isBidMarkerOrder c = true ↔
     ∃ pre post, prices = pre ++ BID P :: post
                 ∧ Forall (λ p, ¬ is_marker P p) post).
Proof.
  intros c. subst c.
  destruct (decide (Exists (is_marker P) prices)) as [Hex|Hno].
  - destruct (last_marker_split P prices Hex) as (pre & m & post & -> & Hm & Hpost).
    rewrite (observe_prices_last_marker P newChecker pre m post Hm Hpost).
    cbn [hasMarkerOrder isMarkerOrder isBidMarkerOrder].
    split; [done|]. split.
    + rewrite bool_decide_eq_true. split.
      * intros ->. by exists pre, m.
      * intros (pre' & m' & Heq & Hm').
        destruct post as [|p post _] using rev_ind; [done|].
        rewrite app_comm_cons, app_assoc in Heq.
        apply app_inj_tail in Heq as [_ <-].
        apply Forall_app in Hpost as [_ Hp].
        by apply Forall_cons_1 in Hp as [Hp _].
    + rewrite bool_decide_eq_true. split.
      * intros ->. by exists pre, post.
      * intros (pre' & post' & Heq & Hpost').
        assert (Hbid : is_marker P (BID P)) by by left.
        clear Hex.
        revert pre' Heq. induction pre as [|p pre IH]; intros pre' Heq.
        -- destruct pre' as [|p' pre']; simpl in Heq.
           ++ by injection Heq.
           ++ injection Heq as -> ->.
              apply Forall_app in Hpost as [_ Hp].
              by apply Forall_cons_1 in Hp as [Hp _].
        -- destruct pre' as [|p' pre']; simpl in Heq.
           ++ injection Heq as -> <-.
              apply Forall_app in Hpost' as [_ Hp].
              by apply Forall_cons_1 in Hp as [Hp _].
           ++ injection Heq as -> Heq. by apply (IH pre').
  - apply not_Exists_Forall in Hno; [|apply _].
    destruct (observe_prices_plain P newChecker prices Hno) as (Hhas & Hbid & Hcur).
    rewrite Hhas, Hbid. cbn [newChecker hasMarkerOrder isBidMarkerOrder].
    split; [|split].
    + split; [done|]. intros Hex. exfalso.
      apply list.Exists_exists in Hex as (p & Hin & Hp).
      rewrite list.Forall_forall in Hno. by apply (Hno p Hin).
    + split.
      * destruct prices as [|p prices]; [done|]. by rewrite Hcur.
      * intros (pre & m & -> & Hm). apply Forall_app in Hno as [_ Hp].
        by apply Forall_cons_1 in Hp as [Hp _].
    + split; [done|]. intros (pre & post & -> & _).
      apply Forall_app in Hno as [_ Hp].
      apply Forall_cons_1 in Hp as [Hp _]. exfalso. apply Hp. by left.
Qed.

(** ** A request that fills nothing *)

Lemma vwap_loop_idle (P : MarketPrices) (rows : list Row) :
  ∀ index remaining used value level c,
    remaining ≤ 0 ∨ Forall (λ row, qty row ≤ 0) rows →
    vwap_loop P index rows remaining used value level c
    = Vwap.mk used
        (calculatePrice P (observe_prices P c (price <$> rows)) value used)
        level.
Proof.
  induction rows as [|row rows IH]; intros index remaining used value level c
    Hidle; [done|].
  cbn [vwap_loop]. unfold Converter_toInt, Converter_toFloat.
  assert (Hno : (0 <? remaining) && ((0 <? qty row) && true) = false).
  { destruct Hidle as [Hrem|Hall].
    - by rewrite (proj2 (Z.ltb_ge 0 remaining)).
    - apply Forall_cons_1 in Hall as [Hq _].
      rewrite (proj2 (Z.ltb_ge 0 (qty row))) by done.
      by destruct (0 <? remaining). }
  rewrite Hno. rewrite IH; [done|].
  destruct Hidle as [Hrem|Hall]; [by left|right].
  by apply Forall_cons_1 in Hall as [_ Hall].
Qed.

(** X17.  A request that is not positive, and any request on levels that
    hold no positive quantity, fills nothing: the quantity is 0 and the
    level -1.  The price is then 0, without any division, unless a marker
    price is among the levels, which still decides the price. *)
Theorem vwap_nothing_to_fill (P : MarketPrices) (requested : Z)
    (rows : list Row) :
  requested ≤ 0 ∨ Forall (λ row, qty row ≤ 0) rows →
  let result := _calculateVwapForQty P requested rows in
  Vwap.qty result = 0
  ∧ Vwap.level result = -1
  ∧ (Forall (λ row, ¬ is_marker P (price row)) rows →
     Vwap.price result = Some 0%Qc)
  ∧ (Exists (λ row, is_marker P (price row)) rows →
     Vwap.price result = Some (BID P) ∨ Vwap.price result = Some (OFFER P)).
Proof.
  intros Hidle result. subst result. unfold _calculateVwapForQty.
  rewrite vwap_loop_idle by done. cbn [Vwap.qty Vwap.level Vwap.price].
  split; [done|]. split; [done|]. split.
  - intros Hall. rewrite calculatePrice_clean; [done|].
    apply observe_prices_clean. by apply Forall_fmap.
  - intros Hex. rewrite calculatePrice_marker.
    + destruct (isBidMarkerOrder _); auto.
    + apply observe_prices_has. by apply Exists_fmap.
Qed.

(** ** The rows of a consolidated display *)

Lemma _calculateVBBO_venue (P : MarketPrices) side sortedArray (h : Store) x :
  venue <$> _calculateVBBO P side sortedArray h !! x = venue <$> h !! x.
Proof.
  destruct (h !! x) as [row|] eqn:Hx.
  - destruct (_calculateVBBO_fields P side sortedArray h x row Hx)
      as (row' & -> & _ & _ & Hv & _). simpl. by rewrite Hv.
  - assert (Hnone : _calculateVBBO P side sortedArray h !! x = None).
    { apply lookup_ge_None. unfold _calculateVBBO. rewrite vbbo_loop_length.
      by apply lookup_ge_None. }
    by rewrite Hnone.
Qed.

(** The records [_aggregate] returns carry the empty venue. *)
Lemma _aggregate_venue side (h : Store) r :
  r ∈ obj_values (_aggregate side h).1 →
  venue <$> (_aggregate side h).2 !! r = Some ""%string.
Proof.
  rewrite _aggregate_unfold. intros Hr.
  apply aggregate_transpose_values in Hr as [Hr|Hr];
    [by apply elem_of_nil in Hr|].
  rewrite aggregate_transpose_lookup, decide_True by done.
  assert (Hidx : byPrice_indexed (aggregate_byPrice side [] h).2
                   (aggregate_byPrice side [] h).1).
  { apply aggregate_byPrice_indexed. by intros s Hs%elem_of_nil. }
  by destruct (Hidx r Hr) as (srow & -> & _).
Qed.

(** Two records [_aggregate] returns differ in their rounded price. *)
Lemma _aggregate_rounded_inj side (h : Store) x y rp :
  x ∈ obj_values (_aggregate side h).1 →
  y ∈ obj_values (_aggregate side h).1 →
  roundedPrice <$> (_aggregate side h).2 !! x = Some rp →
  roundedPrice <$> (_aggregate side h).2 !! y = Some rp →
  x = y.
Proof.
  rewrite _aggregate_unfold. intros Hx Hy Hfx Hfy.
  set (first := aggregate_byPrice side [] h) in *.
  assert (Hidx : byPrice_indexed first.2 first.1).
  { apply aggregate_byPrice_indexed. by intros s Hs%elem_of_nil. }
  assert (Hfiled : ∀ z, z ∈ obj_values (aggregate_transpose first.1 [] first.2).1
            → z ∈ obj_values first.1).
  { intros z Hz. apply aggregate_transpose_values in Hz as [Hz|Hz]; [|done].
    by apply elem_of_nil in Hz. }
  assert (Hrp : ∀ z, roundedPrice
                       <$> (aggregate_transpose first.1 [] first.2).2 !! z
                     = roundedPrice <$> first.2 !! z).
  { intros z. rewrite aggregate_transpose_lookup.
    destruct (decide _); [|done]. by destruct (first.2 !! z). }
  rewrite Hrp in Hfx, Hfy.
  destruct (Hidx x (Hfiled x Hx)) as (xrow & Hxrow & Hgetx).
  destruct (Hidx y (Hfiled y Hy)) as (yrow & Hyrow & Hgety).
  rewrite Hxrow in Hfx. rewrite Hyrow in Hfy. simpl in *. congruence.
Qed.

(** What is read through references that are among the records of an
    aggregation, from a store that agrees with the aggregated one on venue
    and price. *)
Lemma consolidated_rows_of (h h' : Store) (result : list (Key * ref))
    (sorted : list ref) :
  NoDup sorted →
  (∀ r, r ∈ sorted → r ∈ obj_values result) →
  (∀ r, r ∈ obj_values result → venue <$> h !! r = Some ""%string) →
  (∀ x y rp, x ∈ obj_values result → y ∈ obj_values result →
     roundedPrice <$> h !! x = Some rp → roundedPrice <$> h !! y = Some rp →
     x = y) →
  (∀ r, r ∈ obj_values result →
        venue <$> h' !! r = venue <$> h !! r
        ∧ price <$> h' !! r = price <$> h !! r) →
  Forall (λ row, venue row = ""%string) (rows_of h' sorted)
  ∧ NoDup (roundedPrice <$> rows_of h' sorted).
Proof.
  intros Hnd Hsub Hvenue Hinj Hsame. split.
  - apply list.Forall_forall. intros row Hrow. unfold rows_of in Hrow.
    apply list_elem_of_omap in Hrow as (r & Hr & Hlook).
    destruct (Hsame r (Hsub r Hr)) as [Hv _].
    rewrite Hvenue, Hlook in Hv by by apply Hsub. simpl in Hv. congruence.
  - unfold rows_of. rewrite list_fmap_omap. apply NoDup_omap_inj; [done|].
    intros x y rp Hx Hy Hfx Hfy.
    apply (Hinj x y rp); [by apply Hsub|by apply Hsub| |].
    + destruct (Hsame x (Hsub x Hx)) as [_ Hp].
      by rewrite <- (rounded_of_price _ _ Hp).
    + destruct (Hsame y (Hsub y Hy)) as [_ Hp].
      by rewrite <- (rounded_of_price _ _ Hp).
Qed.

(** X18.  In a consolidated display every row of a side carries the empty
    venue, and no two rows of a side have the same price rounded to four
    decimals. *)
Theorem consolidated_display_levels (P : MarketPrices)
    (sort : ∀ A : Type, (A → A → CompareResult) → list A → list A)
    (b : BookData) :
  (∀ (A : Type) (compare : A → A → CompareResult) (l : list A),
      sort A compare l ≡ₚ l) →
  NoDup (obj_values (buySide b) ++ obj_values (sellSide b)) →
  let b' := (redisplay P sort true b).1 in
  ∀ sorted, sorted = sortedBuy b' ∨ sorted = sortedSell b' →
    Forall (λ row, venue row = ""%string) (rows_of (store b') sorted)
    ∧ NoDup (roundedPrice <$> rows_of (store b') sorted).
Proof.
  intros Hsort Hnd b' sorted Hsorted. subst b'.
  rewrite redisplay_unfold in *. cbv zeta in *.
  cbn [store sortedBuy sortedSell] in *.
  apply list.NoDup_app in Hnd as (Hbuy & Hdisj & Hsell).
  set (h1 := (_aggregate (buySide b) (store b)).2) in *.
  set (buy := (_aggregate (buySide b) (store b)).1) in *.
  set (h2 := (_aggregate (sellSide b) h1).2) in *.
  set (sell := (_aggregate (sellSide b) h1).1) in *.
  assert (Hbuyin : ∀ r, r ∈ obj_values buy → h2 !! r = h1 !! r).
  { intros r Hr. apply _aggregate_frame. apply Hdisj.
    by apply _aggregate_values in Hr. }
  assert (Hvbbo : ∀ sb ss r,
            venue <$> _calculateVBBO P (sellSide b) ss
                        (_calculateVBBO P (buySide b) sb h2) !! r
            = venue <$> h2 !! r
            ∧ price <$> _calculateVBBO P (sellSide b) ss
                          (_calculateVBBO P (buySide b) sb h2) !! r
              = price <$> h2 !! r).
  { intros sb ss r. by rewrite !_calculateVBBO_venue, !_calculateVBBO_price. }
  destruct Hsorted as [->| ->].
  - destruct (truncate_sortValues sort Hsort true h1 buy _compareBuy)
      as [Hsnd Hssub]; [by apply _aggregate_NoDup|].
    apply (consolidated_rows_of h1 _ buy); [done|done| | |].
    + intros r Hr. by apply _aggregate_venue.
    + intros x y rp. by apply _aggregate_rounded_inj.
    + intros r Hr. destruct (Hvbbo
        (truncate true (_sortValues sort h1 buy _compareBuy))
        (truncate true (_sortValues sort h2 sell _compareSell)) r) as [-> ->].
      by rewrite Hbuyin.
  - destruct (truncate_sortValues sort Hsort true h2 sell _compareSell)
      as [Hsnd Hssub]; [by apply _aggregate_NoDup|].
    apply (consolidated_rows_of h2 _ sell); [done|done| | |].
    + intros r Hr. by apply _aggregate_venue.
    + intros x y rp. by apply _aggregate_rounded_inj.
    + intros r Hr. apply Hvbbo.
Qed.

(** ** From an update to the next display *)

Lemma obj_get_delete_values {K V : Type} `{EqDecision K} (o : list (K * V)) k v :
  NoDup (obj_values o) → obj_get k o = Some v →
  v ∉ obj_values (obj_delete k o).
Proof.
  induction o as [|[k' v'] o IH]; [done|].
  rewrite obj_values_cons. intros [Hv' Hnd]%list.NoDup_cons. simpl.
  destruct (decide (k' = k)) as [->|Hne].
  - intros [= ->] Hin. by apply Hv', (obj_values_delete o k v).
  - intros Hget. rewrite obj_values_cons. apply not_elem_of_cons. split.
    + intros ->. by apply Hv', (obj_get_Some_value o k).
    + by apply IH.
Qed.

Lemma obj_get_set_values {K V : Type} `{EqDecision K} (o : list (K * V)) k v v' :
  NoDup (obj_values o) → obj_get k o = Some v → v ≠ v' →
  v ∉ obj_values (obj_set k v' o).
Proof.
  induction o as [|[k0 v0] o IH]; [done|].
  rewrite obj_values_cons. intros [Hv0 Hnd]%list.NoDup_cons. simpl.
  destruct (decide (k0 = k)) as [->|Hne].
  - intros [= ->] Hne. rewrite obj_values_cons. apply not_elem_of_cons.
    by split.
  - intros Hget Hne'. rewrite obj_values_cons. apply not_elem_of_cons. split.
    + intros ->. by apply Hv0, (obj_get_Some_value o k).
    + by apply IH.
Qed.

(** The sorted arrays of a redisplay refer to records of the side. *)
Lemma redisplay_sorted_values (P : MarketPrices)
    (sort : ∀ A : Type, (A → A → CompareResult) → list A → list A)
    (consolidated : bool) (b : BookData) (side : Z) (r : ref) :
  (∀ (A : Type) (compare : A → A → CompareResult) (l : list A),
      sort A compare l ≡ₚ l) →
  NoDup (obj_values (buySide b) ++ obj_values (sellSide b)) →
  r ∈ sortedSide side (redisplay P sort consolidated b).1 →
  r ∈ obj_values (sideData side b).
Proof.
  intros Hsort Hnd. rewrite redisplay_unfold. cbv zeta.
  unfold sortedSide, sideData. cbn [sortedBuy sortedSell].
  apply list.NoDup_app in Hnd as (Hbuy & _ & Hsell).
  destruct (decide (side = BUY_SIDE)); intros Hr;
    apply (truncate_sortValues sort Hsort) in Hr;
    destruct consolidated; cbn [fst snd] in *;
    try done; try (by apply _aggregate_NoDup);
    by apply _aggregate_values in Hr.
Qed.

(** X19.  On a book that satisfies the invariant, an update with a quantity
    other than 0 is shown by the next redisplay that is not consolidated:
    the new record is in the sorted array of its side and one row is sent
    for it, with the quantity, the venue and the four-decimal text of the
    price of the update.  Whatever the quantity, the record that was stored
    under the key of the update is in no sorted array of that side after
    the next redisplay. *)
Theorem update_reaches_display (P : MarketPrices)
    (sort : ∀ A : Type, (A → A → CompareResult) → list A → list A)
    (b : BookData) (level side q : Z) (p : Qc) (v : string) :
  (∀ (A : Type) (compare : A → A → CompareResult) (l : list A),
      sort A compare l ≡ₚ l) →
  book_wf b →
  let b1 := updateBook level side q p v b in
  let r := length (store b) in
  (q ≠ 0 →
   let b2 := (redisplay P sort false b1).1 in
   ∃ i row,
     sortedSide side b2 !! i = Some r
     ∧ store b2 !! r = Some row
     ∧ price row = p ∧ qty row = q ∧ venue row = v
     ∧ key row = _createKeyData v level
     ∧ UpdateBook
         (Update.mk i (if decide (side = BUY_SIDE) then BUY_SIDE else SELL_SIDE)
            q (toFixed4 (Number_of_Fixed4 (toFixed4 p))) v (cumQty row)
            (toFixed4 <$> vbbo row))
       ∈ (redisplay P sort false b1).2)
  ∧ (∀ r0 consolidated,
       obj_get (_createKeyData v level) (sideData side b) = Some r0 →
       r0 ∉ sortedSide side (redisplay P sort consolidated b1).1).
Proof.
  intros Hsort Hwf b1 r.
  pose proof (book_wf_updateBook level side q p v b Hwf) as Hwf1. fold b1 in Hwf1.
  assert (Hside1 : sideData side b1
                   = _setSideData (sideData side b) (_createRow p q v level) r)
    by apply sideData_updateBook.
  split.
  - intros Hq b2.
    assert (Hin : r ∈ obj_values (sideData side b1)).
    { rewrite Hside1. unfold _setSideData. cbn [qty key _createRow].
      rewrite decide_False by done.
      eapply obj_get_Some_value, obj_get_set_eq. }
    assert (Hsorted : r ∈ sortedSide side b2).
    { subst b2. rewrite redisplay_unfold. cbv zeta.
      unfold sortedSide, sideData, truncate, _sortValues in *.
      cbn [sortedBuy sortedSell andb fst snd].
      destruct (decide (side = BUY_SIDE)); by rewrite Hsort. }
    apply list_elem_of_lookup in Hsorted as [i Hi].
    assert (Hnew : store b1 !! r = Some (_createRow p q v level)).
    { subst b1 r. rewrite store_updateBook. by apply list_lookup_middle. }
    assert (Hrow : ∃ row, store b2 !! r = Some row
              ∧ price row = p ∧ qty row = q ∧ venue row = v
              ∧ key row = _createKeyData v level).
    { subst b2. rewrite redisplay_unfold. cbv zeta. cbn [store fst snd].
      edestruct (_calculateVBBO_fields P (buySide b1))
        as (row1 & Hrow1 & ? & ? & ? & ?); [exact Hnew|].
      edestruct (_calculateVBBO_fields P (sellSide b1))
        as (row2 & Hrow2 & ? & ? & ? & ?); [exact Hrow1|].
      exists row2. split; [exact Hrow2|]. cbn [price qty venue key _createRow] in *.
      repeat split; congruence. }
    destruct Hrow as (row & Hrow & Hp & Hqty & Hv & Hk).
    exists i, row. do 6 (split; [done|]).
    destruct (book_wf_redisplay P sort Hsort false b1 Hwf1)
      as [_ _ Hvb Hvs _ _]. fold b2 in Hvb, Hvs.
    rewrite redisplay_events. cbv zeta. fold b2.
    apply list_elem_of_further. unfold sortedSide in Hi.
    destruct (decide (side = BUY_SIDE)).
    + apply elem_of_app. left.
      apply (list_elem_of_lookup_2 _ i).
      rewrite (_redisplaySide_lookup _ _ _ i r row Hvb Hi Hrow).
      by rewrite Hp, Hqty, Hv.
    + apply elem_of_app. right. apply elem_of_app. left.
      apply (list_elem_of_lookup_2 _ i).
      rewrite (_redisplaySide_lookup _ _ _ i r row Hvs Hi Hrow).
      by rewrite Hp, Hqty, Hv.
  - intros r0 consolidated Hget Hin.
    apply (redisplay_sorted_values P sort consolidated b1 side r0 Hsort) in Hin;
      [|by destruct Hwf1].
    rewrite Hside1 in Hin.
    assert (Hnd : NoDup (obj_values (sideData side b))).
    { destruct Hwf as [_ Hnd _ _ _ _].
      apply list.NoDup_app in Hnd as (Hbuy & _ & Hsell).
      unfold sideData. by destruct (decide (side = BUY_SIDE)). }
    assert (Hlt : (r0 < r)%nat).
    { destruct Hwf as [Hvalid _ _ _ _ _]. apply Hvalid.
      apply obj_get_Some_value in Hget. unfold sideData in Hget.
      apply elem_of_app. destruct (decide (side = BUY_SIDE)); auto. }
    unfold _setSideData in Hin. cbn [qty key _createRow] in Hin.
    destruct (decide (q = 0)).
    + by eapply obj_get_delete_values.
    + eapply obj_get_set_values; [exact Hnd|exact Hget| |exact Hin]. lia.
Qed.

(** ** Redisplaying again *)

Lemma set_figures_again (x : option Qc) (c : Z) (row : Row) :
  set_vbbo x (set_cumQty c (set_vbbo x (set_cumQty c row)))
  = set_vbbo x (set_cumQty c row).
Proof. by destruct row. Qed.

(** The running figures of the VBBO pass are read from the prices and the
    quantities alone. *)
Lemma figures_ext (P : MarketPrices) (rows rows' : list Row) :
  Forall2 (λ x y, price x = price y ∧ qty x = qty y) rows' rows →
  ∀ start value,
    running_qty start rows' = running_qty start rows
    ∧ running_value value rows' = running_value value rows
    ∧ price <$> rows' = price <$> rows.
Proof.
  unfold running_qty, running_value.
  induction 1 as [|x y rows' rows [Hp Hq] _ IH]; intros start value; [done|].
  cbn [foldl fmap list_fmap]. rewrite Hp, Hq.
  destruct (IH (start + qty y) (value + price y * Qc_of_Z (qty y))%Qc)
    as (-> & -> & Hprices).
  repeat split. f_equal. exact Hprices.
Qed.

Lemma rows_of_Forall2 (h h' : Store) (refs : list ref) :
  (∀ x, x ∈ refs → price <$> h' !! x = price <$> h !! x
                   ∧ qty <$> h' !! x = qty <$> h !! x) →
  Forall2 (λ x y, price x = price y ∧ qty x = qty y)
    (rows_of h' refs) (rows_of h refs).
Proof.
  induction refs as [|r refs IH]; intros Hsame; [constructor|].
  assert (IH' : Forall2 (λ x y, price x = price y ∧ qty x = qty y)
                  (rows_of h' refs) (rows_of h refs)).
  { apply IH. intros x Hx. by apply Hsame, list_elem_of_further. }
  destruct (Hsame r (list_elem_of_here _ _)) as [Hp Hq].
  destruct (h !! r) as [row|] eqn:Hr, (h' !! r) as [row'|] eqn:Hr'; try done.
  - rewrite (rows_of_cons_Some h r refs row), (rows_of_cons_Some h' r refs row')
      by done.
    constructor; [|done]. simpl in *. split; congruence.
  - by rewrite (rows_of_cons_None h r refs), (rows_of_cons_None h' r refs).
Qed.

(** What the pass writes on a record does not depend on the cumQty and
    vbbo the records carry before it. *)
Lemma _calculateVBBO_lookup_ext (P : MarketPrices) side (h h' : Store)
    (sortedArray : list ref) (r : ref) (row row' : Row) :
  NoDup sortedArray →
  r ∈ sortedArray →
  (∀ x, x ∈ sortedArray → price <$> h' !! x = price <$> h !! x
                          ∧ qty <$> h' !! x = qty <$> h !! x) →
  h !! r = Some row → h' !! r = Some row' →
  ∃ x c,
    _calculateVBBO P side sortedArray h !! r
    = Some (set_vbbo x (set_cumQty c row))
    ∧ _calculateVBBO P side sortedArray h' !! r
      = Some (set_vbbo x (set_cumQty c row')).
Proof.
  intros Hnd Hin Hsame Hrow Hrow'.
  apply list_elem_of_split in Hin as (pre & post & ->).
  unfold _calculateVBBO.
  rewrite (vbbo_loop_lookup P pre r post 0%Qc 0 newChecker h row) by done.
  rewrite (vbbo_loop_lookup P pre r post 0%Qc 0 newChecker h' row') by done.
  cbv zeta.
  assert (Hrows : Forall2 (λ x y, price x = price y ∧ qty x = qty y)
                    (rows_of h' pre ++ [row']) (rows_of h pre ++ [row])).
  { apply Forall2_app.
    - apply rows_of_Forall2. intros x Hx. apply Hsame, elem_of_app. by left.
    - constructor; [|constructor].
      destruct (Hsame r) as [Hp Hq].
      { apply elem_of_app. right. apply list_elem_of_here. }
      rewrite Hrow, Hrow' in Hp, Hq. simpl in *. split; congruence. }
  destruct (figures_ext P _ _ Hrows 0 0%Qc) as (-> & -> & ->).
  apply Forall2_app_inv_l in Hrows as (? & ? & _ & Hlast & Heq).
  assert (Hp : price row' = price row).
  { destruct (Hsame r) as [Hp _].
    { apply elem_of_app. right. apply list_elem_of_here. }
    rewrite Hrow, Hrow' in Hp. simpl in Hp. congruence. }
  rewrite Hp. by eexists _, _.
Qed.

Lemma _calculateVBBO_twice (P : MarketPrices) side (h : Store)
    (sortedArray : list ref) :
  NoDup sortedArray →
  _calculateVBBO P side sortedArray (_calculateVBBO P side sortedArray h)
  = _calculateVBBO P side sortedArray h.
Proof.
  intros Hnd. apply list_eq. intros r.
  destruct (decide (r ∈ sortedArray)) as [Hin|Hout].
  - destruct (h !! r) as [row|] eqn:Hrow.
    + destruct (_calculateVBBO_fields P side sortedArray h r row Hrow)
        as (row' & Hrow' & _).
      destruct (_calculateVBBO_lookup_ext P side h
                  (_calculateVBBO P side sortedArray h) sortedArray r row row'
                  Hnd Hin) as (x & c & Hfirst & Hsecond); [|done|done|].
      { intros y _. by rewrite _calculateVBBO_price, _calculateVBBO_qty. }
      rewrite Hsecond. rewrite Hfirst in Hrow'. injection Hrow' as <-.
      by rewrite set_figures_again.
    + assert (Hnone : ∀ h0 : Store, h0 !! r = None →
                _calculateVBBO P side sortedArray h0 !! r = None).
      { intros h0 Hh0. apply lookup_ge_None. unfold _calculateVBBO.
        rewrite vbbo_loop_length. by apply lookup_ge_None. }
      rewrite !Hnone; [done|done|by apply Hnone].
  - unfold _calculateVBBO. by rewrite !vbbo_loop_frame.
Qed.

Lemma _calculateVBBO_commute (P : MarketPrices) side side' (h : Store)
    (a a' : list ref) :
  NoDup a → NoDup a' → (∀ x, x ∈ a → x ∉ a') →
  _calculateVBBO P side a (_calculateVBBO P side' a' h)
  = _calculateVBBO P side' a' (_calculateVBBO P side a h).
Proof.
  intros Hnd Hnd' Hdisj.
  assert (Hnone : ∀ s b (h0 : Store) r, h0 !! r = None →
            _calculateVBBO P s b h0 !! r = None).
  { intros s b h0 r Hh0. apply lookup_ge_None. unfold _calculateVBBO.
    rewrite vbbo_loop_length. by apply lookup_ge_None. }
  assert (Hframe : ∀ s b (h0 : Store) r, r ∉ b →
            _calculateVBBO P s b h0 !! r = h0 !! r).
  { intros s b h0 r Hr. unfold _calculateVBBO. by apply vbbo_loop_frame. }
  assert (Hext : ∀ s b s' b' r, NoDup b → r ∈ b → (∀ x, x ∈ b → x ∉ b') →
            _calculateVBBO P s b (_calculateVBBO P s' b' h) !! r
            = _calculateVBBO P s b h !! r).
  { intros s b s' b' r Hb Hr Hd.
    destruct (h !! r) as [row|] eqn:Hrow.
    - destruct (_calculateVBBO_lookup_ext P s h (_calculateVBBO P s' b' h)
                  b r row row Hb Hr) as (x & c & -> & ->); [|done| |done].
      + intros y Hy. by rewrite Hframe by by apply Hd.
      + rewrite Hframe; [done|by apply Hd].
    - rewrite !Hnone; [done|done|by apply Hnone]. }
  apply list_eq. intros r.
  destruct (decide (r ∈ a)) as [Hin|Hout].
  - rewrite Hext by done. rewrite (Hframe side' a'); [done|by apply Hdisj].
  - rewrite (Hframe side a) by done.
    destruct (decide (r ∈ a')) as [Hin'|Hout'].
    + rewrite Hext; [done|done|done|]. intros x Hx Hxa. by apply (Hdisj x).
    + by rewrite !Hframe.
Qed.

(** The comparators read the price, the quantity and the venue only. *)
Lemma compare_fields (lhs rhs lhs' rhs' : Row) :
  price lhs' = price lhs → qty lhs' = qty lhs → venue lhs' = venue lhs →
  price rhs' = price rhs → qty rhs' = qty rhs → venue rhs' = venue rhs →
  _compareBuy lhs' rhs' = _compareBuy lhs rhs
  ∧ _compareSell lhs' rhs' = _compareSell lhs rhs.
Proof.
  intros Hpl Hql Hvl Hpr Hqr Hvr.
  unfold _compareBuy, _compareSell, compareCommon.
  by rewrite Hpl, Hql, Hvl, Hpr, Hqr, Hvr.
Qed.

(** X20.  Redisplaying again without consolidation changes nothing: on a
    book that holds no record twice, a second redisplay right after the
    first leaves the book as the first left it and sends the same row
    count and the same rows.  (The host sort is assumed to return a
    permutation and to depend on the comparator through its results
    only.) *)
Theorem redisplay_again (P : MarketPrices)
    (sort : ∀ A : Type, (A → A → CompareResult) → list A → list A)
    (b : BookData) :
  (∀ (A : Type) (compare : A → A → CompareResult) (l : list A),
      sort A compare l ≡ₚ l) →
  (∀ (A : Type) (c c' : A → A → CompareResult) (l : list A),
      (∀ x y, c x y = c' x y) → sort A c l = sort A c' l) →
  NoDup (obj_values (buySide b) ++ obj_values (sellSide b)) →
  redisplay P sort false (redisplay P sort false b).1
  = redisplay P sort false b.
Proof.
  intros Hperm Hext Hnd.
  assert (Hbook : (redisplay P sort false (redisplay P sort false b).1).1
                  = (redisplay P sort false b).1).
  { rewrite (redisplay_unfold P sort false (redisplay P sort false b).1).
    rewrite (redisplay_unfold P sort false b). cbv zeta.
    cbn [store buySide sellSide fst snd]. unfold truncate. cbn [andb].
    set (sb := _sortValues sort (store b) (buySide b) _compareBuy).
    set (ss := _sortValues sort (store b) (sellSide b) _compareSell).
    set (h2 := _calculateVBBO P (sellSide b) ss
                 (_calculateVBBO P (buySide b) sb (store b))).
    assert (Hfields : ∀ r,
              match h2 !! r, store b !! r with
              | Some row', Some row =>
                  price row' = price row ∧ qty row' = qty row
                  ∧ venue row' = venue row
              | None, None => True
              | _, _ => False
              end).
    { intros r. subst h2. destruct (store b !! r) as [row|] eqn:Hrow.
      - destruct (_calculateVBBO_fields P (buySide b) sb (store b) r row Hrow)
          as (row1 & Hrow1 & ? & ? & ? & _).
        destruct (_calculateVBBO_fields P (sellSide b) ss _ r row1 Hrow1)
          as (row2 & -> & ? & ? & ? & _).
        repeat split; congruence.
      - assert (Hnone : ∀ s a (h0 : Store), h0 !! r = None →
                  _calculateVBBO P s a h0 !! r = None).
        { intros s a h0 Hh0. apply lookup_ge_None. unfold _calculateVBBO.
          rewrite vbbo_loop_length. by apply lookup_ge_None. }
        by rewrite (Hnone (sellSide b) ss _ (Hnone (buySide b) sb _ Hrow)). }
    assert (Hsort : ∀ o,
              _sortValues sort h2 o _compareBuy
              = _sortValues sort (store b) o _compareBuy
              ∧ _sortValues sort h2 o _compareSell
                = _sortValues sort (store b) o _compareSell).
    { intros o. unfold _sortValues. split; apply Hext; intros x y;
        pose proof (Hfields x) as Hx; pose proof (Hfields y) as Hy;
        destruct (h2 !! x) as [x'|], (store b !! x) as [x0|]; try done;
        destruct (h2 !! y) as [y'|], (store b !! y) as [y0|]; try done;
        destruct Hx as (? & ? & ?), Hy as (? & ? & ?);
        by apply compare_fields. }
    destruct (Hsort (buySide b)) as [-> _].
    destruct (Hsort (sellSide b)) as [_ ->]. fold sb ss.
    apply list.NoDup_app in Hnd as (Hbuy & Hdisj & Hsell).
    assert (Hsb : NoDup sb ∧ ∀ r, r ∈ sb → r ∈ obj_values (buySide b)).
    { subst sb. unfold _sortValues. split; [by rewrite Hperm|].
      intros r. by rewrite Hperm. }
    assert (Hss : NoDup ss ∧ ∀ r, r ∈ ss → r ∈ obj_values (sellSide b)).
    { subst ss. unfold _sortValues. split; [by rewrite Hperm|].
      intros r. by rewrite Hperm. }
    destruct Hsb as [Hsbnd Hsbsub]. destruct Hss as [Hssnd Hsssub].
    f_equal. subst h2.
    rewrite (_calculateVBBO_commute P (buySide b) (sellSide b) _ sb ss);
      [|done|done|].
    2: { intros x Hx Hxs. by apply (Hdisj x); [apply Hsbsub|apply Hsssub]. }
    by rewrite !_calculateVBBO_twice. }
  rewrite (surjective_pairing (redisplay P sort false (redisplay P sort false b).1)).
  rewrite (surjective_pairing (redisplay P sort false b)) at 3.
  f_equal; [done|].
  rewrite (redisplay_events P sort false (redisplay P sort false b).1).
  rewrite (redisplay_events P sort false b). cbv zeta. by rewrite Hbook.
Qed.

(** The sort of the concrete host reads the comparator through its
    results only. *)
Lemma sort_insert_ext {A : Type} (c c' : A → A → CompareResult) (x : A)
    (l : list A) :
  (∀ x y, c x y = c' x y) → sort_insert c x l = sort_insert c' x l.
Proof.
  intros Hc. induction l as [|y l IH]; [done|]. simpl. by rewrite Hc, IH.
Qed.

Lemma insertion_sort_ext (A : Type) (c c' : A → A → CompareResult)
    (l : list A) :
  (∀ x y, c x y = c' x y) → insertion_sort A c l = insertion_sort A c' l.
Proof.
  intros Hc. unfold insertion_sort. induction l as [|x l IH]; [done|].
  simpl. rewrite IH. by apply sort_insert_ext.
Qed.

(** ** The quote after a consolidated redisplay *)

Lemma vwap_level_range (P : MarketPrices) (requested : Z) (rows : list Row) :
  0 ≤ requested →
  -1 ≤ Vwap.level (_calculateVwapForQty P requested rows)
  < Z.of_nat (length rows).
Proof.
  intros Hreq. unfold _calculateVwapForQty.
  destruct (vwap_loop_fill P rows 0 requested 0 0%Qc (-1) newChecker Hreq)
    as [_ ->].
  destruct (spec_last_contributor 0 (spec_fills requested rows)) as [i|] eqn:Hi;
    simpl.
  - apply spec_last_contributor_range in Hi.
    rewrite spec_fills_length in Hi. lia.
  - lia.
Qed.

Lemma available_qty_nonneg (rows : list Row) : 0 ≤ available_qty rows.
Proof. induction rows as [|row rows IH]; simpl; lia. Qed.

Lemma rows_of_length_le (h : Store) (refs : list ref) :
  (length (rows_of h refs) ≤ length refs)%nat.
Proof.
  induction refs as [|r refs IH]; [done|].
  destruct (h !! r) as [row|] eqn:Hr.
  - rewrite (rows_of_cons_Some h r refs row) by done. simpl. lia.
  - rewrite rows_of_cons_None by done. simpl. lia.
Qed.

(** X21.  After a consolidated redisplay the quote for a non-negative
    quantity never reaches beyond the fifth level of a side: on each side
    the level reported is -1 or an index below 5, and the quantity filled
    is between 0 and the request, whatever the side mappings hold. *)
Theorem quote_after_consolidated_redisplay (P : MarketPrices)
    (sort : ∀ A : Type, (A → A → CompareResult) → list A → list A)
    (b : BookData) (vwapName : string) (requested : Z) :
  0 ≤ requested →
  let quote :=
    getVwapUpdate P vwapName requested (redisplay P sort true b).1 in
  -1 ≤ buyLevel quote < 5
  ∧ -1 ≤ sellLevel quote < 5
  ∧ 0 ≤ buyQty quote ≤ requested
  ∧ 0 ≤ sellQty quote ≤ requested.
Proof.
  intros Hreq quote. subst quote. unfold getVwapUpdate.
  cbn [buyLevel sellLevel buyQty sellQty].
  rewrite !vwap_qty_min by done.
  rewrite redisplay_unfold. cbv zeta. cbn [store sortedBuy sortedSell].
  rewrite !truncate_consolidated.
  set (h := _calculateVBBO P _ _ _).
  set (sb := take 5 _). set (ss := take 5 _).
  pose proof (vwap_level_range P requested (rows_of h sb) Hreq) as Hb.
  pose proof (vwap_level_range P requested (rows_of h ss) Hreq) as Hs.
  pose proof (rows_of_length_le h sb) as Hlb.
  pose proof (rows_of_length_le h ss) as Hls.
  assert (length sb ≤ 5 ∧ length ss ≤ 5)%nat as [Hsb Hss].
  { subst sb ss. rewrite !length_take. lia. }
  pose proof (available_qty_nonneg (rows_of h sb)).
  pose proof (available_qty_nonneg (rows_of h ss)).
  repeat split; lia.
Qed.

(** * The properties on concrete books *)

(** The example books are books the interface produces. *)
Lemma lost_level_book_reachable :
  reachable example_prices insertion_sort lost_level_book.
Proof.
  unfold lost_level_book, consolidated_pass, two_venue_book, apply_upserts,
    apply_upsert. cbn [foldl up_level up_side up_qty up_price up_venue].
  repeat constructor.
Qed.

Lemma lost_level_book_wf : book_wf lost_level_book.
Proof.
  eapply reachable_wf; [apply insertion_sort_perm|].
  apply lost_level_book_reachable.
Qed.

Lemma six_level_book_reachable :
  reachable example_prices insertion_sort six_level_book.
Proof.
  unfold six_level_book, apply_upserts, apply_upsert.
  cbn [foldl up_level up_side up_qty up_price up_venue].
  repeat constructor.
Qed.

(** With a BID marker, then an OFFER marker, then a priced level, the
    priced level comes after a BID marker and yet carries UNKNOWN-OFFER:
    the claim C1 as first stated does not hold. *)
Lemma vbbo_sticky_by_any_marker_fails :
  ¬ vbbo_sticky_by_any_marker example_prices mixed_markers_store [0; 1; 2]%nat.
Proof.
  intros Hclaim.
  destruct (Hclaim 0%nat 2%nat 0%nat 2%nat
              (mkRow (BID example_prices) 10 "A" (Some 0%Qc) 0 ("A"%string, 0))
              (mkRow (Qc_of_Z 100) 10 "C" (Some 0%Qc) 0 ("C"%string, 0)))
    as (_ & Hbid & _); [lia|done..|].
  assert (Hplain : ¬ is_marker example_prices (Qc_of_Z 100)) by compute_done.
  specialize (Hbid Hplain eq_refl). vm_compute in Hbid. discriminate Hbid.
Qed.

Lemma vbbo_after_marker_witness :
  vbbo <$> _calculateVBBO example_prices [] [0; 1; 2]%nat mixed_markers_store
             !! 2%nat
  = Some (Some (UNKNOWN_OFFER example_prices)).
Proof.
  destruct (vbbo_after_marker example_prices [] mixed_markers_store
              [0; 1; 2]%nat ltac:(compute_done) [0; 1]%nat [] 2%nat
              (mkRow (Qc_of_Z 100) 10 "C" (Some 0%Qc) 0 ("C"%string, 0))
              eq_refl eq_refl) as [_ Hplain].
  destruct (Hplain ltac:(compute_done) [0]%nat [] 1%nat
              (mkRow (OFFER example_prices) 10 "B" (Some 0%Qc) 0 ("B"%string, 0))
              eq_refl eq_refl ltac:(compute_done) ltac:(compute_done))
    as [_ Hvbbo].
  exact Hvbbo.
Defined.

Lemma vwap_marker_forces_sentinel_witness :
  Vwap.price
    (_calculateVwapForQty example_prices 5
       [ mkRow (Qc_of_Z 100) 10 "A" (Some 0%Qc) 0 ("A"%string, 0);
         mkRow (BID example_prices) 1 "B" (Some 0%Qc) 0 ("B"%string, 0) ])
  = Some (BID example_prices).
Proof.
  exact (proj1 (proj2 (proj2 (vwap_marker_forces_sentinel example_prices 5
    [ mkRow (Qc_of_Z 100) 10 "A" (Some 0%Qc) 0 ("A"%string, 0);
      mkRow (BID example_prices) 1 "B" (Some 0%Qc) 0 ("B"%string, 0) ])
    ltac:(compute_done)))).
Defined.

Lemma vwap_without_marker_witness :
  _calculateVwapForQty example_prices 15
    [ mkRow (Qc_of_Z 100) 10 "A" (Some 0%Qc) 0 ("A"%string, 0);
      mkRow (Qc_of_Z 99) 10 "A" (Some 0%Qc) 0 ("A"%string, 1) ]
  = Vwap.mk 15
      (Some ((Qc_of_Z 100 * Qc_of_Z 10 + Qc_of_Z 99 * Qc_of_Z 5)
             / Qc_of_Z 15)%Qc)
      1.
Proof.
  apply (proj2 (vwap_without_marker example_prices));
    first [reflexivity | compute_done].
Defined.

(** Claim C5.  The buy side of [lost_level_book], a book the interface
    produces, is fully consolidated: one entry per price, 11 at 10 and 3 at
    11, both with the empty venue.  Aggregating it again returns the level
    at 11 only: the level at 10 is dropped, so the set of (price, quantity)
    pairs is not kept.  Both records carry the key of venue B, the first
    since an earlier aggregation wrote that key onto it, and the result is
    keyed by the records' keys.  One step earlier the same collision makes
    the consolidated display show one buy level where the display that is
    not consolidated shows two. *)
Theorem aggregation_drops_price_level :
  let h := store lost_level_book in
  let side := buySide lost_level_book in
  reachable example_prices insertion_sort lost_level_book
  ∧ consolidated_side h side
  ∧ level_pairs h side = [(Qc_of_Z 10, 11); (Qc_of_Z 11, 3)]
  ∧ level_pairs (_aggregate side h).2 (_aggregate side h).1
    = [(Qc_of_Z 11, 3)]
  ∧ ¬ aggregate_keeps_pairs h side
  ∧ ¬ aggregation_idempotent_on h side
  ∧ key <$> rows_of h (obj_values side)
    = [("B"%string, 1); ("B"%string, 1)]
  ∧ length (sortedBuy (redisplay example_prices insertion_sort false
                         colliding_book).1) = 2%nat
  ∧ length (sortedBuy (redisplay example_prices insertion_sort true
                         colliding_book).1) = 1%nat.
Proof.
  intros h side. subst h side.
  assert (Hcons : consolidated_side (store lost_level_book)
                    (buySide lost_level_book)).
  { split; [apply refs_valid_Forall|split]; compute_done. }
  assert (Hin : (Qc_of_Z 10, 11) ∈ level_pairs (store lost_level_book)
                                     (buySide lost_level_book))
    by compute_done.
  assert (Hout : (Qc_of_Z 10, 11)
                 ∉ level_pairs
                     (_aggregate (buySide lost_level_book)
                        (store lost_level_book)).2
                     (_aggregate (buySide lost_level_book)
                        (store lost_level_book)).1)
    by compute_done.
  assert (Hdrop : ¬ aggregate_keeps_pairs (store lost_level_book)
                      (buySide lost_level_book)).
  { intros Hkeep. by apply Hout, Hkeep. }
  split; [apply lost_level_book_reachable|]. split; [exact Hcons|].
  split; [compute_done|]. split; [compute_done|]. split; [exact Hdrop|].
  split; [intros Hclaim; by apply Hdrop, Hclaim|].
  split; [compute_done|]. split; compute_done.
Qed.

Lemma aggregate_consolidated_idempotent_witness :
  (_aggregate (buySide (consolidated_pass six_level_book))
     (store (consolidated_pass six_level_book))).1
  = buySide (consolidated_pass six_level_book)
  ∧ (_aggregate
       (_aggregate (buySide two_venue_book) (store two_venue_book)).1
       (_aggregate (buySide two_venue_book) (store two_venue_book)).2).1
    = (_aggregate (buySide two_venue_book) (store two_venue_book)).1.
Proof.
  split.
  - exact (proj1 (proj1 (aggregate_consolidated_idempotent
                    (store (consolidated_pass six_level_book))
                    (buySide (consolidated_pass six_level_book)))
             ltac:(compute_done)
             ltac:(repeat constructor; eexists; split; vm_compute; reflexivity)
             ltac:(compute_done))).
  - exact (proj1 (proj2 (aggregate_consolidated_idempotent
                    (store two_venue_book) (buySide two_venue_book))
             ltac:(compute_done))).
Defined.

Lemma redisplay_depth_witness :
  (length (sortedBuy (redisplay example_prices insertion_sort true
                        six_level_book).1) ≤ 5)%nat
  ∧ length (sortedBuy (redisplay example_prices insertion_sort false
                         six_level_book).1)
    = length (buySide six_level_book).
Proof.
  destruct (redisplay_depth example_prices insertion_sort six_level_book
              insertion_sort_perm) as [(Hbuy & _) [(_ & _ & Hraw & _) _]].
  exact (conj Hbuy Hraw).
Defined.

Lemma updateBook_by_quantity_witness :
  obj_get ("A"%string, 1)
    (sideData BUY_SIDE
       (updateBook 1 BUY_SIDE 0 (Qc_of_Z 10) "A" two_venue_book))
  = None
  ∧ ∃ r, obj_get ("A"%string, 1)
           (sideData BUY_SIDE
              (updateBook 1 BUY_SIDE 7 0%Qc "A" two_venue_book)) = Some r
         ∧ store (updateBook 1 BUY_SIDE 7 0%Qc "A" two_venue_book) !! r
           = Some (_createRow 0%Qc 7 "A" 1).
Proof.
  destruct (updateBook_by_quantity two_venue_book 1 BUY_SIDE (Qc_of_Z 10) "A")
    as (Hgone & _ & Hzero & _).
  split; [exact Hgone|]. apply Hzero. lia.
Defined.

Lemma weighted_price_division_guarded_witness :
  calculateRowPrice example_prices
    (observe_prices example_prices newChecker [Qc_of_Z 100])
    (Qc_of_Z 100) (Qc_of_Z 1000) 10
  = Some (Qc_of_Z 1000 / Qc_of_Z 10)%Qc
  ∧ calculatePrice example_prices
      (observe_prices example_prices newChecker [Qc_of_Z 100]) 0%Qc 0
    = Some 0%Qc.
Proof.
  split.
  - apply (weighted_price_division_guarded example_prices [Qc_of_Z 100]
             (Qc_of_Z 100) (Qc_of_Z 1000) 10 ltac:(compute_done)). lia.
  - apply (weighted_price_division_guarded example_prices [Qc_of_Z 100]
             (Qc_of_Z 100) 0%Qc 0 ltac:(compute_done)). reflexivity.
Defined.

Lemma aggregation_mutates_storage_witness :
  ∃ row',
    store (redisplay example_prices insertion_sort true two_venue_book).1
      !! 0%nat = Some row'
    ∧ price row' = Qc_of_Z 10
    ∧ qty row' = 8
    ∧ venue row' = ""%string
    ∧ key row' = ("A"%string, 1).
Proof.
  destruct (aggregation_mutates_storage example_prices insertion_sort
              two_venue_book ltac:(compute_done)) as (_ & _ & Hseed).
  exact (Hseed [] [("B"%string, 1, 1%nat)] ("A"%string, 1) 0%nat
           (_createRow (Qc_of_Z 10) 5 "A" 1)
           (or_introl eq_refl) eq_refl
           ltac:(by intros x Hx%elem_of_nil)).
Defined.

Lemma vwap_quote_uses_snapshot_witness :
  getVwapUpdate example_prices "quote" 100 six_level_book
  = mkVwapUpdate "quote" 100 0 (Some 0%Qc) (-1) 0 (Some 0%Qc) (-1)
  ∧ let quote :=
      getVwapUpdate example_prices "quote" 100
        (apply_upserts [mkUpsert 1 BUY_SIDE 0 (Qc_of_Z 100) "A"]
           (redisplay example_prices insertion_sort true six_level_book).1) in
    buyQty quote = 50 ∧ buyPrice quote = Some (Qc_of_Z 98)
    ∧ buyLevel quote = 4
    ∧ sellQty quote = 10 ∧ sellPrice quote = Some (Qc_of_Z 101)
    ∧ sellLevel quote = 0.
Proof.
  destruct (vwap_quote_uses_snapshot example_prices insertion_sort
              six_level_book true "quote" 100 insertion_sort_perm
              (reachable_wf example_prices insertion_sort insertion_sort_perm
                 six_level_book six_level_book_reachable))
    as (Hnew & _ & _ & Hquote & _).
  split.
  - exact (Hnew [ mkUpsert 1 BUY_SIDE 10 (Qc_of_Z 100) "A";
                  mkUpsert 2 BUY_SIDE 10 (Qc_of_Z 99) "A";
                  mkUpsert 3 BUY_SIDE 10 (Qc_of_Z 98) "A";
                  mkUpsert 4 BUY_SIDE 10 (Qc_of_Z 97) "A";
                  mkUpsert 5 BUY_SIDE 10 (Qc_of_Z 96) "A";
                  mkUpsert 6 BUY_SIDE 10 (Qc_of_Z 95) "A";
                  mkUpsert 1 SELL_SIDE 10 (Qc_of_Z 101) "A" ]).
  - cbv zeta.
    rewrite (Hquote [mkUpsert 1 BUY_SIDE 0 (Qc_of_Z 100) "A"]).
    cbn [buyQty buyPrice buyLevel sellQty sellPrice sellLevel].
    repeat split; compute_done.
Defined.

(** ** The further properties on concrete books *)

Lemma vwap_fill_bounds_witness :
  Vwap.qty
    (_calculateVwapForQty example_prices 15
       [ mkRow (Qc_of_Z 100) 10 "A" (Some 0%Qc) 0 ("A"%string, 0);
         mkRow (Qc_of_Z 99) 10 "A" (Some 0%Qc) 0 ("A"%string, 1) ])
  = 15.
Proof.
  exact (proj1 (vwap_fill_bounds example_prices 15
    [ mkRow (Qc_of_Z 100) 10 "A" (Some 0%Qc) 0 ("A"%string, 0);
      mkRow (Qc_of_Z 99) 10 "A" (Some 0%Qc) 0 ("A"%string, 1) ]
    ltac:(lia))).
Defined.

Lemma vbbo_without_marker_witness :
  cumQty <$> _calculateVBBO example_prices [] [0; 1]%nat
               (store six_level_book) !! 1%nat
  = Some 20.
Proof.
  exact (proj1 (vbbo_without_marker example_prices [] (store six_level_book)
                  [0%nat] [] 1%nat (_createRow (Qc_of_Z 99) 10 "A" 2)
                  ltac:(compute_done) eq_refl)).
Defined.

Lemma compareCommon_both_orders_witness :
  compareCommon
    (mkRow (Qc_of_Z 10) 5 "XEQT" (Some 0%Qc) 0 ("XEQT"%string, 1))
    (mkRow (Qc_of_Z 10) 5 "XEQT" (Some 0%Qc) 0 ("XEQT"%string, 2))
  = CmpNumber (-1)%Qc
  ∧ compareCommon
      (mkRow (Qc_of_Z 10) 5 "XEQT" (Some 0%Qc) 0 ("XEQT"%string, 2))
      (mkRow (Qc_of_Z 10) 5 "XEQT" (Some 0%Qc) 0 ("XEQT"%string, 1))
    = CmpNumber (-1)%Qc.
Proof.
  exact (proj1 (compareCommon_both_orders
                  (mkRow (Qc_of_Z 10) 5 "XEQT" (Some 0%Qc) 0 ("XEQT"%string, 1))
                  (mkRow (Qc_of_Z 10) 5 "XEQT" (Some 0%Qc) 0 ("XEQT"%string, 2))
                  eq_refl)
           eq_refl eq_refl).
Defined.

Lemma updateBook_level_count_witness :
  S (length (sideData BUY_SIDE
               (updateBook 1 BUY_SIDE 0 (Qc_of_Z 10) "A" two_venue_book)))
  = length (sideData BUY_SIDE two_venue_book).
Proof.
  destruct (updateBook_level_count two_venue_book 1 BUY_SIDE 0 (Qc_of_Z 10) "A"
              ltac:(compute_done)) as (_ & _ & Hdelete & _).
  apply Hdelete; [reflexivity|]. by eexists.
Defined.

Lemma redisplay_after_reset_witness :
  redisplay example_prices insertion_sort true (resetData two_venue_book)
  = (resetData two_venue_book, [ResetWithCount 0; OnRedisplay]).
Proof.
  exact (proj1 (redisplay_after_reset example_prices insertion_sort
                  two_venue_book true insertion_sort_perm)).
Defined.

Lemma redisplay_rows_witness :
  (redisplay example_prices insertion_sort true six_level_book).2 !! 0%nat
  = Some (ResetWithCount
            (length (sortedBuy (consolidated_pass six_level_book))
             `max` length (sortedSell (consolidated_pass six_level_book)))).
Proof.
  exact (proj1 (proj2 (redisplay_rows example_prices insertion_sort true
                         six_level_book insertion_sort_perm
                         (reachable_wf example_prices insertion_sort
                            insertion_sort_perm six_level_book
                            six_level_book_reachable)))).
Defined.

Lemma aggregate_levels_witness :
  (_aggregate (buySide two_venue_book) (store two_venue_book)).2 !! 1%nat
  = Some (_createRow (Qc_of_Z 10) 3 "B" 1).
Proof.
  destruct (aggregate_levels (store two_venue_book) (buySide two_venue_book)
              ltac:(compute_done)) as (_ & _ & _ & _ & _ & Hlater).
  apply (Hlater [("A"%string, 1, 0%nat)] ("B"%string, 1) 1%nat []
           (_createRow (Qc_of_Z 10) 3 "B" 1) 0%nat);
    first [reflexivity | compute_done].
Defined.

Lemma consolidated_passes_accumulate_witness :
  ∃ row',
    store (consolidated_passes example_prices insertion_sort 3 two_venue_book)
      !! 0%nat = Some row'
    ∧ price row' = Qc_of_Z 10
    ∧ qty row' = 14.
Proof.
  exact (consolidated_passes_accumulate example_prices insertion_sort
           two_venue_book [] [("B"%string, 1, 1%nat)] ("A"%string, 1) 0%nat
           (_createRow (Qc_of_Z 10) 5 "A" 1) 3
           ltac:(compute_done) (or_introl eq_refl) eq_refl
           ltac:(by intros x Hx%elem_of_nil)).
Defined.

Lemma reachable_book_invariant_witness :
  book_wf lost_level_book
  ∧ NoDup (obj_keys (buySide lost_level_book))
  ∧ NoDup (obj_keys (sellSide lost_level_book)).
Proof.
  exact (reachable_book_invariant example_prices insertion_sort
           lost_level_book insertion_sort_perm lost_level_book_reachable).
Defined.

Lemma quote_after_full_redisplay_witness :
  buyQty (getVwapUpdate example_prices "quote" 100
            (redisplay example_prices insertion_sort false six_level_book).1)
  = 60.
Proof.
  exact (proj1 (quote_after_full_redisplay example_prices insertion_sort
                  six_level_book "quote" 100 insertion_sort_perm ltac:(lia))).
Defined.

Lemma vwap_nothing_to_fill_witness :
  Vwap.qty (_calculateVwapForQty example_prices (-5)
              (rows_of (store six_level_book) [0; 1]%nat)) = 0
  ∧ Vwap.level (_calculateVwapForQty example_prices (-5)
                  (rows_of (store six_level_book) [0; 1]%nat)) = -1.
Proof.
  destruct (vwap_nothing_to_fill example_prices (-5)
              (rows_of (store six_level_book) [0; 1]%nat)
              ltac:(left; lia)) as (Hqty & Hlevel & _).
  exact (conj Hqty Hlevel).
Defined.

Lemma consolidated_display_levels_witness :
  Forall (λ row, venue row = ""%string)
    (rows_of (store (consolidated_pass two_venue_book))
       (sortedBuy (consolidated_pass two_venue_book)))
  ∧ NoDup (roundedPrice
             <$> rows_of (store (consolidated_pass two_venue_book))
                   (sortedBuy (consolidated_pass two_venue_book))).
Proof.
  exact (consolidated_display_levels example_prices insertion_sort
           two_venue_book insertion_sort_perm ltac:(compute_done)
           (sortedBuy (consolidated_pass two_venue_book)) (or_introl eq_refl)).
Defined.

Lemma two_venue_book_reachable :
  reachable example_prices insertion_sort two_venue_book.
Proof.
  unfold two_venue_book, apply_upserts, apply_upsert.
  cbn [foldl up_level up_side up_qty up_price up_venue].
  repeat constructor.
Qed.

Lemma update_reaches_display_witness :
  0%nat ∉ sortedSide BUY_SIDE
            (redisplay example_prices insertion_sort false
               (updateBook 1 BUY_SIDE 0 (Qc_of_Z 10) "A" two_venue_book)).1.
Proof.
  exact (proj2 (update_reaches_display example_prices insertion_sort
                  two_venue_book 1 BUY_SIDE 0 (Qc_of_Z 10) "A"
                  insertion_sort_perm
                  (reachable_wf example_prices insertion_sort
                     insertion_sort_perm two_venue_book
                     two_venue_book_reachable))
           0%nat false eq_refl).
Defined.

Lemma redisplay_again_witness :
  redisplay example_prices insertion_sort false
    (redisplay example_prices insertion_sort false six_level_book).1
  = redisplay example_prices insertion_sort false six_level_book.
Proof.
  exact (redisplay_again example_prices insertion_sort six_level_book
           insertion_sort_perm insertion_sort_ext ltac:(compute_done)).
Defined.

Lemma quote_after_consolidated_redisplay_witness :
  -1 ≤ buyLevel (getVwapUpdate example_prices "quote" 100
                   (redisplay example_prices insertion_sort true
                      six_level_book).1) < 5.
Proof.
  exact (proj1 (quote_after_consolidated_redisplay example_prices
                  insertion_sort six_level_book "quote" 100 ltac:(lia))).
Defined.
